(** * CalenderAI: document ingestion, extraction and import

    A shallow embedding of the document pipeline of the repository:

    - the edge function [process-document] (text normaliser, line splitter,
      batched extraction client with retry, event materialiser), and
    - the client library [src/lib/document-processor.ts] (import of a staged
      event into the calendar, expansion of a date range by weekday).

    JavaScript strings are sequences of UTF-16 code units ([list N]), as
    regular expressions and [trim] see them.  A [Date] is its time value,
    read in UTC or in the local zone of the host as each method does.
    Effects (network calls, timers, database statements) are threaded
    through an explicit world that scripts the outcomes of the calls to
    come and logs the calls made; a thrown exception is a result of its
    own. *)

From Stdlib Require Import ZArith NArith String Ascii List Bool Lia.
Import ListNotations.

(* ================================================================== *)
(** * JavaScript primitives *)
(* ================================================================== *)

Module Js.

(** A string as the regular expressions of the source see it: UTF-16 code
    units. *)
Definition jsstring := list N.

Definition unit_of_ascii (a : ascii) : N := N_of_ascii a.

Fixpoint units (s : string) : jsstring :=
  match s with
  | EmptyString => []
  | String a r => unit_of_ascii a :: units r
  end.

Definition inRange (lo hi c : N) : bool := (lo <=? c)%N && (c <=? hi)%N.

(** [[\u0000-\u0008\u000B-\u000C\u000E-\u001F\u007F-\u009F]] *)
Definition isControl (c : N) : bool :=
  inRange 0 8 c || inRange 11 12 c || inRange 14 31 c || inRange 127 159 c.

(** [['']]: the class holds the ASCII apostrophe, twice. *)
Definition isApostrophe (c : N) : bool := (c =? 39)%N || (c =? 39)%N.

(** [[""]]: the class holds the ASCII double quote, twice. *)
Definition isDoubleQuote (c : N) : bool := (c =? 34)%N || (c =? 34)%N.

(** [[–—]]: U+2013 and U+2014. *)
Definition isDash (c : N) : bool := (c =? 8211)%N || (c =? 8212)%N.

(** [\s], which is also the set [String.prototype.trim] strips: the
    WhiteSpace and LineTerminator code points. *)
Definition isSpace (c : N) : bool :=
  inRange 9 13 c || (c =? 32)%N || (c =? 160)%N || (c =? 5760)%N
  || inRange 8192 8202 c || (c =? 8232)%N || (c =? 8233)%N
  || (c =? 8239)%N || (c =? 8287)%N || (c =? 12288)%N || (c =? 65279)%N.

Definition isLower (c : N) : bool := inRange 97 122 c.
Definition isUpper (c : N) : bool := inRange 65 90 c.
Definition isDigit (c : N) : bool := inRange 48 57 c.
Definition isLetter (c : N) : bool := isLower c || isUpper c.

Definition SPACE : N := 32.
Definition LF : N := 10.
Definition CR : N := 13.

(** [s.replace(/[class]/g, '')] *)
Definition removeClass (p : N -> bool) (s : jsstring) : jsstring :=
  filter (fun c => negb (p c)) s.

(** [s.replace(/[class]/g, r)] for a one-unit replacement [r]. *)
Definition replaceClass (p : N -> bool) (r : N) (s : jsstring) : jsstring :=
  map (fun c => if p c then r else c) s.

(** [s.replace(/\s+/g, ' ')]: [inRun] says that the unit before the head
    belongs to the run being replaced. *)
Fixpoint collapseFrom (inRun : bool) (s : jsstring) : jsstring :=
  match s with
  | [] => []
  | c :: t =>
      if isSpace c
      then (if inRun then collapseFrom true t else SPACE :: collapseFrom true t)
      else c :: collapseFrom false t
  end.

Definition collapseSpaces (s : jsstring) : jsstring := collapseFrom false s.

(** [s.replace(/([p])([q])/g, '$1 $2')]: a match consumes both units, and
    the scan goes on after the second. *)
Fixpoint insertSpaceBetween (p q : N -> bool) (s : jsstring) : jsstring :=
  match s with
  | [] => []
  | a :: t =>
      match t with
      | [] => [a]
      | b :: t' =>
          if p a && q b
          then a :: SPACE :: b :: insertSpaceBetween p q t'
          else a :: insertSpaceBetween p q t
      end
  end.

(** [s.split(sep)] for a one-unit separator; never the empty array. *)
Fixpoint split (sep : N) (s : jsstring) : list jsstring :=
  match s with
  | [] => [[]]
  | c :: t =>
      if (c =? sep)%N then [] :: split sep t
      else match split sep t with
           | [] => [[c]]
           | h :: r => (c :: h) :: r
           end
  end.

(** [pieces.join(sep)] *)
Fixpoint join (sep : N) (pieces : list jsstring) : jsstring :=
  match pieces with
  | [] => []
  | [p] => p
  | p :: rest => p ++ sep :: join sep rest
  end.

Fixpoint trimStart (s : jsstring) : jsstring :=
  match s with
  | [] => []
  | c :: t => if isSpace c then trimStart t else s
  end.

Fixpoint trimEnd (s : jsstring) : jsstring :=
  match s with
  | [] => []
  | c :: t =>
      match trimEnd t with
      | [] => if isSpace c then [] else [c]
      | r => c :: r
      end
  end.

(** [s.trim()] *)
Definition trim (s : jsstring) : jsstring := trimEnd (trimStart s).

Definition nonEmpty (s : jsstring) : bool :=
  match s with [] => false | _ => true end.

(** ** Truthiness and string helpers *)

Fixpoint eqUnits (a b : jsstring) : bool :=
  match a, b with
  | [], [] => true
  | x :: a', y :: b' => (x =? y)%N && eqUnits a' b'
  | _, _ => false
  end.

(** A string is falsy when it is empty; [undefined] and [null] ([None])
    are falsy. *)
Definition truthy (o : option jsstring) : bool :=
  match o with
  | Some s => nonEmpty s
  | None => false
  end.

(** [a || b] on strings. *)
Definition orElse (a b : jsstring) : jsstring :=
  if nonEmpty a then a else b.

(** [o || b] for an optional string [o]. *)
Definition optOrElse (o : option jsstring) (b : jsstring) : jsstring :=
  match o with
  | Some s => orElse s b
  | None => b
  end.

(** The string of a field that holds one. *)
Definition stringOf (o : option jsstring) : jsstring :=
  match o with
  | Some s => s
  | None => []
  end.

(** [o || null] *)
Definition orNull (o : option jsstring) : option jsstring :=
  if truthy o then o else None.

(** [s.toLowerCase()] on the ASCII letters; the other units are kept (none
    of them lowercases to a unit of a key of [dayMap]). *)
Definition toLowerCase (s : jsstring) : jsstring :=
  map (fun c => if isUpper c then (c + 32)%N else c) s.

(** ** Dates

    A [Date] holds a time value: milliseconds since 1970-01-01T00:00Z, or
    NaN ([None]).  [toISOString] reads it in UTC; [getDay], [getDate] and
    [setDate] read and write it in the local zone of the host, here a fixed
    offset from UTC. *)

Local Open Scope Z_scope.

Record Host := mkHost { utcOffsetMinutes : Z }.

Definition UTC : Host := mkHost 0.

Definition msPerDay : Z := 86400000.
Definition msPerMinute : Z := 60000.

(** Day number of a time value, and its weekday (0 = Sunday); day 0 was a
    Thursday. *)
Definition Day (t : Z) : Z := t / msPerDay.
Definition WeekDay (t : Z) : Z := (Day t + 4) mod 7.

Definition LocalTime (h : Host) (t : Z) : Z := t + utcOffsetMinutes h * msPerMinute.
Definition UTCOf (h : Host) (l : Z) : Z := l - utcOffsetMinutes h * msPerMinute.

(** [d.getDay()] *)
Definition getDay (h : Host) (t : Z) : Z := WeekDay (LocalTime h t).

(** [d.setDate(d.getDate() + 1)]: the next local day, same local time. *)
Definition setDateNext (h : Host) (t : Z) : Z := UTCOf h (LocalTime h t + msPerDay).

Definition isLeapYear (y : Z) : bool :=
  ((y mod 4 =? 0) && negb (y mod 100 =? 0)) || (y mod 400 =? 0).

Definition daysInMonth (y m : Z) : Z :=
  if m =? 2 then (if isLeapYear y then 29 else 28)
  else if (m =? 4) || (m =? 6) || (m =? 9) || (m =? 11) then 30
  else 31.

(** Day number of a date of the proleptic Gregorian calendar. *)
Definition daysFromCivil (y m d : Z) : Z :=
  let y' := if m <=? 2 then y - 1 else y in
  let era := y' / 400 in
  let yoe := y' - era * 400 in
  let mp := if 2 <? m then m - 3 else m + 9 in
  let doy := (153 * mp + 2) / 5 + d - 1 in
  let doe := yoe * 365 + yoe / 4 - yoe / 100 + doy in
  era * 146097 + doe - 719468.

(** Year, month and day of a day number. *)
Definition civilFromDays (z : Z) : Z * Z * Z :=
  let z' := z + 719468 in
  let era := z' / 146097 in
  let doe := z' - era * 146097 in
  let yoe := (doe - doe / 1460 + doe / 36524 - doe / 146096) / 365 in
  let doy := doe - (365 * yoe + yoe / 4 - yoe / 100) in
  let mp := (5 * doy + 2) / 153 in
  let d := doy - (153 * mp + 2) / 5 + 1 in
  let m := if mp <? 10 then mp + 3 else mp - 9 in
  let y := yoe + era * 400 in
  (if m <=? 2 then y + 1 else y, m, d).

Definition digitValue (c : N) : option Z :=
  if isDigit c then Some (Z.of_N c - 48) else None.

Fixpoint digitsValue (acc : Z) (s : jsstring) : option Z :=
  match s with
  | [] => Some acc
  | c :: t =>
      match digitValue c with
      | Some v => digitsValue (acc * 10 + v) t
      | None => None
      end
  end.

(** [new Date(s)] for the date-only form [YYYY-MM-DD], which is read as
    midnight UTC.  The month is 01 to 12 and the day 01 to 31, whatever the
    month: a day that the month does not have runs over into the next
    month, so 2025-02-29 is the first of March.  Only this form is
    embedded: it is the form that the extraction is asked to give, and a
    string of another form, which an engine may read as a date and time or
    in a format of its own, is outside the embedding and stands here as an
    Invalid Date. *)
Definition newDate (s : jsstring) : option Z :=
  match s with
  | [y1; y2; y3; y4; 45%N; m1; m2; 45%N; d1; d2] =>
      match digitsValue 0 [y1; y2; y3; y4], digitsValue 0 [m1; m2],
            digitsValue 0 [d1; d2] with
      | Some y, Some m, Some d =>
          if (1 <=? m) && (m <=? 12) && (1 <=? d) && (d <=? 31)
          then Some (daysFromCivil y m d * msPerDay)
          else None
      | _, _, _ => None
      end
  | _ => None
  end.

(** Whether a string of the date-only form names a day that its month
    has. *)
Definition isCalendarDate (s : jsstring) : bool :=
  match s with
  | [y1; y2; y3; y4; 45%N; m1; m2; 45%N; d1; d2] =>
      match digitsValue 0 [y1; y2; y3; y4], digitsValue 0 [m1; m2],
            digitsValue 0 [d1; d2] with
      | Some y, Some m, Some d =>
          (1 <=? m) && (m <=? 12) && (1 <=? d) && (d <=? daysInMonth y m)
      | _, _, _ => false
      end
  | _ => false
  end.

Definition digitUnit (v : Z) : N := Z.to_N (48 + v mod 10).

Definition pad2 (v : Z) : jsstring := [digitUnit (v / 10); digitUnit v].

Definition pad4 (v : Z) : jsstring :=
  [digitUnit (v / 1000); digitUnit (v / 100); digitUnit (v / 10); digitUnit v].

Definition pad6 (v : Z) : jsstring :=
  [digitUnit (v / 100000); digitUnit (v / 10000); digitUnit (v / 1000);
   digitUnit (v / 100); digitUnit (v / 10); digitUnit v].

(** [d.toISOString().split('T')[0]]: the UTC date, with the expanded year
    outside 0..9999. *)
Definition toISODate (t : Z) : jsstring :=
  let '(y, m, d) := civilFromDays (Day t) in
  let year :=
    if (0 <=? y) && (y <=? 9999) then pad4 y
    else if y <? 0 then 45%N :: pad6 (- y)
    else 43%N :: pad6 y in
  year ++ 45%N :: pad2 m ++ 45%N :: pad2 d.

Local Close Scope Z_scope.

End Js.

(* ================================================================== *)
(** * Expansion of a date range by weekday

    [expandDateRangeWithDays] of the edge function and [expandRangeWithDays]
    of the client library hold the same text for the table of day names,
    the parse of the day list and the loop over the days; it is embedded
    once. *)
(* ================================================================== *)

Module Weekdays.
Import Js.

Definition dayMap : list (jsstring * Z) :=
  [ (units "sunday", 0); (units "sun", 0);
    (units "monday", 1); (units "mon", 1);
    (units "tuesday", 2); (units "tue", 2); (units "tues", 2);
    (units "wednesday", 3); (units "wed", 3);
    (units "thursday", 4); (units "thu", 4); (units "thur", 4);
    (units "thurs", 4);
    (units "friday", 5); (units "fri", 5);
    (units "saturday", 6); (units "sat", 6) ]%Z.

(** [dayMap[d]], [None] for [undefined].  A name that the object inherits
    gives a value that is no day number; it matches no day, as [None]. *)
Fixpoint lookup (table : list (jsstring * Z)) (d : jsstring) : option Z :=
  match table with
  | [] => None
  | (k, v) :: rest => if eqUnits k d then Some v else lookup rest d
  end.

(** [.filter(d => d !== undefined)] *)
Fixpoint defined (l : list (option Z)) : list Z :=
  match l with
  | [] => []
  | Some v :: r => v :: defined r
  | None :: r => defined r
  end.

Definition COMMA : N := 44.

(** [dayOfWeekStr.toLowerCase().split(',').map(d => d.trim())
      .map(d => dayMap[d]).filter(d => d !== undefined)] *)
Definition parseDaysOfWeek (dayOfWeekStr : jsstring) : list Z :=
  defined (map (lookup dayMap) (map trim (split COMMA (toLowerCase dayOfWeekStr)))).

(** [daysOfWeek.includes(day)] *)
Definition includes (daysOfWeek : list Z) (day : Z) : bool :=
  existsb (Z.eqb day) daysOfWeek.

(** The [while (currentDate <= endDate)] loop; it returns the time values
    of the days it pushes.  [fuel] bounds the number of iterations. *)
Fixpoint walkDays (fuel : nat) (h : Host) (daysOfWeek : list Z)
    (currentDate endDate : Z) : list Z :=
  match fuel with
  | 0 => []
  | S fuel' =>
      if (currentDate <=? endDate)%Z
      then (if includes daysOfWeek (getDay h currentDate)
            then [currentDate] else [])
           ++ walkDays fuel' h daysOfWeek (setDateNext h currentDate) endDate
      else []
  end.

(** The iterations between two time values: one per day of the range. *)
Definition daysBetween (startDate endDate : Z) : nat :=
  Z.to_nat ((endDate - startDate) / msPerDay + 1).

(** The dates that the expansion emits: a comparison with an Invalid Date
    is false, so the loop does not run. *)
Definition expandDates (h : Host) (startDateStr endDateStr dayOfWeekStr : jsstring)
  : list jsstring :=
  let startDate := newDate startDateStr in
  let endDate := newDate endDateStr in
  let daysOfWeek := parseDaysOfWeek dayOfWeekStr in
  match daysOfWeek with
  | [] => []
  | _ =>
      match startDate, endDate with
      | Some s, Some e =>
          map toISODate (walkDays (daysBetween s e) h daysOfWeek s e)
      | _, _ => []
      end
  end.

End Weekdays.

(* ================================================================== *)
(** * The edge function: normaliser and line splitter *)
(* ================================================================== *)

Module EdgeFunction.
Import Js Weekdays.

(** [LineContext] *)
Record LineContext := mkLine { line_number : nat; text : jsstring }.

(** The chain of [replace] calls of [cleanOCRText], before the lines are
    trimmed. *)
Definition replaceChain (doc : jsstring) : jsstring :=
  insertSpaceBetween isLetter isDigit
    (insertSpaceBetween isDigit isLetter
      (insertSpaceBetween isLower isUpper
        (collapseSpaces
          (replaceClass isDash 45
            (replaceClass isDoubleQuote 34
              (replaceClass isApostrophe 39
                (removeClass isControl doc))))))).

(** [.split('\n').map(line => line.trim()).filter(line => line.length > 0)
     .join('\n')] *)
Definition trimLines (s : jsstring) : jsstring :=
  join LF (filter nonEmpty (map trim (split LF s))).

Definition cleanOCRText (doc : jsstring) : jsstring :=
  trimLines (replaceChain doc).

(** One trailing CR of a piece belongs to the separator [/\r?\n/]. *)
Fixpoint dropFinalCR (s : jsstring) : jsstring :=
  match s with
  | [] => []
  | [c] => if (c =? CR)%N then [] else [c]
  | c :: t => c :: dropFinalCR t
  end.

(** [s.split(/\r?\n/)]: every piece but the last ends at a separator. *)
Fixpoint dropSeparatorCR (pieces : list jsstring) : list jsstring :=
  match pieces with
  | [] => []
  | [p] => [p]
  | p :: rest => dropFinalCR p :: dropSeparatorCR rest
  end.

Definition splitLines (s : jsstring) : list jsstring :=
  dropSeparatorCR (split LF s).

(** [.map((line, index) => ({ line_number: index + 1, text: line.trim() }))] *)
Fixpoint numberFrom (index : nat) (pieces : list jsstring) : list LineContext :=
  match pieces with
  | [] => []
  | p :: rest => mkLine (index + 1) (trim p) :: numberFrom (S index) rest
  end.

Definition splitDocumentIntoLines (doc : jsstring) : list LineContext :=
  filter (fun line => nonEmpty line.(text)) (numberFrom 0 (splitLines doc)).

(* ================================================================== *)
(** * The edge function: extraction client and materialiser *)
(* ================================================================== *)

(** [LineExtraction]: one result object of the completion service. *)
Module LineExtraction.
Record t := mk {
  line_number : nat;
  event : jsstring;
  date_text : jsstring;
  normalized_date : option jsstring;
  normalized_end_date : option jsstring;
  day_of_week : option jsstring;
  recurrence_pattern : option jsstring;
  is_range_with_day : option bool
}.
End LineExtraction.

(** The metadata bag written by the materialiser; a key that an object
    literal leaves out reads as [None]. *)
Module Metadata.
Record t := mk {
  date_text : jsstring;
  normalized_date : option jsstring;
  normalized_end_date : option jsstring;
  line_number : nat;
  day_of_week : option jsstring;
  recurrence_pattern : option jsstring;
  is_range_with_day : option bool;
  is_expanded_from_range : bool;
  original_range_start : option jsstring;
  original_range_end : option jsstring
}.
End Metadata.

(** [ExtractedEvent] of the edge function. *)
Module ExtractedEvent.
Record t := mk {
  title : jsstring;
  description : jsstring;
  event_date : jsstring;
  category : jsstring;
  priority : jsstring;
  confidence : Z;
  metadata : Metadata.t
}.
End ExtractedEvent.

(** [is_range_with_day] as a condition: [undefined] and [false] are falsy. *)
Definition flag (o : option bool) : bool :=
  match o with
  | Some b => b
  | None => false
  end.

(** The test that stores a result as a range to expand on import. *)
Definition isDeferredRange (event : LineExtraction.t) : bool :=
  flag (LineExtraction.is_range_with_day event)
  && truthy (LineExtraction.normalized_date event)
  && truthy (LineExtraction.normalized_end_date event)
  && truthy (LineExtraction.day_of_week event).

(** The body of the [for] loop of [convertLineEventsToExtractedEvents]: the
    events pushed for one result. *)
Definition convertLineEvent (event : LineExtraction.t) : list ExtractedEvent.t :=
  let e := event in
  if negb (truthy (LineExtraction.normalized_date e))
     && negb (nonEmpty (LineExtraction.date_text e))
  then []
  else if isDeferredRange e
  then
    [ ExtractedEvent.mk
        (orElse (LineExtraction.event e) (LineExtraction.date_text e))
        (orElse (LineExtraction.event e) (LineExtraction.date_text e))
        (stringOf (LineExtraction.normalized_date e))
        (units "other") (units "medium") 85
        (Metadata.mk
           (LineExtraction.date_text e)
           (LineExtraction.normalized_date e)
           (LineExtraction.normalized_end_date e)
           (LineExtraction.line_number e)
           (LineExtraction.day_of_week e)
           (orNull (LineExtraction.recurrence_pattern e))
           (Some true) false None None) ]
  else
    let event_date :=
      optOrElse (LineExtraction.normalized_date e) (LineExtraction.date_text e) in
    let confidence :=
      if truthy (LineExtraction.normalized_date e) then 90%Z else 70%Z in
    [ ExtractedEvent.mk
        (orElse (LineExtraction.event e) (LineExtraction.date_text e))
        (orElse (LineExtraction.event e) (LineExtraction.date_text e))
        event_date
        (units "other") (units "medium") confidence
        (Metadata.mk
           (LineExtraction.date_text e)
           None
           (orNull (LineExtraction.normalized_end_date e))
           (LineExtraction.line_number e)
           (orNull (LineExtraction.day_of_week e))
           (orNull (LineExtraction.recurrence_pattern e))
           (Some false) false None None) ].

Definition convertLineEventsToExtractedEvents
    (lineEvents : list LineExtraction.t) : list ExtractedEvent.t :=
  flat_map convertLineEvent lineEvents.

(** [expandDateRangeWithDays]: the expansion that the edge function holds
    and no longer calls. *)
Definition expandDateRangeWithDays (h : Host) (event : LineExtraction.t)
  : list ExtractedEvent.t :=
  if negb (isDeferredRange event) then []
  else
    map (fun eventDate =>
           ExtractedEvent.mk
             (orElse (LineExtraction.event event) (LineExtraction.date_text event))
             (orElse (LineExtraction.event event) (LineExtraction.date_text event))
             eventDate
             (units "other") (units "medium") 85
             (Metadata.mk
                (LineExtraction.date_text event)
                None None
                (LineExtraction.line_number event)
                (LineExtraction.day_of_week event)
                (orNull (LineExtraction.recurrence_pattern event))
                None true
                (LineExtraction.normalized_date event)
                (LineExtraction.normalized_end_date event)))
        (expandDates h
           (stringOf (LineExtraction.normalized_date event))
           (stringOf (LineExtraction.normalized_end_date event))
           (stringOf (LineExtraction.day_of_week event))).

(** ** The world of the edge function *)

(** What [response.json()] and the parse of its content give.  The
    content of a completion is a string; the body is handled as [any], so
    a content that is truthy and no string is kept apart where the code
    depends on it. *)
Inductive Body :=
| NotJson                      (* response.json() rejects *)
| JsonNull                     (* response.json() gives null *)
| NoContent                    (* no choices[0].message.content *)
| Malformed                    (* content is a string, JSON.parse throws *)
| MalformedValue               (* content is no string, JSON.parse throws *)
| ContentNull (isString : bool)
                               (* JSON.parse(content) gives null *)
| Events (events : option (list LineExtraction.t)).
                               (* JSON.parse(content) gives another value;
                                  its events, when they are an array *)

Record Response := mkResponse {
  status : Z;
  errorBody : jsstring;
  body : Body
}.

(** [response.ok] *)
Definition ok (r : Response) : bool :=
  (200 <=? status r)%Z && (status r <=? 299)%Z.

Inductive FetchOutcome :=
| Rejects (reason : jsstring)  (* network failure: fetch rejects *)
| Responds (r : Response).

Inductive Error :=
| NetworkError (reason : jsstring)
| HttpError (status : Z) (errorBody : jsstring)
| AllRetryAttemptsFailed
| InvalidJson
| TypeError
| OpenAIApiError (cause : Error).

(** A row of [extracted_events]: [{...event, document_id, user_id}]. *)
Record Row := mkRow {
  row_event : ExtractedEvent.t;
  document_id : jsstring;
  user_id : jsstring
}.

Inductive Effect :=
| Fetched (lines : list LineContext)
| Slept (ms : Z)
| Inserted (rows : list Row)
| InsertRejected (rows : list Row).

(** [network]: the outcomes of the coming [fetch] calls; [inserts]: whether
    the coming [insert] statements are accepted; [trace]: the effects so
    far, oldest first. *)
Record World := mkWorld {
  network : list FetchOutcome;
  inserts : list bool;
  extracted_events : list Row;
  trace : list Effect
}.

Inductive Result (A : Type) :=
| Returned (a : A)
| Thrown (e : Error).
Arguments Returned {A} a.
Arguments Thrown {A} e.

Definition M (A : Type) : Type := World -> Result A * World.

Definition ret {A} (a : A) : M A := fun w => (Returned a, w).

Definition throw {A} (e : Error) : M A := fun w => (Thrown e, w).

Definition bind {A B} (c : M A) (k : A -> M B) : M B :=
  fun w =>
    match c w with
    | (Returned a, w') => k a w'
    | (Thrown e, w') => (Thrown e, w')
    end.

(** [try { c } catch (e) { handler e }] *)
Definition tryCatch {A} (c : M A) (handler : Error -> M A) : M A :=
  fun w =>
    match c w with
    | (Returned a, w') => (Returned a, w')
    | (Thrown e, w') => handler e w'
    end.

Local Notation "x <- c ;; k" := (bind c (fun x => k))
  (at level 61, c at next level, right associativity).
Local Notation "c ;;; k" := (bind c (fun _ => k))
  (at level 61, right associativity).

Definition record (e : Effect) (w : World) : World :=
  mkWorld (network w) (inserts w) (extracted_events w) (trace w ++ [e]).

(** [await fetch(url, options)], the request carrying the lines of a batch. *)
Definition fetch (lines : list LineContext) : M Response :=
  fun w =>
    let w := record (Fetched lines) w in
    match network w with
    | [] => (Thrown (NetworkError []), w)
    | o :: rest =>
        let w := mkWorld rest (inserts w) (extracted_events w) (trace w) in
        match o with
        | Rejects reason => (Thrown (NetworkError reason), w)
        | Responds r => (Returned r, w)
        end
    end.

(** [await new Promise(resolve => setTimeout(resolve, ms))] *)
Definition sleep (ms : Z) : M unit :=
  fun w => (Returned tt, record (Slept ms) w).

(** [await supabase.from('extracted_events').insert(rows)]: the error, if
    any, is returned, not thrown. *)
Definition insertExtractedEvents (rows : list Row) : M bool :=
  fun w =>
    match inserts w with
    | false :: rest =>
        (Returned false,
         record (InsertRejected rows)
           (mkWorld (network w) rest (extracted_events w) (trace w)))
    | accepted =>
        (Returned true,
         record (Inserted rows)
           (mkWorld (network w) (tl accepted) (extracted_events w ++ rows)
              (trace w)))
    end.

(** ** [fetchWithRetry] *)

Definition delays : list Z := [500; 1000; 2000]%Z.

(** How the [try] block of one attempt ends when it does not throw. *)
Inductive Attempt :=
| Done (response : Response)   (* return response *)
| Next.                        (* fall out of the try block *)

(** The [try] block of the loop body. *)
Definition attemptBody (lines : list LineContext) (retries attempt : nat)
  : M Attempt :=
  response <- fetch lines ;;
  if ok response then ret (Done response)
  else if (400 <=? status response)%Z && (status response <? 500)%Z
  then throw (HttpError (status response) (errorBody response))
  else if attempt =? retries - 1
  then throw (HttpError (status response) (errorBody response))
  else ret Next.

(** The [catch] block of the loop body. *)
Definition attemptCatch (retries attempt : nat) (error : Error) : M Attempt :=
  if attempt =? retries - 1 then throw error else ret Next.

(** The [for] loop, [remaining] iterations before [attempt] reaches
    [retries]. *)
Fixpoint attemptLoop (lines : list LineContext) (retries remaining attempt : nat)
  : M Response :=
  match remaining with
  | 0 => throw AllRetryAttemptsFailed
  | S remaining' =>
      a <- tryCatch (attemptBody lines retries attempt)
                    (attemptCatch retries attempt) ;;
      match a with
      | Done response => ret response
      | Next =>
          (if attempt <? retries - 1
           then sleep (nth attempt delays 0%Z)
           else ret tt) ;;;
          attemptLoop lines retries remaining' (S attempt)
      end
  end.

Definition fetchWithRetry (lines : list LineContext) (retries : nat)
  : M Response :=
  attemptLoop lines retries retries 0.

(** ** [callOpenAIForLineBatch] *)

Definition arrayOrEmpty (events : option (list LineExtraction.t))
  : list LineExtraction.t :=
  match events with
  | Some l => l
  | None => []
  end.

(** What the [try] block of the retry leaves: an early [return], or the
    value given to [parsed]. *)
Inductive Retried :=
| Gives (events : list LineExtraction.t)          (* return [] *)
| Parsed (events : option (list LineExtraction.t))
                                                   (* parsed is no null *)
| ParsedNull.                                      (* parsed = null *)

(** The [try] block of the retry of the request.  [retryData.choices] on a
    body that is null throws inside the block. *)
Definition retryBody (batch : list LineContext) : M Retried :=
  retryResponse <- fetch batch ;;
  if ok retryResponse
  then match body retryResponse with
       | NotJson => throw InvalidJson
       | JsonNull => throw TypeError
       | NoContent => ret (Gives [])
       | Malformed => ret (Gives [])
       | MalformedValue => ret (Gives [])
       | ContentNull _ => ret ParsedNull
       | Events events => ret (Parsed events)
       end
  else ret (Gives []).

(** The retry of the request after a content that does not parse, and the
    [return] that follows it: whatever fails inside the [try] block gives
    the empty result, but a retried content that parses to null leaves
    [parsed = null], and [parsed.events] then throws outside the block. *)
Definition retryParse (batch : list LineContext) : M (list LineExtraction.t) :=
  retried <- tryCatch (retryBody batch) (fun _ => ret (Gives [])) ;;
  match retried with
  | Gives events => ret events
  | Parsed events => ret (arrayOrEmpty events)
  | ParsedNull => throw TypeError
  end.

(** [callOpenAIForLineBatch].  [data.choices] on a body that is null throws.
    A content that parses to null throws at [parsed.events] inside the
    [try] block and is handled as one that does not parse; the handler
    reads [content.substring], which throws for a content that is no
    string. *)
Definition callOpenAIForLineBatch (batch : list LineContext)
  : M (list LineExtraction.t) :=
  match batch with
  | [] => ret []
  | _ =>
      response <- tryCatch (fetchWithRetry batch 3)
                           (fun error => throw (OpenAIApiError error)) ;;
      match body response with
      | NotJson => throw InvalidJson
      | JsonNull => throw TypeError
      | NoContent => ret []
      | Malformed => retryParse batch
      | MalformedValue => throw TypeError
      | ContentNull true => retryParse batch
      | ContentNull false => throw TypeError
      | Events events => ret (arrayOrEmpty events)
      end
  end.

(** ** [extractEventsFromLines] *)

Definition BATCH_SIZE : nat := 10.

(** [lines.slice(i, j)] for [i <= j] *)
Definition slice {A} (i j : nat) (l : list A) : list A :=
  firstn (j - i) (skipn i l).

(** [for (let i = 0; i < lines.length; i += BATCH_SIZE)
       batches.push(lines.slice(i, i + BATCH_SIZE))]; [fuel] bounds the
    number of iterations. *)
Fixpoint pushBatches (fuel i : nat) (lines : list LineContext)
  : list (list LineContext) :=
  match fuel with
  | 0 => []
  | S fuel' =>
      if i <? List.length lines
      then slice i (i + BATCH_SIZE) lines
             :: pushBatches fuel' (i + BATCH_SIZE) lines
      else []
  end.

Definition makeBatches (lines : list LineContext) : list (list LineContext) :=
  pushBatches (List.length lines) 0 lines.

(** The [try] block of the batch loop: the call, then the insert of the
    converted rows; it returns the grown [allEvents]. *)
Definition batchTry (batch : list LineContext) (documentId userId : jsstring)
    (allEvents : list LineExtraction.t) : M (list LineExtraction.t) :=
  batchEvents <- callOpenAIForLineBatch batch ;;
  (if 0 <? List.length batchEvents
   then
     let batchExtractedEvents := convertLineEventsToExtractedEvents batchEvents in
     let eventsToInsert :=
       map (fun event => mkRow event documentId userId) batchExtractedEvents in
     insertExtractedEvents eventsToInsert ;;; ret tt
   else ret tt) ;;;
  ret (allEvents ++ batchEvents).

(** The [for] loop over the batches, by index. *)
Fixpoint batchLoop (batches : list (list LineContext))
    (documentId userId : jsstring) (remaining i : nat)
    (allEvents : list LineExtraction.t) : M (list LineExtraction.t) :=
  match remaining with
  | 0 => ret allEvents
  | S remaining' =>
      allEvents <- tryCatch (batchTry (nth i batches []) documentId userId allEvents)
                            (fun _ => ret allEvents) ;;
      (if i <? List.length batches - 1 then sleep 400 else ret tt) ;;;
      batchLoop batches documentId userId remaining' (S i) allEvents
  end.

Definition extractEventsFromLines (lines : list LineContext)
    (documentId userId : jsstring) : M (list LineExtraction.t) :=
  let batches := makeBatches lines in
  batchLoop batches documentId userId (List.length batches) 0 [].

End EdgeFunction.

(* ================================================================== *)
(** * The client library: [src/lib/document-processor.ts] *)
(* ================================================================== *)

Module DocumentProcessor.
Import Js Weekdays.

(** The metadata of a stored event as the client reads it: every key is
    optional. *)
Module StoredMetadata.
Record t := mk {
  date_text : option jsstring;
  normalized_date : option jsstring;
  normalized_end_date : option jsstring;
  line_number : option nat;
  day_of_week : option jsstring;
  recurrence_pattern : option jsstring;
  is_range_with_day : option bool;
  is_expanded_from_range : option bool
}.

(** [{}] *)
Definition empty : t := mk None None None None None None None None.
End StoredMetadata.

(** A row of [extracted_events]. *)
Module ExtractedEvent.
Record t := mk {
  id : jsstring;
  document_id : jsstring;
  user_id : jsstring;
  title : jsstring;
  description : option jsstring;
  event_date : jsstring;
  start_time : option jsstring;
  end_time : option jsstring;
  location : option jsstring;
  category : jsstring;
  priority : jsstring;
  confidence : Z;
  is_imported : bool;
  metadata : option StoredMetadata.t
}.
End ExtractedEvent.

(** A row handed to [calendar_events]; the columns that the database fills
    in are left out. *)
Module CalendarEvent.
Record t := mk {
  user_id : jsstring;
  title : jsstring;
  description : option jsstring;
  event_date : jsstring;
  start_time : option jsstring;
  end_time : option jsstring;
  location : option jsstring;
  category : jsstring;
  priority : jsstring;
  source : jsstring;
  source_id : jsstring;
  is_completed : bool
}.
End CalendarEvent.

Inductive Statement :=
| Selected (eventId : jsstring)
| InsertedMany (rows : list CalendarEvent.t)   (* insert(array).select() *)
| InsertedOne (row : CalendarEvent.t)          (* insert(object).select().single() *)
| MarkedImported (eventId : jsstring).

(** [faults]: the error messages of the coming statements, [None] for one
    that succeeds; [log]: the statements sent so far, oldest first. *)
Record Db := mkDb {
  extracted_events : list ExtractedEvent.t;
  calendar_events : list CalendarEvent.t;
  faults : list (option jsstring);
  log : list Statement
}.

Inductive Error :=
| FailedToFetch
| FailedToImportExpanded (message : jsstring)
| FailedToImport (message : jsstring)
| FailedToMark (message : jsstring).

Inductive Result (A : Type) :=
| Returned (a : A)
| Thrown (e : Error).
Arguments Returned {A} a.
Arguments Thrown {A} e.

Definition M (A : Type) : Type := Db -> Result A * Db.

Definition ret {A} (a : A) : M A := fun db => (Returned a, db).

Definition throw {A} (e : Error) : M A := fun db => (Thrown e, db).

Definition bind {A B} (c : M A) (k : A -> M B) : M B :=
  fun db =>
    match c db with
    | (Returned a, db') => k a db'
    | (Thrown e, db') => (Thrown e, db')
    end.

Local Notation "x <- c ;; k" := (bind c (fun x => k))
  (at level 61, c at next level, right associativity).
Local Notation "c ;;; k" := (bind c (fun _ => k))
  (at level 61, right associativity).

(** A statement is sent: it is logged and takes the next fault. *)
Definition send (s : Statement) (db : Db) : option jsstring * Db :=
  (match faults db with
   | [] => None
   | f :: _ => f
   end,
   mkDb (extracted_events db) (calendar_events db) (tl (faults db))
        (log db ++ [s])).

(** [.from('extracted_events').select('*').eq('id', eventId).single()]:
    the row, or the error of a statement that fails or does not find
    exactly one row. *)
Definition selectSingle (eventId : jsstring)
  : M (option ExtractedEvent.t) :=
  fun db =>
    let (error, db) := send (Selected eventId) db in
    match error with
    | Some _ => (Returned None, db)
    | None =>
        match filter (fun r => eqUnits (ExtractedEvent.id r) eventId)
                     (extracted_events db) with
        | [row] => (Returned (Some row), db)
        | _ => (Returned None, db)
        end
    end.

(** [.from('calendar_events').insert(rows).select()]: one statement, all
    rows or none. *)
Definition insertMany (rows : list CalendarEvent.t)
  : M (option jsstring) :=
  fun db =>
    let (error, db) := send (InsertedMany rows) db in
    match error with
    | Some message => (Returned (Some message), db)
    | None =>
        (Returned None,
         mkDb (extracted_events db) (calendar_events db ++ rows)
              (faults db) (log db))
    end.

(** [.from('calendar_events').insert(row).select().single()] *)
Definition insertOne (row : CalendarEvent.t) : M (option jsstring) :=
  fun db =>
    let (error, db) := send (InsertedOne row) db in
    match error with
    | Some message => (Returned (Some message), db)
    | None =>
        (Returned None,
         mkDb (extracted_events db) (calendar_events db ++ [row])
              (faults db) (log db))
    end.

Definition setImported (r : ExtractedEvent.t) : ExtractedEvent.t :=
  ExtractedEvent.mk
    (ExtractedEvent.id r) (ExtractedEvent.document_id r)
    (ExtractedEvent.user_id r) (ExtractedEvent.title r)
    (ExtractedEvent.description r) (ExtractedEvent.event_date r)
    (ExtractedEvent.start_time r) (ExtractedEvent.end_time r)
    (ExtractedEvent.location r) (ExtractedEvent.category r)
    (ExtractedEvent.priority r) (ExtractedEvent.confidence r)
    true (ExtractedEvent.metadata r).

(** [.from('extracted_events').update({ is_imported: true }).eq('id', eventId)] *)
Definition updateImported (eventId : jsstring) : M (option jsstring) :=
  fun db =>
    let (error, db) := send (MarkedImported eventId) db in
    match error with
    | Some message => (Returned (Some message), db)
    | None =>
        (Returned None,
         mkDb (map (fun r => if eqUnits (ExtractedEvent.id r) eventId
                             then setImported r else r)
                   (extracted_events db))
              (calendar_events db) (faults db) (log db))
    end.

Definition markEventAsImported (eventId : jsstring) : M unit :=
  error <- updateImported eventId ;;
  match error with
  | Some message => throw (FailedToMark message)
  | None => ret tt
  end.

(** ** [expandRangeWithDays] *)

(** The element type of the array that [expandRangeWithDays] returns. *)
Module Expanded.
Record t := mk {
  title : jsstring;
  description : option jsstring;
  event_date : jsstring
}.
End Expanded.

Definition expandRangeWithDays (h : Host) (extractedEvent : ExtractedEvent.t)
    (startDateStr endDateStr dayOfWeekStr : jsstring) : list Expanded.t :=
  map (fun eventDate =>
         Expanded.mk (ExtractedEvent.title extractedEvent)
                     (ExtractedEvent.description extractedEvent)
                     eventDate)
      (expandDates h startDateStr endDateStr dayOfWeekStr).

(** ** [importEventToCalendar] *)

Definition flag (o : option bool) : bool :=
  match o with
  | Some b => b
  | None => false
  end.

(** The condition of the branch that expands. *)
Definition needsExpansion (metadata : StoredMetadata.t) : bool :=
  flag (StoredMetadata.is_range_with_day metadata)
  && truthy (StoredMetadata.normalized_date metadata)
  && truthy (StoredMetadata.normalized_end_date metadata)
  && truthy (StoredMetadata.day_of_week metadata).

Definition EXTRACTED : jsstring := units "extracted".

(** What the import returns: the rows of the expansion, or the one row. *)
Inductive Imported :=
| Many (calendarEvents : list CalendarEvent.t)
| One (calendarEvent : CalendarEvent.t).

Definition importEventToCalendar (h : Host) (eventId : jsstring)
  : M Imported :=
  fetched <- selectSingle eventId ;;
  match fetched with
  | None => throw FailedToFetch
  | Some extractedEvent =>
      let metadata :=
        match ExtractedEvent.metadata extractedEvent with
        | Some m => m
        | None => StoredMetadata.empty
        end in
      if needsExpansion metadata
      then
        let expandedEvents :=
          expandRangeWithDays h extractedEvent
            (stringOf (StoredMetadata.normalized_date metadata))
            (stringOf (StoredMetadata.normalized_end_date metadata))
            (stringOf (StoredMetadata.day_of_week metadata)) in
        let eventsToInsert :=
          map (fun event =>
                 CalendarEvent.mk
                   (ExtractedEvent.user_id extractedEvent)
                   (Expanded.title event)
                   (Expanded.description event)
                   (Expanded.event_date event)
                   (ExtractedEvent.start_time extractedEvent)
                   (ExtractedEvent.end_time extractedEvent)
                   (ExtractedEvent.location extractedEvent)
                   (ExtractedEvent.category extractedEvent)
                   (ExtractedEvent.priority extractedEvent)
                   EXTRACTED eventId false)
              expandedEvents in
        insertError <- insertMany eventsToInsert ;;
        match insertError with
        | Some message => throw (FailedToImportExpanded message)
        | None =>
            markEventAsImported eventId ;;;
            ret (Many eventsToInsert)
        end
      else
        let row :=
          CalendarEvent.mk
            (ExtractedEvent.user_id extractedEvent)
            (ExtractedEvent.title extractedEvent)
            (ExtractedEvent.description extractedEvent)
            (ExtractedEvent.event_date extractedEvent)
            (ExtractedEvent.start_time extractedEvent)
            (ExtractedEvent.end_time extractedEvent)
            (ExtractedEvent.location extractedEvent)
            (ExtractedEvent.category extractedEvent)
            (ExtractedEvent.priority extractedEvent)
            EXTRACTED eventId false in
        insertError <- insertOne row ;;
        match insertError with
        | Some message => throw (FailedToImport message)
        | None =>
            markEventAsImported eventId ;;;
            ret (One row)
        end
  end.

End DocumentProcessor.


(* ================================================================== *)
(** * The client library: documents and their files *)
(* ================================================================== *)

(** [uploadDocument], [deleteDocument], [deleteExtractedEvent] and
    [deleteExtractedEvents] of [document-processor.ts], over the bucket
    [documents] and the tables [documents] and [extracted_events] as far as
    the signed-in user sees them.  What the environment decides is an
    argument or a part of the store: the reading of the clock and the id
    that the database generates are arguments of the upload, the errors of
    the service are the script [faults]. *)
Module DocumentFiles.
Import Js.

(** The [File] of the browser, as far as the upload reads it. *)
Module File.
Record t := mk {
  name : jsstring;
  type : jsstring;
  size : Z
}.
End File.

(** A row of [documents]; the columns that the upload leaves to their
    defaults are not read by these functions. *)
Module Document.
Record t := mk {
  id : jsstring;
  user_id : jsstring;
  name : jsstring;
  file_type : jsstring;
  file_size : Z;
  storage_path : jsstring;
  status : jsstring;
  progress : Z
}.
End Document.

(** The requests sent to the service, and the lines written to the
    console. *)
Inductive Request :=
| Uploaded (path : jsstring)
| Removed (paths : list jsstring)
| InsertedDocument (row : Document.t)
| SelectedPath (documentId : jsstring)
| DeletedDocument (documentId : jsstring)
| DeletedEvent (eventId : jsstring)
| DeletedEvents (eventIds : list jsstring)
| ConsoleError (message : jsstring).

(** [objects]: the paths of the files of the bucket; [faults]: the error
    messages of the coming requests, [None] for one that the service does
    not refuse; [log]: the requests sent so far, oldest first. *)
Record Store := mkStore {
  objects : list jsstring;
  documents : list Document.t;
  extracted_events : list DocumentProcessor.ExtractedEvent.t;
  faults : list (option jsstring);
  log : list Request
}.

Inductive Error :=
| FailedToUpload (message : jsstring)
| FailedToCreateRecord (message : jsstring)
| FailedToFetchDocument (message : jsstring)
| FailedToDeleteDocument (message : jsstring)
| FailedToDeleteEvent (message : jsstring)
| FailedToDeleteEvents (message : jsstring).

Inductive Result (A : Type) :=
| Returned (a : A)
| Thrown (e : Error).
Arguments Returned {A} a.
Arguments Thrown {A} e.

Definition M (A : Type) : Type := Store -> Result A * Store.

Definition ret {A} (a : A) : M A := fun st => (Returned a, st).

Definition throw {A} (e : Error) : M A := fun st => (Thrown e, st).

Definition bind {A B} (c : M A) (k : A -> M B) : M B :=
  fun st =>
    match c st with
    | (Returned a, st') => k a st'
    | (Thrown e, st') => (Thrown e, st')
    end.

Local Notation "x <- c ;; k" := (bind c (fun x => k))
  (at level 61, c at next level, right associativity).
Local Notation "c ;;; k" := (bind c (fun _ => k))
  (at level 61, right associativity).

(** A request is sent: it is logged and takes the next fault. *)
Definition send (r : Request) (st : Store) : option jsstring * Store :=
  (match faults st with
   | [] => None
   | f :: _ => f
   end,
   mkStore (objects st) (documents st) (extracted_events st)
           (tl (faults st)) (log st ++ [r])).

Definition member (x : jsstring) (l : list jsstring) : bool :=
  existsb (eqUnits x) l.

(** The message of the storage service for a path that is taken. *)
Definition ALREADY_EXISTS : jsstring := units "The resource already exists".

(** The message of [.single()] when the rows are not exactly one. *)
Definition NOT_SINGLE : jsstring :=
  units "JSON object requested, multiple (or no) rows returned".

(** [supabase.storage.from('documents').upload(path, file)]: the error, if
    any.  Without [upsert] a path that is taken is refused. *)
Definition storageUpload (path : jsstring) : M (option jsstring) :=
  fun st =>
    let (error, st) := send (Uploaded path) st in
    match error with
    | Some message => (Returned (Some message), st)
    | None =>
        if member path (objects st)
        then (Returned (Some ALREADY_EXISTS), st)
        else (Returned None,
              mkStore (objects st ++ [path]) (documents st)
                      (extracted_events st) (faults st) (log st))
    end.

(** [supabase.storage.from('documents').remove(paths)]: the error, if
    any. *)
Definition storageRemove (paths : list jsstring) : M (option jsstring) :=
  fun st =>
    let (error, st) := send (Removed paths) st in
    match error with
    | Some message => (Returned (Some message), st)
    | None =>
        (Returned None,
         mkStore (filter (fun p => negb (member p paths)) (objects st))
                 (documents st) (extracted_events st) (faults st) (log st))
    end.

(** [.from('documents').insert(row).select().single()]: the error, or the
    row as the table holds it. *)
Definition insertDocument (row : Document.t) : M (jsstring + Document.t) :=
  fun st =>
    let (error, st) := send (InsertedDocument row) st in
    match error with
    | Some message => (Returned (inl message), st)
    | None =>
        (Returned (inr row),
         mkStore (objects st) (documents st ++ [row]) (extracted_events st)
                 (faults st) (log st))
    end.

(** [.from('documents').select('storage_path').eq('id', documentId)
      .single()]: the error, or the path of the one row. *)
Definition selectStoragePath (documentId : jsstring) : M (jsstring + jsstring) :=
  fun st =>
    let (error, st) := send (SelectedPath documentId) st in
    match error with
    | Some message => (Returned (inl message), st)
    | None =>
        match filter (fun d => eqUnits (Document.id d) documentId)
                     (documents st) with
        | [document] => (Returned (inr (Document.storage_path document)), st)
        | _ => (Returned (inl NOT_SINGLE), st)
        end
    end.

(** [.from('documents').delete().eq('id', documentId)]: the error, if any.
    The rows of [extracted_events] of the document go with it
    ([ON DELETE CASCADE]). *)
Definition deleteDocumentRow (documentId : jsstring) : M (option jsstring) :=
  fun st =>
    let (error, st) := send (DeletedDocument documentId) st in
    match error with
    | Some message => (Returned (Some message), st)
    | None =>
        (Returned None,
         mkStore (objects st)
                 (filter (fun d => negb (eqUnits (Document.id d) documentId))
                         (documents st))
                 (filter (fun r =>
                            negb (eqUnits
                                    (DocumentProcessor.ExtractedEvent.document_id r)
                                    documentId))
                         (extracted_events st))
                 (faults st) (log st))
    end.

(** [.from('extracted_events').delete()] with a filter on [id]. *)
Definition deleteEventRows (request : Request) (selected : jsstring -> bool)
  : M (option jsstring) :=
  fun st =>
    let (error, st) := send request st in
    match error with
    | Some message => (Returned (Some message), st)
    | None =>
        (Returned None,
         mkStore (objects st) (documents st)
                 (filter (fun r =>
                            negb (selected (DocumentProcessor.ExtractedEvent.id r)))
                         (extracted_events st))
                 (faults st) (log st))
    end.

Definition consoleError (message : jsstring) : M unit :=
  fun st =>
    (Returned tt,
     mkStore (objects st) (documents st) (extracted_events st) (faults st)
             (log st ++ [ConsoleError message])).

Definition DOT : N := 46.
Definition SLASH : N := 47.
Definition PENDING : jsstring := units "pending".

(** [pieces.pop()] of an array that is not empty. *)
Definition pop (pieces : list jsstring) : jsstring := last pieces [].

(** The decimal digits of a count of milliseconds, as a template literal
    prints an integer below 10^21. *)
Fixpoint digits (fuel : nat) (n : Z) (printed : jsstring) : jsstring :=
  match fuel with
  | 0 => printed
  | S fuel' =>
      let printed' := digitUnit n :: printed in
      if (n <? 10)%Z then printed' else digits fuel' (n / 10)%Z printed'
  end.

Definition decimal (n : N) : jsstring :=
  digits (S (N.to_nat (N.log2 n))) (Z.of_N n) [].

(** [file.name.split('.').pop()] *)
Definition fileExtension (file : File.t) : jsstring :=
  pop (split DOT (File.name file)).

(** [`${userId}/${Date.now()}.${fileExt}`] *)
Definition storagePath (now : N) (file : File.t) (userId : jsstring)
  : jsstring :=
  userId ++ SLASH :: decimal now ++ DOT :: fileExtension file.

(** [uploadDocument]; [now] is the reading of [Date.now()] and [generated]
    the id that the database gives the new row. *)
Definition uploadDocument (now : N) (generated : jsstring)
    (file : File.t) (userId : jsstring) : M Document.t :=
  let fileName := storagePath now file userId in
  uploadError <- storageUpload fileName ;;
  match uploadError with
  | Some message => throw (FailedToUpload message)
  | None =>
      inserted <- insertDocument
                    (Document.mk generated userId (File.name file)
                       (File.type file) (File.size file) fileName PENDING 0) ;;
      match inserted with
      | inl message =>
          storageRemove [fileName] ;;;
          throw (FailedToCreateRecord message)
      | inr document => ret document
      end
  end.

(** [deleteDocument] *)
Definition deleteDocument (documentId : jsstring) : M unit :=
  fetched <- selectStoragePath documentId ;;
  match fetched with
  | inl message => throw (FailedToFetchDocument message)
  | inr storage_path =>
      storageError <- storageRemove [storage_path] ;;
      match storageError with
      | Some message => consoleError message
      | None => ret tt
      end ;;;
      deleteError <- deleteDocumentRow documentId ;;
      match deleteError with
      | Some message => throw (FailedToDeleteDocument message)
      | None => ret tt
      end
  end.

(** [deleteExtractedEvent] *)
Definition deleteExtractedEvent (eventId : jsstring) : M unit :=
  error <- deleteEventRows (DeletedEvent eventId)
             (fun id => eqUnits id eventId) ;;
  match error with
  | Some message => throw (FailedToDeleteEvent message)
  | None => ret tt
  end.

(** [deleteExtractedEvents] *)
Definition deleteExtractedEvents (eventIds : list jsstring) : M unit :=
  error <- deleteEventRows (DeletedEvents eventIds)
             (fun id => member id eventIds) ;;
  match error with
  | Some message => throw (FailedToDeleteEvents message)
  | None => ret tt
  end.

End DocumentFiles.
(* ================================================================== *)
(** * The recurring-event store *)
(* ================================================================== *)

Module RecurringStore.
Import Js.

(** [recurring_candidates.status] *)
Inductive Status := pending | accepted | rejected.

(** A row of [recurring_candidates], by the columns of the migration. *)
Module RecurringCandidate.
Record t := mk {
  id : jsstring;
  user_id : jsstring;
  cluster_key : jsstring;
  event_ids : list jsstring;
  detected_pattern : option jsstring;
  title : jsstring;
  normalized_title : jsstring;
  start_time : option jsstring;
  location : option jsstring;
  occurrence_dates : list jsstring;
  suggested_rrule : option jsstring;
  status : Status
}.
End RecurringCandidate.

(** A row of [event_series], by the columns of the migration; [id] and the
    time stamps are left to the database.  The columns that the table
    declares [NOT NULL] always hold a value, the others may be null. *)
Module EventSeries.
Record t := mk {
  user_id : jsstring;
  title : jsstring;
  normalized_title : jsstring;
  description : option jsstring;
  start_date : jsstring;
  start_time : option jsstring;
  end_time : option jsstring;
  duration_minutes : option Z;
  location : option jsstring;
  category : jsstring;
  priority : jsstring;
  rrule : jsstring;
  exdates : list jsstring;
  until_date : option jsstring;
  source : jsstring;
  is_active : bool
}.
End EventSeries.

Record Store := mkStore {
  recurring_candidates : list RecurringCandidate.t;
  event_series : list EventSeries.t
}.

Definition findCandidate (candidateId : jsstring) (st : Store)
  : option RecurringCandidate.t :=
  find (fun c => eqUnits (RecurringCandidate.id c) candidateId)
       (recurring_candidates st).

Definition withStatus (s : Status) (c : RecurringCandidate.t)
  : RecurringCandidate.t :=
  RecurringCandidate.mk
    (RecurringCandidate.id c) (RecurringCandidate.user_id c)
    (RecurringCandidate.cluster_key c) (RecurringCandidate.event_ids c)
    (RecurringCandidate.detected_pattern c) (RecurringCandidate.title c)
    (RecurringCandidate.normalized_title c) (RecurringCandidate.start_time c)
    (RecurringCandidate.location c) (RecurringCandidate.occurrence_dates c)
    (RecurringCandidate.suggested_rrule c) s.

(** The last date of a list. *)
Fixpoint lastDate (l : list jsstring) : option jsstring :=
  match l with
  | [] => None
  | [d] => Some d
  | _ :: r => lastDate r
  end.

(** Modelled from the spec: the series that a promotion creates; the code
    of the promotion is not among the sources.  It takes the candidate's
    normalized title, time, location and suggested rule, and runs from the
    first to the last date of the occurrence list; the other columns take
    the defaults of the table, and its source is ['detected'].  The table
    wants a start date and a rule: a candidate without a suggested rule or
    without an occurrence date gives no series. *)
Definition seriesOf (c : RecurringCandidate.t) : option EventSeries.t :=
  match RecurringCandidate.suggested_rrule c,
        RecurringCandidate.occurrence_dates c with
  | Some rule, first :: _ =>
      Some (EventSeries.mk
              (RecurringCandidate.user_id c)
              (RecurringCandidate.title c)
              (RecurringCandidate.normalized_title c)
              None
              first
              (RecurringCandidate.start_time c)
              None None
              (RecurringCandidate.location c)
              (units "other") (units "medium")
              rule
              []
              (lastDate (RecurringCandidate.occurrence_dates c))
              (units "detected") true)
  | _, _ => None
  end.

(** Modelled from the spec: [promote(candidateId)]; the code of the
    promotion is not among the sources.  The transition of a pending
    candidate to [accepted] creates its series and flips its status; a
    candidate that is already accepted has made that transition, and a
    rejected one is inert.  A promotion whose series the table would
    refuse, for want of a start date or a rule, is refused as a whole: no
    series is created and the candidate stays pending. *)
Definition promote (candidateId : jsstring) (st : Store) : Store :=
  match findCandidate candidateId st with
  | Some c =>
      match RecurringCandidate.status c, seriesOf c with
      | pending, Some series =>
          mkStore
            (map (fun x => if eqUnits (RecurringCandidate.id x) candidateId
                           then withStatus accepted x else x)
                 (recurring_candidates st))
            (event_series st ++ [series])
      | _, _ => st
      end
  | None => st
  end.

End RecurringStore.

(* ================================================================== *)
(** * From the edge function to the client: the staging table *)
(* ================================================================== *)

Module Staging.
Import Js.

(** The metadata object that the edge function writes, as the client reads
    it back from the [jsonb] column. *)
Definition storedMetadata (m : EdgeFunction.Metadata.t)
  : DocumentProcessor.StoredMetadata.t :=
  DocumentProcessor.StoredMetadata.mk
    (Some (EdgeFunction.Metadata.date_text m))
    (EdgeFunction.Metadata.normalized_date m)
    (EdgeFunction.Metadata.normalized_end_date m)
    (Some (EdgeFunction.Metadata.line_number m))
    (EdgeFunction.Metadata.day_of_week m)
    (EdgeFunction.Metadata.recurrence_pattern m)
    (EdgeFunction.Metadata.is_range_with_day m)
    (Some (EdgeFunction.Metadata.is_expanded_from_range m)).

(** The row that the database holds for a row the edge function inserts:
    [id] is generated, the columns that the insert leaves out are null, and
    [is_imported] takes its default. *)
Definition storedRow (id : jsstring) (r : EdgeFunction.Row)
  : DocumentProcessor.ExtractedEvent.t :=
  let e := EdgeFunction.row_event r in
  DocumentProcessor.ExtractedEvent.mk
    id (EdgeFunction.document_id r) (EdgeFunction.user_id r)
    (EdgeFunction.ExtractedEvent.title e)
    (Some (EdgeFunction.ExtractedEvent.description e))
    (EdgeFunction.ExtractedEvent.event_date e)
    None None None
    (EdgeFunction.ExtractedEvent.category e)
    (EdgeFunction.ExtractedEvent.priority e)
    (EdgeFunction.ExtractedEvent.confidence e)
    false
    (Some (storedMetadata (EdgeFunction.ExtractedEvent.metadata e))).

End Staging.

(* ================================================================== *)
(** * Vocabulary of the statements *)
(* ================================================================== *)

Module Shape.
Import Js.

(** No two neighbours of [s] are related by [R]. *)
Fixpoint noAdjacent (R : N -> N -> bool) (s : jsstring) : Prop :=
  match s with
  | [] => True
  | a :: t =>
      match t with
      | [] => True
      | b :: _ => R a b = false /\ noAdjacent R t
      end
  end.

Definition startsWith (p : N -> bool) (s : jsstring) : bool :=
  match s with
  | [] => false
  | c :: _ => p c
  end.

Definition bothSpace (a b : N) : bool := isSpace a && isSpace b.
Definition lowerUpper (a b : N) : bool := isLower a && isUpper b.
Definition digitLetter (a b : N) : bool := isDigit a && isLetter b.
Definition letterDigit (a b : N) : bool := isLetter a && isDigit b.

(** What every result of the chain of replacements looks like. *)
Record Normal (s : jsstring) : Prop := mkNormal {
  normal_control : Forall (fun c => isControl c = false) s;
  normal_dash : Forall (fun c => isDash c = false) s;
  normal_plain : Forall (fun c => isSpace c = true -> c = SPACE) s;
  normal_runs : noAdjacent bothSpace s;
  normal_lower_upper : noAdjacent lowerUpper s;
  normal_digit_letter : noAdjacent digitLetter s;
  normal_letter_digit : noAdjacent letterDigit s
}.

(** [n] consecutive days from the time value [t]. *)
Fixpoint daysFrom (t : Z) (n : nat) : list Z :=
  match n with
  | 0 => []
  | S k => t :: daysFrom (t + msPerDay) k
  end.

(** A host five hours west of UTC, and one five and a half hours east. *)
Definition westHost : Host := mkHost (-300).
Definition eastHost : Host := mkHost 330.

End Shape.

Module Observe.
Import Js EdgeFunction.

(** The delays slept in a trace, in order. *)
Fixpoint sleeps (t : list Effect) : list Z :=
  match t with
  | [] => []
  | Slept ms :: r => ms :: sleeps r
  | _ :: r => sleeps r
  end.

(** The number of requests sent in a trace. *)
Fixpoint fetches (t : list Effect) : nat :=
  match t with
  | [] => 0
  | Fetched _ :: r => S (fetches r)
  | _ :: r => fetches r
  end.

(** The pauses between batches in a trace: the sleeps of 400 ms. *)
Fixpoint pauses (t : list Effect) : nat :=
  match t with
  | [] => 0
  | Slept ms :: r => (if (ms =? 400)%Z then 1 else 0) + pauses r
  | _ :: r => pauses r
  end.

(** A world that has done nothing yet. *)
Definition fresh (net : list FetchOutcome) (ins : list bool) : World :=
  mkWorld net ins [] [].

Definition respond (status : Z) (b : Body) : FetchOutcome :=
  Responds (mkResponse status [] b).

(** The run of the extraction driver as the specification describes it: a
    run over the batches, in order.  A batch whose call throws gives no
    result and changes no table; the results of a batch are persisted as
    soon as they are there; 400 ms are slept between two batches.

    What persisting the results of a batch does to the world, written out:
    no result, no statement; otherwise one insert of the converted rows,
    which takes the next outcome of the inserts: a refused insert leaves
    the table as it is, an accepted one appends the rows. *)
Definition persistBatch (batchEvents : list LineExtraction.t)
    (documentId userId : jsstring) (w : World) : World :=
  match batchEvents with
  | [] => w
  | _ =>
      let rows := map (fun event => mkRow event documentId userId)
                      (convertLineEventsToExtractedEvents batchEvents) in
      match inserts w with
      | false :: rest =>
          mkWorld (network w) rest (extracted_events w)
                  (trace w ++ [InsertRejected rows])
      | accepted =>
          mkWorld (network w) (tl accepted) (extracted_events w ++ rows)
                  (trace w ++ [Inserted rows])
      end
  end.

Definition batchStep (batch : list LineContext) (documentId userId : jsstring)
    (w : World) : list LineExtraction.t * World :=
  match callOpenAIForLineBatch batch w with
  | (Returned batchEvents, w1) =>
      (batchEvents, persistBatch batchEvents documentId userId w1)
  | (Thrown _, w1) => ([], w1)
  end.

Fixpoint sequentialRun (batches : list (list LineContext))
    (documentId userId : jsstring) (w : World)
  : list LineExtraction.t * World :=
  match batches with
  | [] => ([], w)
  | batch :: rest =>
      let (events, w1) := batchStep batch documentId userId w in
      let w2 := match rest with
                | [] => w1
                | _ => record (Slept 400) w1
                end in
      let (later, w3) := sequentialRun rest documentId userId w2 in
      (events ++ later, w3)
  end.

(** A computation that leaves the table [extracted_events] as it is. *)
Definition keepsTable {A} (c : M A) : Prop :=
  forall w, extracted_events (snd (c w)) = extracted_events w.

(** Every batch but the last holds [BATCH_SIZE] lines. *)
Fixpoint fullButLast (batches : list (list LineContext)) : Prop :=
  match batches with
  | [] => True
  | batch :: rest =>
      match rest with
      | [] => True
      | _ => List.length batch = BATCH_SIZE /\ fullButLast rest
      end
  end.

End Observe.

Module Ledger.
Import Js DocumentProcessor.

(** The statements of a log that mark an event as imported. *)
Fixpoint marks (l : list Statement) : nat :=
  match l with
  | [] => 0
  | MarkedImported _ :: r => S (marks r)
  | _ :: r => marks r
  end.

(** The statements of a log that insert one unexpanded event. *)
Fixpoint singleInserts (l : list Statement) : nat :=
  match l with
  | [] => 0
  | InsertedOne _ :: r => S (singleInserts r)
  | _ :: r => singleInserts r
  end.

(** The calendar row of an import of [extractedEvent] dated [eventDate]. *)
Definition calendarRow (extractedEvent : ExtractedEvent.t)
    (eventId eventDate : jsstring) : CalendarEvent.t :=
  CalendarEvent.mk
    (ExtractedEvent.user_id extractedEvent)
    (ExtractedEvent.title extractedEvent)
    (ExtractedEvent.description extractedEvent)
    eventDate
    (ExtractedEvent.start_time extractedEvent)
    (ExtractedEvent.end_time extractedEvent)
    (ExtractedEvent.location extractedEvent)
    (ExtractedEvent.category extractedEvent)
    (ExtractedEvent.priority extractedEvent)
    EXTRACTED eventId false.

(** The rows of the branch that expands. *)
Definition expanding (h : Host) (eventId : jsstring)
    (extractedEvent : ExtractedEvent.t) (metadata : StoredMetadata.t)
  : list CalendarEvent.t :=
  map (calendarRow extractedEvent eventId)
      (Weekdays.expandDates h
         (stringOf (StoredMetadata.normalized_date metadata))
         (stringOf (StoredMetadata.normalized_end_date metadata))
         (stringOf (StoredMetadata.day_of_week metadata))).

(** A result of the completion service: Team Meeting, every Monday from
    2025-11-03 to 2025-11-17. *)
Definition mondays : EdgeFunction.LineExtraction.t :=
  EdgeFunction.LineExtraction.mk 3
    (units "Team Meeting") (units "Nov 3 to Nov 17")
    (Some (units "2025-11-03")) (Some (units "2025-11-17"))
    (Some (units "Monday")) (Some (units "weekly")) (Some true).

(** The row that the staging table holds for it, with times and a place. *)
Definition stagedMondays : ExtractedEvent.t :=
  ExtractedEvent.mk
    (units "evt-1") (units "doc-1") (units "user-1")
    (units "Team Meeting") (Some (units "Team Meeting"))
    (units "2025-11-03")
    (Some (units "09:00")) (Some (units "10:00")) (Some (units "Room 2"))
    (units "other") (units "medium") 85 false
    (Some (Staging.storedMetadata
             (EdgeFunction.Metadata.mk
                (units "Nov 3 to Nov 17")
                (Some (units "2025-11-03")) (Some (units "2025-11-17"))
                3 (Some (units "Monday")) (Some (units "weekly"))
                (Some true) false None None))).

(** A result of the completion service whose day list names no weekday. *)
Definition funday : EdgeFunction.LineExtraction.t :=
  EdgeFunction.LineExtraction.mk 5
    (units "Yoga") (units "Nov 3 to Nov 17")
    (Some (units "2025-11-03")) (Some (units "2025-11-17"))
    (Some (units "Funday")) (Some (units "weekly")) (Some true).

(** A staged event that is not a range. *)
Definition stagedExam : ExtractedEvent.t :=
  ExtractedEvent.mk
    (units "evt-2") (units "doc-1") (units "user-1")
    (units "Midterm Exam") (Some (units "Midterm Exam"))
    (units "2025-11-14") None None None
    (units "other") (units "medium") 90 false
    (Some (Staging.storedMetadata
             (EdgeFunction.Metadata.mk
                (units "Nov 14, 2025") None None
                1 None None (Some false) false None None))).

End Ledger.

Module Detected.
Import Js RecurringStore.

(** A pending candidate: Team Meeting, three Mondays. *)
Definition teamMeetings : RecurringCandidate.t :=
  RecurringCandidate.mk
    (units "cand-1") (units "user-1") (units "team meeting|09:00")
    [units "evt-7"; units "evt-8"; units "evt-9"] (Some (units "weekly"))
    (units "Team Meeting") (units "team meeting") (Some (units "09:00"))
    (Some (units "Room 2"))
    [units "2025-11-03"; units "2025-11-10"; units "2025-11-17"]
    (Some (units "FREQ=WEEKLY;BYDAY=MO")) pending.

End Detected.
(* ================================================================== *)
(** * Vocabulary of the further properties *)
(* ================================================================== *)

Module Attempts.
Import Js EdgeFunction.

(** The effects of [k] attempts, the first of them numbered [attempt]: a
    request each, and between two of them the delay of the table, or no
    delay once the table is used up. *)
Fixpoint retryTrace (lines : list LineContext) (k attempt : nat)
  : list Effect :=
  match k with
  | 0 => []
  | S k' =>
      Fetched lines
        :: match k' with
           | 0 => []
           | S _ => Slept (nth attempt delays 0%Z)
                      :: retryTrace lines k' (S attempt)
           end
  end.

(** An outcome of [fetch] that ends the loop with a response. *)
Definition succeeds (o : option FetchOutcome) : bool :=
  match o with
  | Some (Responds r) => ok r
  | _ => false
  end.

(** The error that an outcome leaves when it does not succeed; a script
    that is used up stands for a host that cannot be reached. *)
Definition failure (o : option FetchOutcome) : Error :=
  match o with
  | Some (Responds r) => HttpError (status r) (errorBody r)
  | Some (Rejects reason) => NetworkError reason
  | None => NetworkError []
  end.

End Attempts.

Module Frame.
Import Js EdgeFunction.

(** A computation that leaves the part [f] of the world as it is. *)
Definition keeps {X A : Type} (f : World -> X) (c : M A) : Prop :=
  forall w, f (snd (c w)) = f w.

(** A result that carries a normalized date or raw date text. *)
Definition hasDateInfo (e : LineExtraction.t) : bool :=
  truthy (LineExtraction.normalized_date e)
  || nonEmpty (LineExtraction.date_text e).

(** A first answer after which the request is sent once more: a content
    that is a string and does not parse, or parses to null. *)
Definition asksAgain (b : Body) : bool :=
  match b with
  | Malformed => true
  | ContentNull true => true
  | _ => false
  end.

(** How the call ends after the request that retries a parse, by the
    outcome of that request. *)
Definition reparsed (o : option FetchOutcome) : Result (list LineExtraction.t) :=
  match o with
  | Some (Responds r) =>
      if ok r
      then match body r with
           | Events events => Returned (arrayOrEmpty events)
           | ContentNull _ => Thrown TypeError
           | _ => Returned []
           end
      else Returned []
  | _ => Returned []
  end.

End Frame.

Module Visible.
Import Js.

(** The units of a string that are not white space. *)
Definition visible (s : jsstring) : jsstring :=
  filter (fun c => negb (isSpace c)) s.

End Visible.

Module Importing.
Import Js DocumentProcessor Ledger.

(** The metadata that the import reads: [extractedEvent.metadata || {}]. *)
Definition metadataOf (row : ExtractedEvent.t) : StoredMetadata.t :=
  match ExtractedEvent.metadata row with
  | Some m => m
  | None => StoredMetadata.empty
  end.

(** The calendar rows that the import of a staged row inserts. *)
Definition importedRows (h : Host) (eventId : jsstring)
    (row : ExtractedEvent.t) : list CalendarEvent.t :=
  if needsExpansion (metadataOf row)
  then expanding h eventId row (metadataOf row)
  else [calendarRow row eventId (ExtractedEvent.event_date row)].

(** The table after the update that marks the rows of an id. *)
Definition marked (eventId : jsstring) (rows : list ExtractedEvent.t)
  : list ExtractedEvent.t :=
  map (fun r => if eqUnits (ExtractedEvent.id r) eventId
                then setImported r else r) rows.

(** The rows of the table under an id. *)
Definition rowsOf (eventId : jsstring) (rows : list ExtractedEvent.t)
  : list ExtractedEvent.t :=
  filter (fun r => eqUnits (ExtractedEvent.id r) eventId) rows.

End Importing.


Module OneByOne.
Import Js DocumentFiles.

(** [for (const id of ids) await f(id)] *)
Fixpoint forEach (f : jsstring -> M unit) (ids : list jsstring) : M unit :=
  match ids with
  | [] => ret tt
  | id :: rest => bind (f id) (fun _ => forEach f rest)
  end.

(** The fault of the request after the next [n]; a script that is used up
    refuses nothing. *)
Definition faultAfter (n : nat) (script : list (option jsstring))
  : option jsstring :=
  match nth_error script n with
  | Some fault => fault
  | None => None
  end.

End OneByOne.

(* ================================================================== *)
(** * The edge function: the filter of candidate lines *)
(* ================================================================== *)

(** [dateRegex] and the filter [lines.filter(l => dateRegex.test(l.text))]
    of the handler.  The expression has the flag [i] and neither [g] nor
    [u]: [test] asks whether it matches somewhere in the text, letters of
    the pattern match in both cases, and [[a-z]] holds the ASCII letters. *)
Module CandidateFilter.
Import Js EdgeFunction.

(** The classes of units of the expression. *)
Inductive Class :=
| Digit
| Space
| Letter
| Cased (lower : N)
| Unit (c : N).

(** [Digit]: [\d]; [Space]: [\s]; [Letter]: [[a-z]] under the flag [i];
    [Cased l]: the letter [l] of the pattern, given in lower case, under
    the flag [i]; [Unit c]: the unit [c], which is no letter. *)
Definition holds (k : Class) (c : N) : bool :=
  match k with
  | Digit => isDigit c
  | Space => isSpace c
  | Letter => isLetter c
  | Cased lower => (c =? lower)%N || (c =? lower - 32)%N
  | Unit u => (c =? u)%N
  end.

(** The expressions: [\b]; between [least] and [most] units of a class
    ([most] is [None] for [*] and [+]); a sequence; an alternative; an
    optional part. *)
Inductive Pattern :=
| Boundary
| Chars (k : Class) (least : nat) (most : option nat)
| Seq (a b : Pattern)
| Alt (a b : Pattern)
| Opt (a : Pattern).

(** A position in the text: the unit before it, if any, and the units from
    it on. *)
Definition Position : Type := option N * jsstring.

(** [\w] *)
Definition isWord (c : N) : bool := isLetter c || isDigit c || (c =? 95)%N.

Definition wordAt (c : option N) : bool :=
  match c with
  | Some c => isWord c
  | None => false
  end.

(** [\b] holds where exactly one of the two neighbours is a word unit. *)
Definition atBoundary (p : Position) : bool :=
  xorb (wordAt (fst p)) (wordAt (hd_error (snd p))).

Definition allows (most : option nat) : bool :=
  match most with
  | Some 0 => false
  | _ => true
  end.

(** The positions after a run of [least] to [most] units of the class. *)
Fixpoint counts (k : Class) (least : nat) (most : option nat)
    (before : option N) (rest : jsstring) : list Position :=
  (match least with
   | 0 => [(before, rest)]
   | S _ => []
   end)
  ++ match rest with
     | c :: t =>
         if holds k c && allows most
         then counts k (pred least) (option_map pred most) (Some c) t
         else []
     | [] => []
     end.

(** The positions at which a match that starts at [p] can end. *)
Fixpoint matchFrom (r : Pattern) (p : Position) : list Position :=
  match r with
  | Boundary => if atBoundary p then [p] else []
  | Chars k least most => counts k least most (fst p) (snd p)
  | Seq a b => flat_map (matchFrom b) (matchFrom a p)
  | Alt a b => matchFrom a p ++ matchFrom b p
  | Opt a => matchFrom a p ++ [p]
  end.

Definition matches (r : Pattern) (p : Position) : bool :=
  match matchFrom r p with
  | [] => false
  | _ => true
  end.

(** A match that starts at this position or at a later one. *)
Fixpoint search (r : Pattern) (before : option N) (s : jsstring) : bool :=
  matches r (before, s)
  || match s with
     | [] => false
     | c :: t => search r (Some c) t
     end.

(** [r.test(s)] *)
Definition test (r : Pattern) (s : jsstring) : bool := search r None s.

Definition one (k : Class) : Pattern := Chars k 1 (Some 1).

(** The letters of a word of the pattern, given in lower case. *)
Fixpoint cased (c : N) (more : jsstring) : Pattern :=
  match more with
  | [] => one (Cased c)
  | d :: more' => Seq (one (Cased c)) (cased d more')
  end.

Definition word (w : String.string) : Pattern :=
  match units w with
  | [] => Opt Boundary
  | c :: more => cased c more
  end.

(** [(?:Jan|Feb|Mar|Apr|May|Jun|Jul|Aug|Sep|Sept|Oct|Nov|Dec)[a-z]*] *)
Definition monthName : Pattern :=
  Seq (Alt (word "jan") (Alt (word "feb") (Alt (word "mar") (Alt (word "apr")
      (Alt (word "may") (Alt (word "jun") (Alt (word "jul") (Alt (word "aug")
      (Alt (word "sep") (Alt (word "sept") (Alt (word "oct") (Alt (word "nov")
      (word "dec")))))))))))))
      (Chars Letter 0 None).

Definition HYPHEN : N := 45.
Definition SOLIDUS : N := 47.

Definition digitsBetween (least most : nat) : Pattern :=
  Chars Digit least (Some most).

Definition spaces : Pattern := Chars Space 1 None.

(** [\b MONTH[a-z]*\s+\d{1,2},?\s+\d{2,4}] *)
Definition monthDayYear : Pattern :=
  Seq Boundary (Seq monthName (Seq spaces (Seq (digitsBetween 1 2)
    (Seq (Chars (Unit Weekdays.COMMA) 0 (Some 1)) (Seq spaces (digitsBetween 2 4)))))).

(** [\b\d{1,2}\/\d{1,2}(?:\/\d{2,4})?] *)
Definition slashed : Pattern :=
  Seq Boundary (Seq (digitsBetween 1 2) (Seq (one (Unit SOLIDUS))
    (Seq (digitsBetween 1 2)
         (Opt (Seq (one (Unit SOLIDUS)) (digitsBetween 2 4)))))).

(** [\b\d{4}-\d{2}-\d{2}\b] *)
Definition isoDate : Pattern :=
  Seq Boundary (Seq (digitsBetween 4 4) (Seq (one (Unit HYPHEN))
    (Seq (digitsBetween 2 2) (Seq (one (Unit HYPHEN))
      (Seq (digitsBetween 2 2) Boundary))))).

(** [\b MONTH[a-z]*\s+\d{1,2}\b] *)
Definition monthDay : Pattern :=
  Seq Boundary (Seq monthName (Seq spaces (Seq (digitsBetween 1 2) Boundary))).

(** [\b\d{1,2}\s+MONTH[a-z]*\b] *)
Definition dayMonth : Pattern :=
  Seq Boundary (Seq (digitsBetween 1 2) (Seq spaces (Seq monthName Boundary))).

Definition dateRegex : Pattern :=
  Alt monthDayYear (Alt slashed (Alt isoDate (Alt monthDay dayMonth))).

(** [lines.filter(l => dateRegex.test(l.text))] *)
Definition candidateLines (lines : list LineContext) : list LineContext :=
  filter (fun l => test dateRegex (text l)) lines.

End CandidateFilter.

Module Candidates.
Import Js EdgeFunction CandidateFilter.

(** An expression that cannot match without a digit. *)
Fixpoint needsDigit (r : Pattern) : bool :=
  match r with
  | Boundary => false
  | Chars Digit (S _) _ => true
  | Chars _ _ _ => false
  | Seq a b => needsDigit a || needsDigit b
  | Alt a b => needsDigit a && needsDigit b
  | Opt _ => false
  end.

(** A class that does not tell the two cases of an ASCII letter apart. *)
Definition caseless (k : Class) : bool :=
  match k with
  | Cased lower => isLower lower
  | Unit c => negb (isLetter c)
  | _ => true
  end.

Fixpoint ignoresCase (r : Pattern) : bool :=
  match r with
  | Boundary => true
  | Chars k _ _ => caseless k
  | Seq a b | Alt a b => ignoresCase a && ignoresCase b
  | Opt a => ignoresCase a
  end.

(** The unit before the position that follows [pre]. *)
Definition unitBefore (before : option N) (pre : jsstring) : option N :=
  match rev pre with
  | [] => before
  | c :: _ => Some c
  end.

(** A unit with its ASCII letter in lower case, as [toLowerCase] maps
    it. *)
Definition lowerUnit (c : N) : N := if isUpper c then (c + 32)%N else c.

Definition lowerPosition (p : Position) : Position :=
  (option_map lowerUnit (fst p), map lowerUnit (snd p)).

End Candidates.
Import Js EdgeFunction Shape Observe.

(* ================================================================== *)
(** * The text normaliser *)
(* ================================================================== *)

Example clean_glued :
  cleanOCRText (units "Nov14Meeting  at 3pm") = units "Nov 14 Meeting at 3 pm".
Proof. vm_compute. reflexivity. Qed.

Example split_plain :
  splitDocumentIntoLines (units "a

b") = [mkLine 1 (units "a"); mkLine 3 (units "b")].
Proof. vm_compute. reflexivity. Qed.

Example newDate_2025_11_03 :
  newDate (units "2025-11-03") = Some 1762128000000%Z.
Proof. vm_compute. reflexivity. Qed.

Example toISODate_2025_11_03 :
  toISODate 1762128000000 = units "2025-11-03".
Proof. vm_compute. reflexivity. Qed.

Example monday_2025_11_03 : getDay UTC 1762128000000 = 1%Z.
Proof. vm_compute. reflexivity. Qed.

Section CharacterClasses.

Lemma inRange_spec lo hi c :
  inRange lo hi c = true <-> (lo <= c /\ c <= hi)%N.
Proof.
  unfold inRange. rewrite andb_true_iff, !N.leb_le. reflexivity.
Qed.

Lemma inRange_false lo hi c :
  inRange lo hi c = false <-> (c < lo \/ hi < c)%N.
Proof.
  unfold inRange. rewrite andb_false_iff, !N.leb_gt. reflexivity.
Qed.

End CharacterClasses.

Ltac classes :=
  unfold bothSpace, lowerUpper, digitLetter, letterDigit, isLetter, isLower,
    isUpper, isDigit, isSpace, isControl, isDash, isApostrophe, isDoubleQuote,
    SPACE, LF, CR in *;
  repeat (progress rewrite ?orb_true_iff, ?andb_true_iff, ?orb_false_iff,
            ?andb_false_iff, ?inRange_spec, ?inRange_false, ?N.eqb_eq,
            ?N.eqb_neq in * );
  try lia.

Section ClassFacts.

Lemma space_not_lower c : isSpace c = true -> isLower c = false.
Proof. intros H. classes. Qed.

Lemma space_not_upper c : isSpace c = true -> isUpper c = false.
Proof. intros H. classes. Qed.

Lemma space_not_digit c : isSpace c = true -> isDigit c = false.
Proof. intros H. classes. Qed.

Lemma space_not_letter c : isSpace c = true -> isLetter c = false.
Proof. intros H. classes. Qed.

Lemma upper_not_lower c : isUpper c = true -> isLower c = false.
Proof. intros H. classes. Qed.

Lemma letter_not_digit c : isLetter c = true -> isDigit c = false.
Proof. intros H. classes. Qed.

Lemma digit_not_letter c : isDigit c = true -> isLetter c = false.
Proof. intros H. classes. Qed.

End ClassFacts.

(** ** Unit-wise stages *)

Section UnitWise.

Variable P : N -> Prop.

Lemma removeClass_clears p s :
  Forall (fun c => p c = false) (removeClass p s).
Proof.
  unfold removeClass. apply Forall_forall. intros c Hc.
  apply filter_In in Hc. destruct Hc as [_ Hc].
  now apply negb_true_iff in Hc.
Qed.

Lemma removeClass_fixed p s :
  Forall (fun c => p c = false) s -> removeClass p s = s.
Proof.
  unfold removeClass. induction 1 as [|c t Hc _ IH]; simpl.
  - reflexivity.
  - rewrite Hc. simpl. now rewrite IH.
Qed.

Lemma replaceClass_keeps p r s :
  P r -> Forall P s -> Forall P (replaceClass p r s).
Proof.
  intros Hr. unfold replaceClass. induction 1 as [|c t Hc _ IH]; simpl.
  - constructor.
  - constructor; [destruct (p c); assumption | exact IH].
Qed.

Lemma replaceClass_clears p r s :
  p r = false -> Forall (fun c => p c = false) (replaceClass p r s).
Proof.
  intros Hr. unfold replaceClass. induction s as [|c t IH]; simpl.
  - constructor.
  - constructor; [destruct (p c) eqn:E; assumption | exact IH].
Qed.

Lemma replaceClass_fixed p r s :
  Forall (fun c => p c = true -> c = r) s -> replaceClass p r s = s.
Proof.
  unfold replaceClass. induction 1 as [|c t Hc _ IH]; simpl.
  - reflexivity.
  - rewrite IH. destruct (p c) eqn:E; [rewrite (Hc eq_refl)|]; reflexivity.
Qed.

Lemma collapseFrom_keeps b s :
  P SPACE -> Forall P s -> Forall P (collapseFrom b s).
Proof.
  intros Hsp H. revert b. induction H as [|c t Hc _ IH]; intros b; simpl.
  - constructor.
  - destruct (isSpace c); [destruct b|]; auto.
Qed.

Lemma insertSpaceBetween_keeps p q s :
  P SPACE -> Forall P s -> Forall P (insertSpaceBetween p q s).
Proof.
  intros Hsp H. apply Forall_forall. intros c Hc.
  assert (Hin : In c s \/ c = SPACE).
  { clear H. revert c Hc.
    assert (G : forall n (u : jsstring), List.length u <= n ->
              forall c, In c (insertSpaceBetween p q u) -> In c u \/ c = SPACE).
    { induction n as [|n IH]; intros [|a [|b t]] Hlen c Hc; simpl in *;
        try lia; auto.
      destruct (p a && q b).
      - destruct Hc as [Hc|[Hc|[Hc|Hc]]]; auto.
        destruct (IH t ltac:(lia) c Hc); auto.
      - destruct Hc as [Hc|Hc]; auto.
        destruct (IH (b :: t) ltac:(simpl; lia) c Hc) as [[H1|H1]|H1]; auto. }
    apply (G (List.length s)). lia. }
  destruct Hin as [Hin| ->]; [|exact Hsp].
  rewrite Forall_forall in H. now apply H.
Qed.

Lemma trimStart_keeps s : Forall P s -> Forall P (trimStart s).
Proof.
  induction 1 as [|c t Hc Ht IH]; simpl.
  - constructor.
  - destruct (isSpace c); [exact IH | now constructor].
Qed.

Lemma trimEnd_keeps s : Forall P s -> Forall P (trimEnd s).
Proof.
  induction 1 as [|c t Hc Ht IH]; simpl.
  - constructor.
  - destruct (trimEnd t) as [|x r].
    + destruct (isSpace c); auto.
    + now constructor.
Qed.

Lemma trim_keeps s : Forall P s -> Forall P (trim s).
Proof. intros H. unfold trim. now apply trimEnd_keeps, trimStart_keeps. Qed.

End UnitWise.

(** ** Neighbouring units *)

Section Neighbours.

(** The induction that follows the scan of [insertSpaceBetween]: after a
    match it resumes two units further, otherwise one. *)
Lemma scan_ind (Q : jsstring -> Prop) :
  Q [] ->
  (forall a, Q [a]) ->
  (forall a b t, Q t -> Q (b :: t) -> Q (a :: b :: t)) ->
  forall s, Q s.
Proof.
  intros Q0 Q1 Q2 s.
  enough (H : Q s /\ forall a, Q (a :: s)) by apply H.
  induction s as [|b t [IHt IHbt]]; split; auto.
Qed.

Variable R : N -> N -> bool.

Lemma noAdjacent_cons a s :
  noAdjacent R (a :: s) <->
  (forall b, hd_error s = Some b -> R a b = false) /\ noAdjacent R s.
Proof.
  destruct s as [|b t]; simpl.
  - split; [intros _; split; [discriminate | exact I] | trivial].
  - split.
    + intros [H1 H2]. split; [|exact H2]. intros b' E. now inversion E; subst.
    + intros [H1 H2]. split; [now apply H1 | exact H2].
Qed.

Lemma noAdjacent_tail a s : noAdjacent R (a :: s) -> noAdjacent R s.
Proof. intros H. now apply noAdjacent_cons in H. Qed.

Lemma insertSpaceBetween_step p q a b t :
  insertSpaceBetween p q (a :: b :: t) =
  if p a && q b
  then a :: SPACE :: b :: insertSpaceBetween p q t
  else a :: insertSpaceBetween p q (b :: t).
Proof. reflexivity. Qed.

Lemma insertSpaceBetween_head p q s :
  hd_error (insertSpaceBetween p q s) = hd_error s.
Proof.
  destruct s as [|a [|b t]]; simpl; try reflexivity.
  now destruct (p a && q b).
Qed.

Lemma insertSpaceBetween_fixed p q s :
  noAdjacent (fun a b => p a && q b) s -> insertSpaceBetween p q s = s.
Proof.
  induction s as [|a t IH]; [reflexivity|].
  destruct t as [|b t']; [reflexivity|].
  intros [Hab Ht]. rewrite insertSpaceBetween_step, Hab.
  now rewrite (IH Ht).
Qed.

Lemma insertSpaceBetween_keeps_apart p q s :
  (forall a, p a = true -> R a SPACE = false) ->
  (forall b, q b = true -> R SPACE b = false) ->
  noAdjacent R s -> noAdjacent R (insertSpaceBetween p q s).
Proof.
  intros Hp Hq. induction s as [|a|a b t IHt IHbt] using scan_ind.
  - trivial.
  - trivial.
  - intros H. pose proof (noAdjacent_tail _ _ H) as Hbt.
    pose proof (noAdjacent_tail _ _ Hbt) as Ht.
    rewrite insertSpaceBetween_step. destruct (p a && q b) eqn:E.
    + apply andb_true_iff in E. destruct E as [Ea Eb].
      apply noAdjacent_cons. split; [intros c [= <-]; now apply Hp|].
      apply noAdjacent_cons. split; [intros c [= <-]; now apply Hq|].
      apply noAdjacent_cons. split; [|now apply IHt].
      intros c Hc. rewrite insertSpaceBetween_head in Hc.
      apply noAdjacent_cons in Hbt. now apply Hbt.
    + apply noAdjacent_cons. split; [|now apply IHbt].
      intros c Hc. rewrite insertSpaceBetween_head in Hc.
      apply noAdjacent_cons in H. now apply H.
Qed.

Lemma trimStart_keeps_apart s :
  noAdjacent R s -> noAdjacent R (trimStart s).
Proof.
  induction s as [|c t IH]; [trivial|].
  intros H. cbn [trimStart]. destruct (isSpace c); [|exact H].
  apply IH. exact (noAdjacent_tail _ _ H).
Qed.

Lemma trimEnd_head s x r : trimEnd s = x :: r -> hd_error s = Some x.
Proof.
  destruct s as [|c t]; simpl; [discriminate|].
  destruct (trimEnd t).
  - destruct (isSpace c); [discriminate|]. now intros [= ->].
  - now intros [= ->].
Qed.

Lemma trimEnd_keeps_apart s :
  noAdjacent R s -> noAdjacent R (trimEnd s).
Proof.
  induction s as [|c t IH]; [trivial|].
  intros H. cbn [trimEnd]. destruct (trimEnd t) as [|x r] eqn:E.
  - destruct (isSpace c); exact I.
  - apply noAdjacent_cons. split.
    + intros b [= <-]. apply noAdjacent_cons in H. apply H.
      exact (trimEnd_head _ _ _ E).
    + apply IH. exact (noAdjacent_tail _ _ H).
Qed.

Lemma trim_keeps_apart s : noAdjacent R s -> noAdjacent R (trim s).
Proof.
  intros H. unfold trim. now apply trimEnd_keeps_apart, trimStart_keeps_apart.
Qed.

End Neighbours.

Section Separation.

Lemma insertSpaceBetween_separates p q s :
  (forall c, q c = true -> p c = false) ->
  p SPACE = false -> q SPACE = false ->
  noAdjacent (fun a b => p a && q b) (insertSpaceBetween p q s).
Proof.
  intros Hpq Hp Hq. induction s as [|a|a b t IHt IHbt] using scan_ind.
  - exact I.
  - exact I.
  - rewrite insertSpaceBetween_step. destruct (p a && q b) eqn:E.
    + apply andb_true_iff in E. destruct E as [Ea Eb].
      apply noAdjacent_cons. split.
      { intros c [= <-]. now rewrite Hq, andb_false_r. }
      apply noAdjacent_cons. split.
      { intros c _. now rewrite Hp. }
      apply noAdjacent_cons. split; [|exact IHt].
      intros c _. now rewrite (Hpq b Eb).
    + apply noAdjacent_cons. split; [|exact IHbt].
      intros c Hc. rewrite insertSpaceBetween_head in Hc.
      now inversion Hc; subst.
Qed.

End Separation.

(** ** Runs of white space *)

Section Runs.

Lemma collapseFrom_plain b s :
  Forall (fun c => isSpace c = true -> c = SPACE) (collapseFrom b s).
Proof.
  revert b. induction s as [|c t IH]; intros b; simpl.
  - constructor.
  - destruct (isSpace c) eqn:E; [destruct b|]; auto.
    constructor; [congruence | apply IH].
Qed.

Lemma collapseFrom_true_head s :
  startsWith isSpace (collapseFrom true s) = false.
Proof.
  induction s as [|c t IH]; simpl; [reflexivity|].
  destruct (isSpace c) eqn:E; [exact IH | exact E].
Qed.

Lemma collapseFrom_runs b s : noAdjacent bothSpace (collapseFrom b s).
Proof.
  revert b. induction s as [|c t IH]; intros b; simpl; [exact I|].
  destruct (isSpace c) eqn:E.
  - destruct b; [apply IH|].
    apply noAdjacent_cons. split; [|apply IH].
    intros x Hx. pose proof (collapseFrom_true_head t) as Hh.
    destruct (collapseFrom true t); [discriminate|].
    simpl in Hx, Hh. inversion Hx; subst.
    unfold bothSpace. now rewrite Hh, andb_false_r.
  - apply noAdjacent_cons. split; [|apply IH].
    intros x _. unfold bothSpace. now rewrite E.
Qed.

Lemma collapseFrom_fixed b s :
  (b = true -> startsWith isSpace s = false) ->
  Forall (fun c => isSpace c = true -> c = SPACE) s ->
  noAdjacent bothSpace s ->
  collapseFrom b s = s.
Proof.
  revert b. induction s as [|c t IH]; intros b Hb Hplain Hruns;
    [reflexivity|].
  inversion Hplain as [|? ? Hc Ht]; subst.
  pose proof (noAdjacent_tail _ _ _ Hruns) as Hruns'.
  cbn [collapseFrom]. destruct (isSpace c) eqn:E.
  - destruct b; [specialize (Hb eq_refl); simpl in Hb; congruence|].
    rewrite (Hc eq_refl). f_equal. apply IH; auto.
    intros _. destruct t as [|x t']; [reflexivity|].
    destruct Hruns as [Hcx _]. unfold bothSpace in Hcx.
    rewrite E in Hcx. exact Hcx.
  - f_equal. apply IH; auto. discriminate.
Qed.

End Runs.

(** ** Trimming *)

Section Trimming.

Lemma trimStart_head s : startsWith isSpace (trimStart s) = false.
Proof.
  induction s as [|c t IH]; simpl; [reflexivity|].
  destruct (isSpace c) eqn:E; [exact IH | exact E].
Qed.

Lemma trimStart_fixed s : startsWith isSpace s = false -> trimStart s = s.
Proof.
  destruct s as [|c t]; simpl; [reflexivity|]. now intros ->.
Qed.

Lemma trimEnd_idempotent s : trimEnd (trimEnd s) = trimEnd s.
Proof.
  induction s as [|c t IH]; [reflexivity|].
  cbn [trimEnd]. destruct (trimEnd t) as [|x r] eqn:E.
  - destruct (isSpace c) eqn:Ec; simpl; [reflexivity|]. now rewrite Ec.
  - cbn [trimEnd]. cbn [trimEnd] in IH. rewrite IH. reflexivity.
Qed.

Lemma trim_head s : startsWith isSpace (trim s) = false.
Proof.
  unfold trim. pose proof (trimStart_head s) as H.
  destruct (trimEnd (trimStart s)) as [|x r] eqn:E; [reflexivity|].
  apply trimEnd_head in E. destruct (trimStart s); [discriminate|].
  simpl in E, H. inversion E; subst. exact H.
Qed.

Lemma trim_idempotent s : trim (trim s) = trim s.
Proof.
  unfold trim at 1. rewrite (trimStart_fixed _ (trim_head s)).
  unfold trim. apply trimEnd_idempotent.
Qed.

End Trimming.

(** ** The chain of replacements *)

Section Chain.

Lemma replaceChain_Normal x : Normal (replaceChain x).
Proof.
  unfold replaceChain. constructor.
  - do 3 (apply insertSpaceBetween_keeps; [reflexivity|]).
    apply collapseFrom_keeps; [reflexivity|].
    do 3 (apply replaceClass_keeps; [reflexivity|]).
    apply removeClass_clears.
  - do 3 (apply insertSpaceBetween_keeps; [reflexivity|]).
    apply collapseFrom_keeps; [reflexivity|].
    apply replaceClass_clears. reflexivity.
  - do 3 (apply insertSpaceBetween_keeps; [reflexivity|]).
    apply collapseFrom_plain.
  - apply insertSpaceBetween_keeps_apart.
    { intros a Ha. unfold bothSpace.
      destruct (isSpace a) eqn:E; [|reflexivity].
      apply space_not_letter in E. congruence. }
    { intros b Hb. unfold bothSpace.
      destruct (isSpace b) eqn:E; [|apply andb_false_r].
      apply space_not_digit in E. congruence. }
    apply insertSpaceBetween_keeps_apart.
    { intros a Ha. unfold bothSpace.
      destruct (isSpace a) eqn:E; [|reflexivity].
      apply space_not_digit in E. congruence. }
    { intros b Hb. unfold bothSpace.
      destruct (isSpace b) eqn:E; [|apply andb_false_r].
      apply space_not_letter in E. congruence. }
    apply insertSpaceBetween_keeps_apart.
    { intros a Ha. unfold bothSpace.
      destruct (isSpace a) eqn:E; [|reflexivity].
      apply space_not_lower in E. congruence. }
    { intros b Hb. unfold bothSpace.
      destruct (isSpace b) eqn:E; [|apply andb_false_r].
      apply space_not_upper in E. congruence. }
    apply collapseFrom_runs.
  - do 2 (apply insertSpaceBetween_keeps_apart;
          [ intros a _; unfold lowerUpper; apply andb_false_r
          | intros b _; reflexivity | ]).
    apply insertSpaceBetween_separates;
      [exact upper_not_lower | reflexivity | reflexivity].
  - apply insertSpaceBetween_keeps_apart;
      [ intros a _; unfold digitLetter; apply andb_false_r
      | intros b _; reflexivity | ].
    apply (insertSpaceBetween_separates isDigit isLetter);
      [exact letter_not_digit | reflexivity | reflexivity].
  - apply (insertSpaceBetween_separates isLetter isDigit);
      [exact digit_not_letter | reflexivity | reflexivity].
Qed.

Lemma trim_Normal s : Normal s -> Normal (trim s).
Proof.
  intros [H1 H2 H3 H4 H5 H6 H7].
  constructor; auto using trim_keeps, trim_keeps_apart.
Qed.

Lemma Normal_fixed s : Normal s -> replaceChain s = s.
Proof.
  intros [H1 H2 H3 H4 H5 H6 H7]. unfold replaceChain.
  rewrite (removeClass_fixed _ _ H1).
  rewrite (replaceClass_fixed isApostrophe 39 s).
  2:{ apply Forall_forall. intros c _ Hc. classes. }
  rewrite (replaceClass_fixed isDoubleQuote 34 s).
  2:{ apply Forall_forall. intros c _ Hc. classes. }
  rewrite (replaceClass_fixed isDash 45 s).
  2:{ apply Forall_forall. intros c Hc E. rewrite Forall_forall in H2.
      rewrite (H2 c Hc) in E. discriminate. }
  unfold collapseSpaces.
  rewrite (collapseFrom_fixed false s); auto; [|discriminate].
  rewrite (insertSpaceBetween_fixed isLower isUpper s H5).
  rewrite (insertSpaceBetween_fixed isDigit isLetter s H6).
  exact (insertSpaceBetween_fixed isLetter isDigit s H7).
Qed.

Lemma Normal_no_LF s : Normal s -> Forall (fun c => (c =? LF)%N = false) s.
Proof.
  intros H. apply Forall_forall. intros c Hc.
  pose proof (normal_plain _ H) as Hp. rewrite Forall_forall in Hp.
  specialize (Hp c Hc). apply N.eqb_neq. intros ->.
  specialize (Hp eq_refl). discriminate.
Qed.

Lemma split_without_separator sep s :
  Forall (fun c => (c =? sep)%N = false) s -> split sep s = [s].
Proof.
  induction 1 as [|c t Hc _ IH]; simpl; [reflexivity|].
  now rewrite Hc, IH.
Qed.

Lemma trimLines_single s :
  Forall (fun c => (c =? LF)%N = false) s -> trimLines s = trim s.
Proof.
  intros H. unfold trimLines. rewrite (split_without_separator _ _ H).
  simpl. now destruct (trim s).
Qed.

Lemma cleanOCRText_trim x : cleanOCRText x = trim (replaceChain x).
Proof.
  unfold cleanOCRText. apply trimLines_single, Normal_no_LF, replaceChain_Normal.
Qed.

Lemma cleanOCRText_Normal x : Normal (cleanOCRText x).
Proof. rewrite cleanOCRText_trim. apply trim_Normal, replaceChain_Normal. Qed.

End Chain.

(** C8. The normaliser is idempotent: cleaning a text that [cleanOCRText]
    returned gives that text back, for every input string. *)
Theorem cleanOCRText_idempotent (x : jsstring) :
  cleanOCRText (cleanOCRText x) = cleanOCRText x.
Proof.
  pose proof (cleanOCRText_Normal x) as Hn.
  rewrite (cleanOCRText_trim (cleanOCRText x)).
  rewrite (Normal_fixed _ Hn).
  rewrite cleanOCRText_trim. apply trim_idempotent.
Qed.

(** ** Lines of the cleaned text *)

(** A cleaned text holds no line feed: the line splitter sees one line. *)
Lemma cleaned_text_is_one_line x :
  splitLines (cleanOCRText x) = [cleanOCRText x].
Proof.
  unfold splitLines.
  rewrite (split_without_separator _ _ (Normal_no_LF _ (cleanOCRText_Normal x))).
  reflexivity.
Qed.

Lemma cleaned_text_at_most_one_record x :
  List.length (splitDocumentIntoLines (cleanOCRText x)) <= 1.
Proof.
  unfold splitDocumentIntoLines. rewrite cleaned_text_is_one_line. simpl.
  destruct (nonEmpty (trim (cleanOCRText x))); simpl; lia.
Qed.

(** C7. Normalisation followed by line splitting does not give one record
    per non-blank line: the input of two lines ["a\nb"] has two non-blank
    lines, and the cleaned text yields the single record [{1, "a b"}],
    because [\s+] also replaces the line feed; no input yields more than one
    record. *)
Theorem lines_lost_by_cleaning :
  let input := units "a" ++ [LF] ++ units "b" in
  List.length (filter nonEmpty (map trim (splitLines input))) = 2
  /\ splitDocumentIntoLines input = [mkLine 1 (units "a"); mkLine 2 (units "b")]
  /\ splitDocumentIntoLines (cleanOCRText input) = [mkLine 1 (units "a b")]
  /\ forall x, List.length (splitDocumentIntoLines (cleanOCRText x)) <= 1.
Proof.
  repeat split; try (vm_compute; reflexivity).
  apply cleaned_text_at_most_one_record.
Qed.

(* ================================================================== *)
(** * The retry loop of the extraction client *)
(* ================================================================== *)

Section Retry.

Variable lines : list LineContext.

Example retry_server_errors_then_ok :
  fetchWithRetry lines 3
    (fresh [respond 500 NoContent; respond 503 NoContent; respond 200 NoContent] [])
  = (Returned (mkResponse 200 [] NoContent),
     mkWorld [] [] []
       [Fetched lines; Slept 500; Fetched lines; Slept 1000; Fetched lines]).
Proof. reflexivity. Qed.

Example retry_exhausted :
  fetchWithRetry lines 3
    (fresh [respond 500 NoContent; Rejects []; respond 502 NoContent] [])
  = (Thrown (HttpError 502 []),
     mkWorld [] [] []
       [Fetched lines; Slept 500; Fetched lines; Slept 1000; Fetched lines]).
Proof. reflexivity. Qed.

(** One iteration that is not the last never leaves the loop by an
    exception: whatever the [try] block throws, the status of a client
    error included, the [catch] block swallows. *)
Lemma attempt_before_last retries attempt w :
  attempt <> retries - 1 ->
  exists o w1,
    tryCatch (attemptBody lines retries attempt)
             (attemptCatch retries attempt) w = (Returned o, w1)
    /\ trace w1 = trace w ++ [Fetched lines]
    /\ network w1 = tl (network w)
    /\ match o with
       | Done r => hd_error (network w) = Some (Responds r) /\ ok r = true
       | Next => True
       end.
Proof.
  intros Hlast. apply Nat.eqb_neq in Hlast.
  unfold tryCatch, attemptBody, attemptCatch, bind, fetch, ret, throw.
  destruct w as [net ins rows tr]. cbn [network record trace inserts extracted_events].
  rewrite Hlast.
  destruct net as [|[reason|r] net]; cbn.
  - eexists Next, _. repeat split.
  - eexists Next, _. repeat split.
  - destruct (ok r) eqn:Eok; cbn.
    + eexists (Done r), _. repeat split. exact Eok.
    + destruct ((400 <=? status r)%Z && (status r <? 500)%Z); cbn.
      * eexists Next, _. repeat split.
      * eexists Next, _. repeat split.
Qed.

(** The last iteration returns the response or throws. *)
Lemma attempt_last retries attempt w :
  attempt = retries - 1 ->
  exists res w1,
    tryCatch (attemptBody lines retries attempt)
             (attemptCatch retries attempt) w = (res, w1)
    /\ trace w1 = trace w ++ [Fetched lines]
    /\ match res with
       | Returned (Done r) => ok r = true
       | Returned Next => False
       | Thrown _ => True
       end.
Proof.
  intros Hlast. apply Nat.eqb_eq in Hlast.
  unfold tryCatch, attemptBody, attemptCatch, bind, fetch, ret, throw.
  destruct w as [net ins rows tr]. cbn [network record trace inserts extracted_events].
  rewrite Hlast.
  destruct net as [|[reason|r] net]; cbn.
  - eexists (Thrown _), _. repeat split.
  - eexists (Thrown _), _. repeat split.
  - destruct (ok r) eqn:Eok; cbn.
    + eexists (Returned (Done r)), _. repeat split. exact Eok.
    + destruct ((400 <=? status r)%Z && (status r <? 500)%Z); cbn;
        eexists (Thrown _), _; repeat split.
Qed.

(** With the three attempts of the source, a call sends one, two or three
    requests and sleeps [500] then [1000] between them: the third delay of
    the table is never used. *)
Lemma fetchWithRetry_budget w :
  exists res w1 added,
    fetchWithRetry lines 3 w = (res, w1)
    /\ trace w1 = trace w ++ added
    /\ (added = [Fetched lines]
        \/ added = [Fetched lines; Slept 500%Z; Fetched lines]
        \/ added = [Fetched lines; Slept 500%Z; Fetched lines;
                    Slept 1000%Z; Fetched lines]).
Proof.
  unfold fetchWithRetry. cbn [attemptLoop]. unfold bind at 1.
  destruct (attempt_before_last 3 0 w ltac:(simpl; lia)) as (o1 & w1 & E1 & T1 & _ & _).
  rewrite E1. destruct o1 as [r1|].
  { eexists _, _, _. split; [reflexivity|]. split; [exact T1|]. auto. }
  cbn [Nat.ltb Nat.leb Nat.sub nth delays]. unfold bind at 1, sleep at 1.
  unfold bind at 1.
  destruct (attempt_before_last 3 1 (record (Slept 500) w1) ltac:(simpl; lia))
    as (o2 & w2 & E2 & T2 & _ & _).
  rewrite E2. destruct o2 as [r2|].
  { eexists _, _, _. split; [reflexivity|]. split.
    - rewrite T2. cbn [record trace]. rewrite T1, <- !app_assoc. reflexivity.
    - auto. }
  cbn [Nat.ltb Nat.leb Nat.sub nth delays]. unfold bind at 1, sleep at 1.
  unfold bind at 1.
  destruct (attempt_last 3 2 (record (Slept 1000) w2) eq_refl)
    as (res & w3 & E3 & T3 & H3).
  rewrite E3.
  assert (T : trace w3 =
              trace w ++ [Fetched lines; Slept 500%Z; Fetched lines;
                          Slept 1000%Z; Fetched lines]).
  { rewrite T3. cbn [record trace]. rewrite T2. cbn [record trace].
    rewrite T1, <- !app_assoc. reflexivity. }
  destruct res as [[r3|]|e]; [| contradiction |].
  - eexists _, _, _. split; [reflexivity|]. split; [exact T|]. auto.
  - eexists _, _, _. split; [reflexivity|]. split; [exact T|]. auto.
Qed.

Lemma fetchWithRetry_counts w :
  exists added,
    trace (snd (fetchWithRetry lines 3 w)) = trace w ++ added
    /\ 1 <= fetches added <= 3
    /\ (sleeps added = [] \/ sleeps added = [500%Z]
        \/ sleeps added = [500%Z; 1000%Z]).
Proof.
  destruct (fetchWithRetry_budget w) as (res & w1 & added & E & T & H).
  exists added. rewrite E. split; [exact T|].
  destruct H as [ -> | [ -> | -> ] ]; cbn; split; auto; lia.
Qed.

(** Two failures of the server or of the network, then a response that is
    ok: the call returns that response after exactly two delays. *)
Lemma fetchWithRetry_third_time o1 o2 r3 net ins rows tr :
  (forall r, o1 = Responds r -> (500 <= status r)%Z) ->
  (forall r, o2 = Responds r -> (500 <= status r)%Z) ->
  ok r3 = true ->
  fetchWithRetry lines 3 (mkWorld (o1 :: o2 :: Responds r3 :: net) ins rows tr)
  = (Returned r3,
     mkWorld net ins rows
       (((((tr ++ [Fetched lines]) ++ [Slept 500%Z]) ++ [Fetched lines])
          ++ [Slept 1000%Z]) ++ [Fetched lines])).
Proof.
  intros H1 H2 H3.
  assert (F : forall r, (500 <= status r)%Z ->
                ok r = false /\ (400 <=? status r)%Z && (status r <? 500)%Z = false).
  { intros r Hr. unfold ok. split.
    - apply andb_false_iff. right. apply Z.leb_gt. lia.
    - apply andb_false_iff. right. apply Z.ltb_ge. lia. }
  unfold fetchWithRetry, attemptLoop, tryCatch, attemptBody, attemptCatch,
    bind, fetch, sleep, ret, throw, record. cbn.
  destruct o1 as [?|r1]; destruct o2 as [?|r2]; cbn;
    repeat match goal with
           | r : Response |- _ =>
               match goal with
               | H : forall r', Responds r = Responds r' -> _ |- _ =>
                   specialize (H r eq_refl); apply F in H;
                   destruct H as [-> ->]; cbn
               end
           end;
    rewrite ?H3; reflexivity.
Qed.

(** Whatever the status of the 4xx class, the first attempt is followed by
    the delay of 500 ms and a second attempt. *)
Lemma client_error_swallowed r net ins rows tr :
  (400 <= status r < 500)%Z ->
  fetchWithRetry lines 3 (mkWorld (Responds r :: net) ins rows tr)
  = attemptLoop lines 3 2 1
      (mkWorld net ins rows ((tr ++ [Fetched lines]) ++ [Slept 500%Z])).
Proof.
  intros Hr.
  assert (Hok : ok r = false)
    by (unfold ok; apply andb_false_iff; right; apply Z.leb_gt; lia).
  assert (H4 : ((400 <=? status r)%Z && (status r <? 500)%Z) = true)
    by (apply andb_true_iff; split; [apply Z.leb_le | apply Z.ltb_lt]; lia).
  unfold fetchWithRetry. cbn [attemptLoop].
  unfold tryCatch, attemptBody, attemptCatch, bind, fetch, sleep, ret, throw,
    record. cbn. rewrite Hok, H4. reflexivity.
Qed.

End Retry.

(** C1. The client error is not final: the [throw] for a status of the 4xx
    class sits inside the [try] block whose [catch] swallows every error
    before the last attempt.  A 404 on every attempt fails only after three
    requests and the delays 500 and 1000, and a 404 followed by a 200
    succeeds; the comment in the code and the specification say that a 4xx is never
    retried. *)
Theorem client_error_is_retried :
  let lines := [mkLine 1 (units "Nov 14, 2025: Midterm Exam")] in
  fetchWithRetry lines 3
    (fresh [respond 404 NoContent; respond 404 NoContent; respond 404 NoContent] [])
  = (Thrown (HttpError 404 []),
     mkWorld [] [] []
       [Fetched lines; Slept 500; Fetched lines; Slept 1000; Fetched lines])
  /\ fetchWithRetry lines 3
       (fresh [respond 404 NoContent; respond 200 (Events (Some []))] [])
     = (Returned (mkResponse 200 [] (Events (Some []))),
        mkWorld [] [] [] [Fetched lines; Slept 500; Fetched lines]).
Proof. split; reflexivity. Qed.

(* ================================================================== *)
(** * What a call of the extraction client leaves as it is *)
(* ================================================================== *)

Import Frame.

Section CallFrame.

Context {X : Type} (f : World -> X).
Hypothesis f_record : forall e w, f (record e w) = f w.
Hypothesis f_network :
  forall net w, f (mkWorld net (inserts w) (extracted_events w) (trace w)) = f w.

Lemma keeps_ret A (a : A) : keeps f (ret a).
Proof. intros w. reflexivity. Qed.

Lemma keeps_throw A e : keeps f (@throw A e).
Proof. intros w. reflexivity. Qed.

Lemma keeps_bind A B (c : M A) (k : A -> M B) :
  keeps f c -> (forall a, keeps f (k a)) -> keeps f (bind c k).
Proof.
  intros Hc Hk w. unfold bind. specialize (Hc w).
  destruct (c w) as [[a|e] w1]; cbn [snd] in *; [|exact Hc].
  now rewrite Hk.
Qed.

Lemma keeps_tryCatch A (c : M A) (h : Error -> M A) :
  keeps f c -> (forall e, keeps f (h e)) -> keeps f (tryCatch c h).
Proof.
  intros Hc Hh w. unfold tryCatch. specialize (Hc w).
  destruct (c w) as [[a|e] w1]; cbn [snd] in *; [exact Hc|].
  now rewrite Hh.
Qed.

Lemma keeps_fetch lines : keeps f (fetch lines).
Proof.
  intros w. unfold fetch.
  destruct (network (record (Fetched lines) w)) as [|[reason|r] net];
    cbn [snd]; now rewrite ?f_network, f_record.
Qed.

Lemma keeps_sleep ms : keeps f (sleep ms).
Proof. intros w. apply f_record. Qed.

Lemma keeps_attemptLoop lines retries remaining attempt :
  keeps f (attemptLoop lines retries remaining attempt).
Proof.
  revert attempt. induction remaining as [|k IH]; intros attempt;
    cbn [attemptLoop].
  - apply keeps_throw.
  - apply keeps_bind.
    + apply keeps_tryCatch.
      * unfold attemptBody. apply keeps_bind; [apply keeps_fetch|].
        intros r.
        repeat match goal with
               | |- keeps f (if ?b then _ else _) => destruct b
               end; auto using keeps_ret, keeps_throw.
      * intros e. unfold attemptCatch.
        destruct (attempt =? retries - 1); auto using keeps_ret, keeps_throw.
    + intros [r|]; [apply keeps_ret|].
      apply keeps_bind; [|intros _; apply IH].
      destruct (attempt <? retries - 1); auto using keeps_ret, keeps_sleep.
Qed.

Lemma keeps_callOpenAIForLineBatch batch :
  keeps f (callOpenAIForLineBatch batch).
Proof.
  unfold callOpenAIForLineBatch. destruct batch as [|l batch];
    [apply keeps_ret|].
  apply keeps_bind.
  - apply keeps_tryCatch; [apply keeps_attemptLoop|].
    intros e. apply keeps_throw.
  - assert (Hretry : keeps f (retryParse (l :: batch))).
    { unfold retryParse. apply keeps_bind.
      - apply keeps_tryCatch.
        + unfold retryBody. apply keeps_bind; [apply keeps_fetch|].
          intros r'. destruct (ok r'); [|apply keeps_ret].
          destruct (body r'); auto using keeps_ret, keeps_throw.
        + intros e. apply keeps_ret.
      - intros [events|events|]; auto using keeps_ret, keeps_throw. }
    intros r. destruct (body r) as [| | | | |[|]|events];
      auto using keeps_ret, keeps_throw.
Qed.

End CallFrame.

Lemma callOpenAIForLineBatch_keeps_inserts batch :
  keeps inserts (callOpenAIForLineBatch batch).
Proof. apply keeps_callOpenAIForLineBatch; reflexivity. Qed.

Lemma callOpenAIForLineBatch_keeps_rows batch :
  keeps extracted_events (callOpenAIForLineBatch batch).
Proof. apply keeps_callOpenAIForLineBatch; reflexivity. Qed.

(* ================================================================== *)
(** * The extraction driver *)
(* ================================================================== *)

Section Batching.

Variable lines : list LineContext.

Lemma slice_length i :
  i < List.length lines ->
  1 <= List.length (slice i (i + BATCH_SIZE) lines) <= BATCH_SIZE.
Proof.
  intros Hi. unfold slice, BATCH_SIZE.
  rewrite length_firstn, length_skipn. lia.
Qed.

Lemma slice_full i :
  i + BATCH_SIZE < List.length lines ->
  List.length (slice i (i + BATCH_SIZE) lines) = BATCH_SIZE.
Proof.
  intros Hi. unfold slice, BATCH_SIZE in *.
  rewrite length_firstn, length_skipn. lia.
Qed.

Lemma pushBatches_concat fuel i :
  List.length lines - i <= fuel ->
  concat (pushBatches fuel i lines) = skipn i lines.
Proof.
  revert i. induction fuel as [|fuel IH]; intros i Hfuel; cbn [pushBatches].
  - simpl. symmetry. apply skipn_all2. lia.
  - destruct (Nat.ltb_spec i (List.length lines)) as [Hi|Hi].
    + cbn [concat]. rewrite IH by (unfold BATCH_SIZE; lia). unfold slice.
      replace (i + BATCH_SIZE - i) with BATCH_SIZE by lia.
      rewrite Nat.add_comm, <- skipn_skipn. apply firstn_skipn.
    + simpl. symmetry. apply skipn_all2. lia.
Qed.

Lemma pushBatches_sizes fuel i :
  Forall (fun b => 1 <= List.length b <= BATCH_SIZE) (pushBatches fuel i lines).
Proof.
  revert i. induction fuel as [|fuel IH]; intros i; cbn [pushBatches].
  - constructor.
  - destruct (Nat.ltb_spec i (List.length lines)) as [Hi|Hi].
    + constructor; [now apply slice_length | apply IH].
    + constructor.
Qed.

Lemma pushBatches_full fuel i : fullButLast (pushBatches fuel i lines).
Proof.
  revert i. induction fuel as [|fuel IH]; intros i; cbn [pushBatches].
  - exact I.
  - destruct (Nat.ltb_spec i (List.length lines)) as [Hi|Hi]; [|exact I].
    cbn [fullButLast]. specialize (IH (i + BATCH_SIZE)).
    destruct (pushBatches fuel (i + BATCH_SIZE) lines) as [|b rest] eqn:E;
      [exact I|].
    split; [|exact IH]. apply slice_full.
    destruct fuel as [|fuel']; [discriminate|]. cbn [pushBatches] in E.
    destruct (Nat.ltb_spec (i + BATCH_SIZE) (List.length lines));
      [assumption|discriminate].
Qed.

Lemma makeBatches_concat : concat (makeBatches lines) = lines.
Proof. unfold makeBatches. rewrite pushBatches_concat by lia. reflexivity. Qed.

End Batching.

Section TableUntouched.

Lemma keepsTable_ret A (a : A) : keepsTable (ret a).
Proof. intros w. reflexivity. Qed.

Lemma keepsTable_throw A e : keepsTable (@throw A e).
Proof. intros w. reflexivity. Qed.

Lemma keepsTable_bind A B (c : M A) (k : A -> M B) :
  keepsTable c -> (forall a, keepsTable (k a)) -> keepsTable (bind c k).
Proof.
  intros Hc Hk w. unfold bind. specialize (Hc w).
  destruct (c w) as [[a|e] w1]; simpl in *; [|exact Hc].
  now rewrite Hk.
Qed.

Lemma keepsTable_tryCatch A (c : M A) (h : Error -> M A) :
  keepsTable c -> (forall e, keepsTable (h e)) -> keepsTable (tryCatch c h).
Proof.
  intros Hc Hh w. unfold tryCatch. specialize (Hc w).
  destruct (c w) as [[a|e] w1]; simpl in *; [exact Hc|].
  now rewrite Hh.
Qed.

Lemma keepsTable_fetch lines : keepsTable (fetch lines).
Proof.
  intros [net ins rows tr]. unfold fetch. simpl.
  destruct net as [|[reason|r] net]; reflexivity.
Qed.

Lemma keepsTable_sleep ms : keepsTable (sleep ms).
Proof. intros w. reflexivity. Qed.

Lemma keepsTable_if A (b : bool) (c1 c2 : M A) :
  keepsTable c1 -> keepsTable c2 -> keepsTable (if b then c1 else c2).
Proof. now destruct b. Qed.

Create HintDb untouched.
#[local] Hint Resolve keepsTable_ret keepsTable_throw keepsTable_fetch
  keepsTable_sleep keepsTable_if : untouched.

Lemma keepsTable_attemptLoop lines retries remaining attempt :
  keepsTable (attemptLoop lines retries remaining attempt).
Proof.
  revert attempt. induction remaining as [|k IH]; intros attempt;
    cbn [attemptLoop].
  - apply keepsTable_throw.
  - apply keepsTable_bind.
    + apply keepsTable_tryCatch.
      * unfold attemptBody. apply keepsTable_bind; [apply keepsTable_fetch|].
        intros r. repeat apply keepsTable_if; auto with untouched.
      * intros e. unfold attemptCatch. auto with untouched.
    + intros [r|]; [apply keepsTable_ret|].
      apply keepsTable_bind; [|intros _; apply IH].
      auto with untouched.
Qed.

Lemma keepsTable_retryParse batch : keepsTable (retryParse batch).
Proof.
  unfold retryParse. apply keepsTable_bind.
  - apply keepsTable_tryCatch.
    + unfold retryBody. apply keepsTable_bind; [apply keepsTable_fetch|].
      intros r'. apply keepsTable_if; [|apply keepsTable_ret].
      destruct (body r'); auto with untouched.
    + intros e. apply keepsTable_ret.
  - intros [events|events|]; auto with untouched.
Qed.

Lemma keepsTable_callOpenAIForLineBatch batch :
  keepsTable (callOpenAIForLineBatch batch).
Proof.
  unfold callOpenAIForLineBatch. destruct batch as [|l batch];
    [apply keepsTable_ret|].
  apply keepsTable_bind.
  - apply keepsTable_tryCatch; [apply keepsTable_attemptLoop|].
    intros e. apply keepsTable_throw.
  - intros r. destruct (body r) as [| | | | |[|]|events];
      auto using keepsTable_retryParse with untouched.
Qed.

End TableUntouched.

Section Driver.

Variables documentId userId : jsstring.

Lemma batch_iteration batch allEvents w :
  tryCatch (batchTry batch documentId userId allEvents)
           (fun _ => ret allEvents) w
  = (Returned (allEvents ++ fst (batchStep batch documentId userId w)),
     snd (batchStep batch documentId userId w)).
Proof.
  unfold tryCatch, batchTry, batchStep, bind.
  destruct (callOpenAIForLineBatch batch w) as [[batchEvents|e] w1].
  - destruct batchEvents as [|ev evs]; cbn [Nat.ltb Nat.leb List.length].
    + reflexivity.
    + unfold persistBatch, insertExtractedEvents, ret.
      destruct (inserts w1) as [|[|] ins]; reflexivity.
  - unfold ret. cbn. now rewrite app_nil_r.
Qed.

Lemma batchLoop_sequentialRun done todo allEvents w :
  batchLoop (done ++ todo) documentId userId (List.length todo)
            (List.length done) allEvents w
  = (Returned (allEvents ++ fst (sequentialRun todo documentId userId w)),
     snd (sequentialRun todo documentId userId w)).
Proof.
  revert done allEvents w.
  induction todo as [|batch rest IH]; intros done allEvents w.
  - cbn. unfold ret. now rewrite app_nil_r.
  - cbn [batchLoop List.length sequentialRun]. unfold bind at 1.
    rewrite nth_middle, batch_iteration. unfold bind at 1.
    destruct (batchStep batch documentId userId w) as [events w1].
    cbn [fst snd].
    assert (E : done ++ batch :: rest = (done ++ [batch]) ++ rest)
      by now rewrite <- app_assoc.
    assert (L : S (List.length done) = List.length (done ++ [batch]))
      by (rewrite length_app; simpl; lia).
    destruct rest as [|next rest'].
    + replace (List.length done <? List.length (done ++ [batch]) - 1) with false
        by (symmetry; apply Nat.ltb_ge; rewrite length_app; simpl; lia).
      unfold ret at 1. cbn. unfold ret. now rewrite !app_nil_r.
    + replace (List.length done <? List.length (done ++ batch :: next :: rest') - 1)
        with true
        by (symmetry; apply Nat.ltb_lt; rewrite length_app; simpl; lia).
      unfold sleep at 1. rewrite E, L, IH.
      destruct (sequentialRun (next :: rest') documentId userId
                  (record (Slept 400) w1)) as [later w3].
      cbn [fst snd]. now rewrite app_assoc.
Qed.

Lemma extractEventsFromLines_sequentialRun lines w :
  extractEventsFromLines lines documentId userId w
  = (Returned (fst (sequentialRun (makeBatches lines) documentId userId w)),
     snd (sequentialRun (makeBatches lines) documentId userId w)).
Proof.
  unfold extractEventsFromLines.
  exact (batchLoop_sequentialRun [] (makeBatches lines) [] w).
Qed.

Lemma persistBatch_grows batchEvents w :
  exists added,
    extracted_events (persistBatch batchEvents documentId userId w)
    = extracted_events w ++ added.
Proof.
  unfold persistBatch. destruct batchEvents as [|ev evs].
  - exists []. now rewrite app_nil_r.
  - unfold insertExtractedEvents.
    destruct (inserts w) as [|[|] ins]; cbn.
    + eexists. reflexivity.
    + eexists. reflexivity.
    + exists []. now rewrite app_nil_r.
Qed.

Lemma batchStep_grows batch w :
  exists added,
    extracted_events (snd (batchStep batch documentId userId w))
    = extracted_events w ++ added.
Proof.
  unfold batchStep.
  pose proof (keepsTable_callOpenAIForLineBatch batch w) as K.
  destruct (callOpenAIForLineBatch batch w) as [[batchEvents|e] w1];
    cbn [snd] in *.
  - destruct (persistBatch_grows batchEvents w1) as [added E].
    exists added. now rewrite E, K.
  - exists []. now rewrite app_nil_r.
Qed.

Lemma sequentialRun_grows batches w :
  exists added,
    extracted_events (snd (sequentialRun batches documentId userId w))
    = extracted_events w ++ added.
Proof.
  revert w. induction batches as [|batch rest IH]; intros w.
  - exists []. cbn. now rewrite app_nil_r.
  - cbn [sequentialRun].
    destruct (batchStep_grows batch w) as [a1 E1].
    destruct (batchStep batch documentId userId w) as [events w1].
    cbn [snd] in E1.
    set (w2 := match rest with [] => w1 | _ :: _ => record (Slept 400) w1 end).
    assert (E2 : extracted_events w2 = extracted_events w1)
      by (subst w2; now destruct rest).
    destruct (IH w2) as [a2 E3].
    destruct (sequentialRun rest documentId userId w2) as [later w3].
    cbn [snd] in *. exists (a1 ++ a2).
    now rewrite E3, E2, E1, app_assoc.
Qed.

End Driver.

Section DriverTrace.

Variables documentId userId : jsstring.

Lemma pauses_app t1 t2 : pauses (t1 ++ t2) = pauses t1 + pauses t2.
Proof.
  induction t1 as [|e t1 IH]; [reflexivity|].
  destruct e; simpl; rewrite IH; lia.
Qed.

Lemma retryParse_trace batch w :
  trace (snd (retryParse batch w)) = trace w ++ [Fetched batch].
Proof.
  unfold retryParse, retryBody, tryCatch, bind, fetch, ret, throw.
  destruct w as [net ins rows tr]. cbn [network record trace inserts extracted_events].
  destruct net as [|[reason|r] net]; cbn; try reflexivity.
  destruct (ok r); [destruct (body r)|]; reflexivity.
Qed.

(** A call for a batch sends the batch at least once and never pauses. *)
Lemma callOpenAIForLineBatch_trace batch w :
  batch <> [] ->
  exists added,
    trace (snd (callOpenAIForLineBatch batch w)) = trace w ++ added
    /\ In (Fetched batch) added /\ pauses added = 0.
Proof.
  intros Hne. unfold callOpenAIForLineBatch.
  destruct batch as [|l batch']; [contradiction|].
  set (batch := l :: batch') in *.
  destruct (fetchWithRetry_budget batch w) as (res & w1 & added & E & T & H).
  assert (Hadded : In (Fetched batch) added /\ pauses added = 0)
    by (destruct H as [ -> | [ -> | -> ] ]; cbn; auto).
  unfold bind, tryCatch. rewrite E. destruct res as [r|e].
  - assert (Hretry : exists added0,
              trace (snd (retryParse batch w1)) = trace w ++ added0
              /\ In (Fetched batch) added0 /\ pauses added0 = 0).
    { exists (added ++ [Fetched batch]).
      rewrite retryParse_trace, T, <- app_assoc. split; [reflexivity|].
      split; [apply in_or_app; tauto|].
      rewrite pauses_app. cbn. lia. }
    destruct (body r) as [| | | | |[|]|events] eqn:Eb;
      try exact Hretry; exists added; cbn; tauto.
  - exists added. cbn. tauto.
Qed.

Lemma persistBatch_trace batchEvents w :
  exists added,
    trace (persistBatch batchEvents documentId userId w) = trace w ++ added
    /\ pauses added = 0.
Proof.
  unfold persistBatch. destruct batchEvents as [|ev evs].
  - exists []. now rewrite app_nil_r.
  - unfold insertExtractedEvents.
    destruct (inserts w) as [|[|] ins]; cbn;
      eexists; (split; [reflexivity|]); reflexivity.
Qed.

Lemma batchStep_trace batch w :
  batch <> [] ->
  exists added,
    trace (snd (batchStep batch documentId userId w)) = trace w ++ added
    /\ In (Fetched batch) added /\ pauses added = 0.
Proof.
  intros Hne. unfold batchStep.
  destruct (callOpenAIForLineBatch_trace batch w Hne) as (a1 & T1 & I1 & P1).
  destruct (callOpenAIForLineBatch batch w) as [[batchEvents|e] w1];
    cbn [snd] in *.
  - destruct (persistBatch_trace batchEvents w1) as (a2 & T2 & P2).
    exists (a1 ++ a2). rewrite T2, T1, <- app_assoc.
    split; [reflexivity|]. split; [apply in_or_app; tauto|].
    rewrite pauses_app. lia.
  - exists a1. tauto.
Qed.

(** Every batch of the run is sent, whatever became of the batches before
    it, and the run pauses once between two batches. *)
Lemma sequentialRun_trace batches w :
  Forall (fun b => b <> []) batches ->
  exists added,
    trace (snd (sequentialRun batches documentId userId w)) = trace w ++ added
    /\ (forall b, In b batches -> In (Fetched b) added)
    /\ pauses added = List.length batches - 1.
Proof.
  intros Hne. revert w. induction Hne as [|batch rest Hb Hrest IH]; intros w.
  - exists []. cbn. rewrite app_nil_r. repeat split. intros b [].
  - cbn [sequentialRun].
    destruct (batchStep_trace batch w Hb) as (a1 & T1 & I1 & P1).
    destruct (batchStep batch documentId userId w) as [events w1].
    cbn [snd] in T1.
    destruct rest as [|next rest'].
    + cbn. exists a1. split; [exact T1|]. split; [|cbn; lia].
      intros b [<-|[]]. exact I1.
    + destruct (IH (record (Slept 400) w1)) as (a2 & T2 & I2 & P2).
      destruct (sequentialRun (next :: rest') documentId userId
                  (record (Slept 400) w1)) as [later w3].
      cbn [snd] in *. exists (a1 ++ Slept 400 :: a2).
      split.
      * rewrite T2. cbn [record trace]. rewrite T1, <- !app_assoc. reflexivity.
      * split.
        -- intros b [<-|Hin].
           ++ apply in_or_app. now left.
           ++ apply in_or_app. right. right. now apply I2.
        -- rewrite pauses_app. cbn [pauses Z.eqb Pos.eqb List.length] in *. lia.
Qed.

Lemma makeBatches_nonempty lines :
  Forall (fun b : list LineContext => b <> []) (makeBatches lines).
Proof.
  eapply Forall_impl; [|apply pushBatches_sizes].
  intros b Hb ->. simpl in Hb. lia.
Qed.

End DriverTrace.

Section Persisted.

Variables documentId userId : jsstring.

Lemma convert_app a b :
  convertLineEventsToExtractedEvents (a ++ b)
  = convertLineEventsToExtractedEvents a ++ convertLineEventsToExtractedEvents b.
Proof. unfold convertLineEventsToExtractedEvents. apply flat_map_app. Qed.

Lemma batchStep_all_accepted batch w :
  Forall (fun accepted => accepted = true) (inserts w) ->
  Forall (fun accepted => accepted = true)
         (inserts (snd (batchStep batch documentId userId w)))
  /\ extracted_events (snd (batchStep batch documentId userId w))
     = extracted_events w
       ++ map (fun event => mkRow event documentId userId)
            (convertLineEventsToExtractedEvents
               (fst (batchStep batch documentId userId w))).
Proof.
  intros Hall. unfold batchStep.
  pose proof (callOpenAIForLineBatch_keeps_rows batch w) as Krows.
  pose proof (callOpenAIForLineBatch_keeps_inserts batch w) as Kins.
  destruct (callOpenAIForLineBatch batch w) as [[batchEvents|e] w1];
    cbn [fst snd] in *.
  - rewrite <- Kins in Hall. unfold persistBatch.
    destruct batchEvents as [|ev evs].
    + split; [exact Hall|]. cbn. now rewrite app_nil_r, Krows.
    + unfold insertExtractedEvents.
      destruct (inserts w1) as [|[|] ins] eqn:Ei; cbn.
      * split; [constructor | now rewrite Krows].
      * split; [now inversion Hall | now rewrite Krows].
      * inversion Hall; discriminate.
  - rewrite <- Kins in Hall. split; [exact Hall|].
    cbn. now rewrite app_nil_r, Krows.
Qed.

Lemma sequentialRun_all_accepted batches w :
  Forall (fun accepted => accepted = true) (inserts w) ->
  extracted_events (snd (sequentialRun batches documentId userId w))
  = extracted_events w
    ++ map (fun event => mkRow event documentId userId)
         (convertLineEventsToExtractedEvents
            (fst (sequentialRun batches documentId userId w))).
Proof.
  revert w. induction batches as [|batch rest IH]; intros w Hall.
  - cbn. now rewrite app_nil_r.
  - cbn [sequentialRun].
    destruct (batchStep_all_accepted batch w Hall) as [Hall1 Hrows1].
    destruct (batchStep batch documentId userId w) as [events w1].
    cbn [fst snd] in *.
    set (w2 := match rest with [] => w1 | _ :: _ => record (Slept 400) w1 end).
    assert (E2 : extracted_events w2 = extracted_events w1
                 /\ inserts w2 = inserts w1)
      by (subst w2; now destruct rest).
    destruct E2 as [Erows Eins].
    specialize (IH w2). rewrite Eins in IH. specialize (IH Hall1).
    destruct (sequentialRun rest documentId userId w2) as [later w3].
    cbn [fst snd] in *.
    rewrite IH, Erows, Hrows1, convert_app, map_app, <- app_assoc.
    reflexivity.
Qed.

End Persisted.


(** An accepted insert appends the converted rows of the batch. *)
Lemma persistBatch_accepted ev evs documentId userId w :
  hd_error (inserts w) <> Some false ->
  extracted_events (persistBatch (ev :: evs) documentId userId w)
  = extracted_events w
    ++ map (fun event => mkRow event documentId userId)
         (convertLineEventsToExtractedEvents (ev :: evs)).
Proof.
  intros H. unfold persistBatch, insertExtractedEvents.
  destruct (inserts w) as [|[|] ins]; try reflexivity.
  now elim H.
Qed.

Example driver_run_with_failed_batch :
  let line n := mkLine n (units "Nov 14, 2025: Exam") in
  let lines := map line (seq 1 12) in
  let found n := LineExtraction.mk n (units "Exam") (units "Nov 14, 2025")
                   (Some (units "2025-11-14")) None None None (Some false) in
  let w := fresh [respond 400 NoContent; respond 400 NoContent; respond 400 NoContent;
                  respond 200 (Events (Some [found 11; found 12]))] [] in
  let '(res, w') := extractEventsFromLines lines (units "doc") (units "user") w in
  res = Returned [found 11; found 12]
  /\ List.length (extracted_events w') = 2
  /\ sleeps (trace w') = [500; 1000; 400]%Z
  /\ fetches (trace w') = 4.
Proof. vm_compute. repeat split. Qed.

(* ================================================================== *)
(** * The event materialiser *)
(* ================================================================== *)

Section Materialiser.

Lemma convert_cons e rest :
  convertLineEventsToExtractedEvents (e :: rest)
  = convertLineEvent e ++ convertLineEventsToExtractedEvents rest.
Proof. reflexivity. Qed.

Lemma convert_single e :
  convertLineEventsToExtractedEvents [e] = convertLineEvent e.
Proof. unfold convertLineEventsToExtractedEvents. simpl. apply app_nil_r. Qed.

Lemma deferred_has_start e :
  isDeferredRange e = true ->
  truthy (LineExtraction.normalized_date e) = true
  /\ truthy (LineExtraction.normalized_end_date e) = true
  /\ truthy (LineExtraction.day_of_week e) = true
  /\ LineExtraction.is_range_with_day e = Some true.
Proof.
  unfold isDeferredRange. rewrite !andb_true_iff.
  intros [[[H1 H2] H3] H4]. repeat split; auto.
  destruct (LineExtraction.is_range_with_day e) as [[|]|]; simpl in H1;
    congruence.
Qed.

Lemma truthy_nonEmpty o s : o = Some s -> truthy o = nonEmpty s.
Proof. now intros ->. Qed.

Lemma optOrElse_truthy o b : truthy o = true -> optOrElse o b = stringOf o.
Proof.
  destruct o as [s|]; simpl; [|discriminate].
  unfold orElse. now intros ->.
Qed.

Lemma optOrElse_falsy o b : truthy o = false -> optOrElse o b = b.
Proof.
  destruct o as [s|]; simpl; [|reflexivity].
  unfold orElse. now intros ->.
Qed.

End Materialiser.



(* ================================================================== *)
(** * Expansion of a date range by weekday *)
(* ================================================================== *)

Import Weekdays DocumentProcessor.

Example parse_irregular_tokens :
  parseDaysOfWeek (units " Tues, THURS ,thur,xyz,") = [2; 4; 4]%Z.
Proof. vm_compute. reflexivity. Qed.

Example parse_unrecognized : parseDaysOfWeek (units "Funday, ") = [].
Proof. vm_compute. reflexivity. Qed.

Example leap_day_walk :
  expandDates UTC (units "2024-02-28") (units "2024-03-01")
    (units "mon,tue,wed,thu,fri,sat,sun")
  = map units ["2024-02-28"; "2024-02-29"; "2024-03-01"]%string.
Proof. vm_compute. reflexivity. Qed.

Example mondays_east_of_utc :
  expandDates eastHost (units "2025-11-03") (units "2025-11-17") (units "Monday")
  = map units ["2025-11-03"; "2025-11-10"; "2025-11-17"]%string.
Proof. vm_compute. reflexivity. Qed.

Example mondays_west_of_utc :
  expandDates westHost (units "2025-11-03") (units "2025-11-17") (units "Monday")
  = map units ["2025-11-04"; "2025-11-11"]%string.
Proof. vm_compute. reflexivity. Qed.

Section Walk.

Variable h : Host.
Variable daysOfWeek : list Z.

Local Open Scope Z_scope.

Lemma setDateNext_adds_a_day t : setDateNext h t = t + msPerDay.
Proof. unfold setDateNext, UTCOf, LocalTime. lia.
Qed.

Lemma daysBetween_after s e : e < s -> daysBetween s e = 0%nat.
Proof.
  intros H. unfold daysBetween.
  assert ((e - s) / msPerDay < 0)
    by (apply Z.div_lt_upper_bound; unfold msPerDay; lia).
  lia.
Qed.

Lemma daysBetween_step s e :
  s <= e -> daysBetween s e = S (daysBetween (s + msPerDay) e).
Proof.
  intros H. unfold daysBetween.
  replace (e - (s + msPerDay)) with ((e - s) + (-1) * msPerDay) by lia.
  rewrite Z.div_add by (unfold msPerDay; lia).
  assert (0 <= (e - s) / msPerDay)
    by (apply Z.div_pos; unfold msPerDay; lia).
  lia.
Qed.

(** The loop leaves by its condition: with the iterations of [daysBetween]
    or more, it visits each day from the start up to the end, the end
    included, in order, and keeps those whose local weekday is listed. *)
Lemma walkDays_filter fuel s e :
  (daysBetween s e <= fuel)%nat ->
  walkDays fuel h daysOfWeek s e
  = filter (fun t => includes daysOfWeek (getDay h t))
           (daysFrom s (daysBetween s e)).
Proof.
  revert s. induction fuel as [|fuel IH]; intros s Hfuel.
  - assert (daysBetween s e = 0%nat) as -> by lia. reflexivity.
  - cbn [walkDays]. destruct (Z.leb_spec s e) as [Hle|Hgt].
    + rewrite (daysBetween_step s e Hle) in *. cbn [daysFrom filter].
      rewrite setDateNext_adds_a_day, IH by lia.
      now destruct (includes daysOfWeek (getDay h s)).
    + now rewrite (daysBetween_after s e Hgt).
Qed.

Lemma daysFrom_In t s n :
  In t (daysFrom s n) <->
  exists k, 0 <= k < Z.of_nat n /\ t = s + k * msPerDay.
Proof.
  revert s. induction n as [|n IH]; intros s; cbn [daysFrom In].
  - split; [tauto | intros (k & Hk & _); lia].
  - rewrite IH. split.
    + intros [<-|(k & Hk & ->)].
      * exists 0. split; lia.
      * exists (k + 1). split; lia.
    + intros (k & Hk & ->). destruct (Z.eq_dec k 0) as [->|Hne].
      * left. lia.
      * right. exists (k - 1). split; lia.
Qed.

End Walk.

Section LocalWeekday.

Local Open Scope Z_scope.

Lemma newDate_midnight str t : newDate str = Some t -> t mod msPerDay = 0.
Proof.
  unfold newDate. intros H.
  repeat match type of H with
         | match ?x with _ => _ end = _ => destruct x; try discriminate
         | (if ?b then _ else _) = _ => destruct b; try discriminate
         end.
  injection H as <-. apply Z.mod_mul. unfold msPerDay. lia.
Qed.

Lemma daysFrom_midnight s n t :
  s mod msPerDay = 0 -> In t (daysFrom s n) -> t mod msPerDay = 0.
Proof.
  intros Hs Ht. apply daysFrom_In in Ht. destruct Ht as (k & _ & ->).
  rewrite Z.mod_add by (unfold msPerDay; lia). exact Hs.
Qed.

(** At midnight UTC the local day of a host at or east of Greenwich is the
    UTC day; the local day of a host west of it is still the day before. *)
Lemma getDay_east h t :
  0 <= utcOffsetMinutes h < 1440 -> t mod msPerDay = 0 ->
  getDay h t = WeekDay t.
Proof.
  intros Hoff Ht. unfold getDay, WeekDay, Day, LocalTime. f_equal. f_equal.
  apply Z.div_exact in Ht; [|unfold msPerDay; lia].
  rewrite Ht at 1. rewrite Z.mul_comm, Z.div_add_l by (unfold msPerDay; lia).
  rewrite (Z.div_small (utcOffsetMinutes h * msPerMinute))
    by (unfold msPerMinute, msPerDay; lia).
  lia.
Qed.

Lemma getDay_west h t :
  -1440 <= utcOffsetMinutes h < 0 -> t mod msPerDay = 0 ->
  getDay h t = WeekDay (t - msPerDay).
Proof.
  intros Hoff Ht. unfold getDay, WeekDay, Day, LocalTime. f_equal. f_equal.
  apply Z.div_exact in Ht; [|unfold msPerDay; lia].
  set (d := t / msPerDay) in *.
  replace (t + utcOffsetMinutes h * msPerMinute)
    with ((d - 1) * msPerDay + (msPerDay + utcOffsetMinutes h * msPerMinute))
    by lia.
  replace (t - msPerDay) with ((d - 1) * msPerDay + 0) by lia.
  rewrite !Z.div_add_l by (unfold msPerDay; lia).
  rewrite Z.div_small by (unfold msPerMinute, msPerDay; lia).
  reflexivity.
Qed.

Variable h : Host.
Variables startDateStr endDateStr dayOfWeekStr : jsstring.
Variables s e : Z.
Hypothesis start_parsed : newDate startDateStr = Some s.
Hypothesis end_parsed : newDate endDateStr = Some e.

(** What the expansion returns on any host: the dates from the start to the
    end, both included, in ascending order, whose weekday in the local zone
    of the host is listed. *)
Lemma expandDates_local :
  expandDates h startDateStr endDateStr dayOfWeekStr
  = map toISODate
      (filter (fun t => includes (parseDaysOfWeek dayOfWeekStr) (getDay h t))
              (daysFrom s (daysBetween s e))).
Proof.
  unfold expandDates. rewrite start_parsed, end_parsed.
  destruct (parseDaysOfWeek dayOfWeekStr) as [|d ds] eqn:E.
  - symmetry. replace (filter _ _) with (@nil Z); [reflexivity|].
    symmetry. induction (daysFrom s (daysBetween s e)); [reflexivity|].
    simpl. assumption.
  - now rewrite walkDays_filter.
Qed.

(** On a host at UTC or east of it the listed weekday is the weekday of the
    date itself. *)
Lemma expandDates_east :
  0 <= utcOffsetMinutes h < 1440 ->
  expandDates h startDateStr endDateStr dayOfWeekStr
  = map toISODate
      (filter (fun t => includes (parseDaysOfWeek dayOfWeekStr) (WeekDay t))
              (daysFrom s (daysBetween s e))).
Proof.
  intros Hoff. rewrite expandDates_local. f_equal.
  apply filter_ext_in. intros t Ht. f_equal.
  apply getDay_east; [exact Hoff|].
  eapply daysFrom_midnight; [|exact Ht].
  exact (newDate_midnight _ _ start_parsed).
Qed.

(** On a host west of UTC it is the weekday of the day before the date. *)
Lemma expandDates_west :
  -1440 <= utcOffsetMinutes h < 0 ->
  expandDates h startDateStr endDateStr dayOfWeekStr
  = map toISODate
      (filter (fun t => includes (parseDaysOfWeek dayOfWeekStr)
                                 (WeekDay (t - msPerDay)))
              (daysFrom s (daysBetween s e))).
Proof.
  intros Hoff. rewrite expandDates_local. f_equal.
  apply filter_ext_in. intros t Ht. f_equal.
  apply getDay_west; [exact Hoff|].
  eapply daysFrom_midnight; [|exact Ht].
  exact (newDate_midnight _ _ start_parsed).
Qed.

End LocalWeekday.

(** C2. The expansion takes the weekday of a day from [getDay], which reads
    the local zone of the host, while the days are parsed and printed in
    UTC.  On a host five hours west of UTC, the range 2025-11-03 to
    2025-11-03 with Monday gives no date, and the weekends of November 2025
    come out as its Sundays and Mondays; on a host at UTC the results are
    the ones of the specification. *)
Theorem expansion_reads_local_weekday :
  expandDates westHost (units "2025-11-03") (units "2025-11-03") (units "Monday")
  = []
  /\ expandDates UTC (units "2025-11-03") (units "2025-11-03") (units "Monday")
     = [units "2025-11-03"]
  /\ expandDates westHost (units "2025-11-01") (units "2025-11-30")
       (units "Saturday,Sunday")
     = map units ["2025-11-02"; "2025-11-03"; "2025-11-09"; "2025-11-10";
                  "2025-11-16"; "2025-11-17"; "2025-11-23"; "2025-11-24";
                  "2025-11-30"]%string
  /\ expandDates UTC (units "2025-11-01") (units "2025-11-30")
       (units "Saturday,Sunday")
     = map units ["2025-11-01"; "2025-11-02"; "2025-11-08"; "2025-11-09";
                  "2025-11-15"; "2025-11-16"; "2025-11-22"; "2025-11-23";
                  "2025-11-29"; "2025-11-30"]%string.
Proof. repeat split; vm_compute; reflexivity. Qed.

(* ================================================================== *)
(** * Import of a staged event into the calendar *)
(* ================================================================== *)

Import Ledger.

Section ImportOperation.

Variable h : Host.
Variable eventId : jsstring.

Lemma marks_app l1 l2 : marks (l1 ++ l2) = marks l1 + marks l2.
Proof.
  induction l1 as [|s l1 IH]; [reflexivity|].
  destruct s; simpl; now rewrite IH.
Qed.

Lemma singleInserts_app l1 l2 :
  singleInserts (l1 ++ l2) = singleInserts l1 + singleInserts l2.
Proof.
  induction l1 as [|s l1 IH]; [reflexivity|].
  destruct s; simpl; now rewrite IH.
Qed.

(** The world after the select: nothing but the log and the faults moved. *)
Lemma selectSingle_world db res db1 :
  selectSingle eventId db = (res, db1) ->
  db1 = mkDb (extracted_events db) (calendar_events db) (tl (faults db))
             (log db ++ [Selected eventId]).
Proof.
  unfold selectSingle, send. intros H.
  destruct (match faults db with [] => None | f :: _ => f end).
  - now inversion H.
  - cbn [extracted_events] in H.
    destruct (filter _ (extracted_events db)) as [|r [|r' l]];
      now inversion H.
Qed.

Lemma import_range row metadata db db1 :
  selectSingle eventId db = (Returned (Some row), db1) ->
  ExtractedEvent.metadata row = Some metadata ->
  needsExpansion metadata = true ->
  importEventToCalendar h eventId db
  = match faults db1 with
    | Some message :: rest =>
        (Thrown (FailedToImportExpanded message),
         mkDb (extracted_events db1) (calendar_events db1) rest
              (log db1 ++ [InsertedMany (expanding h eventId row metadata)]))
    | None :: Some message :: rest =>
        (Thrown (FailedToMark message),
         mkDb (extracted_events db1)
              (calendar_events db1 ++ expanding h eventId row metadata) rest
              ((log db1 ++ [InsertedMany (expanding h eventId row metadata)])
                 ++ [MarkedImported eventId]))
    | rest =>
        (Returned (Many (expanding h eventId row metadata)),
         mkDb (map (fun r => if eqUnits (ExtractedEvent.id r) eventId
                             then setImported r else r)
                   (extracted_events db1))
              (calendar_events db1 ++ expanding h eventId row metadata)
              (tl (tl rest))
              ((log db1 ++ [InsertedMany (expanding h eventId row metadata)])
                 ++ [MarkedImported eventId]))
    end.
Proof.
  intros Hsel Hmeta Hneeds.
  unfold importEventToCalendar, bind at 1. rewrite Hsel, Hmeta, Hneeds.
  unfold expanding, expandRangeWithDays. rewrite map_map.
  unfold calendarRow. cbn [Expanded.title Expanded.description Expanded.event_date].
  unfold bind, insertMany, markEventAsImported, updateImported, send, bind,
    ret, throw.
  destruct db1 as [ex cal fl lg]. cbn [faults extracted_events calendar_events log].
  destruct fl as [|[m1|] [|[m2|] fl]]; reflexivity.
Qed.

Lemma import_single row db db1 :
  selectSingle eventId db = (Returned (Some row), db1) ->
  needsExpansion (match ExtractedEvent.metadata row with
                  | Some m => m
                  | None => StoredMetadata.empty
                  end) = false ->
  importEventToCalendar h eventId db
  = match faults db1 with
    | Some message :: rest =>
        (Thrown (FailedToImport message),
         mkDb (extracted_events db1) (calendar_events db1) rest
              (log db1 ++ [InsertedOne (calendarRow row eventId
                                          (ExtractedEvent.event_date row))]))
    | None :: Some message :: rest =>
        (Thrown (FailedToMark message),
         mkDb (extracted_events db1)
              (calendar_events db1
                 ++ [calendarRow row eventId (ExtractedEvent.event_date row)])
              rest
              ((log db1 ++ [InsertedOne (calendarRow row eventId
                                           (ExtractedEvent.event_date row))])
                 ++ [MarkedImported eventId]))
    | rest =>
        (Returned (One (calendarRow row eventId (ExtractedEvent.event_date row))),
         mkDb (map (fun r => if eqUnits (ExtractedEvent.id r) eventId
                             then setImported r else r)
                   (extracted_events db1))
              (calendar_events db1
                 ++ [calendarRow row eventId (ExtractedEvent.event_date row)])
              (tl (tl rest))
              ((log db1 ++ [InsertedOne (calendarRow row eventId
                                           (ExtractedEvent.event_date row))])
                 ++ [MarkedImported eventId]))
    end.
Proof.
  intros Hsel Hneeds.
  unfold importEventToCalendar, bind at 1. rewrite Hsel, Hneeds.
  unfold calendarRow.
  unfold bind, insertOne, markEventAsImported, updateImported, send, bind,
    ret, throw.
  destruct db1 as [ex cal fl lg]. cbn [faults extracted_events calendar_events log].
  destruct fl as [|[m1|] [|[m2|] fl]]; reflexivity.
Qed.

(** With no fault, the import of a range inserts the rows of the expansion
    in one statement and marks the staged event once. *)
Lemma import_range_clean row metadata db db1 :
  faults db = [] ->
  selectSingle eventId db = (Returned (Some row), db1) ->
  ExtractedEvent.metadata row = Some metadata ->
  needsExpansion metadata = true ->
  importEventToCalendar h eventId db
  = (Returned (Many (expanding h eventId row metadata)),
     mkDb (map (fun r => if eqUnits (ExtractedEvent.id r) eventId
                         then setImported r else r)
               (extracted_events db))
          (calendar_events db ++ expanding h eventId row metadata)
          []
          (log db ++ [Selected eventId;
                      InsertedMany (expanding h eventId row metadata);
                      MarkedImported eventId])).
Proof.
  intros Hf Hsel Hmeta Hneeds.
  rewrite (import_range _ _ _ _ Hsel Hmeta Hneeds).
  rewrite (selectSingle_world _ _ _ Hsel), Hf. cbn.
  now rewrite <- !app_assoc.
Qed.

(** The rows of an expansion share what the specification lists. *)
Lemma expanding_rows row metadata c :
  In c (expanding h eventId row metadata) ->
  CalendarEvent.source c = EXTRACTED
  /\ CalendarEvent.source_id c = eventId
  /\ CalendarEvent.title c = ExtractedEvent.title row
  /\ CalendarEvent.start_time c = ExtractedEvent.start_time row
  /\ CalendarEvent.end_time c = ExtractedEvent.end_time row
  /\ CalendarEvent.location c = ExtractedEvent.location row
  /\ CalendarEvent.category c = ExtractedEvent.category row
  /\ CalendarEvent.priority c = ExtractedEvent.priority row.
Proof.
  unfold expanding. intros Hc. apply in_map_iff in Hc.
  destruct Hc as (d & <- & _). cbn. repeat split.
Qed.

End ImportOperation.

(** C3. The import of the staged range 2025-11-03 to 2025-11-17 on Mondays
    inserts the dates of the expansion, and these depend on the zone of the
    host.  On a host five hours west of UTC it inserts two events, dated
    2025-11-04 and 2025-11-11, where the specification has three, dated 2025-11-03,
    2025-11-10 and 2025-11-17; on a host at UTC it inserts these three.
    Either way the rows carry the source ['extracted'], the id of the staged
    event and its title, times, place, category and priority, and the
    staged event is marked once. *)
Theorem import_mondays_depends_on_host :
  let id := units "evt-1" in
  let db := mkDb [stagedMondays] [] [] [] in
  let row := calendarRow stagedMondays id in
  let after rows :=
    mkDb [setImported stagedMondays] rows []
         [Selected id; InsertedMany rows; MarkedImported id] in
  let west := [row (units "2025-11-04"); row (units "2025-11-11")] in
  let utc := [row (units "2025-11-03"); row (units "2025-11-10");
              row (units "2025-11-17")] in
  importEventToCalendar westHost id db = (Returned (Many west), after west)
  /\ importEventToCalendar UTC id db = (Returned (Many utc), after utc)
  /\ marks (log (after west)) = 1 /\ marks (log (after utc)) = 1.
Proof. repeat split; vm_compute; reflexivity. Qed.

Section Staged.

Import EdgeFunction.

Lemma materialised_range lineEvents ev :
  In ev (convertLineEventsToExtractedEvents lineEvents) ->
  Metadata.is_range_with_day (ExtractedEvent.metadata ev) = Some true ->
  exists e,
    In e lineEvents /\ isDeferredRange e = true
    /\ Metadata.normalized_date (ExtractedEvent.metadata ev)
       = LineExtraction.normalized_date e
    /\ Metadata.normalized_end_date (ExtractedEvent.metadata ev)
       = LineExtraction.normalized_end_date e
    /\ Metadata.day_of_week (ExtractedEvent.metadata ev)
       = LineExtraction.day_of_week e.
Proof.
  intros Hin Hflag. unfold convertLineEventsToExtractedEvents in Hin.
  apply in_flat_map in Hin. destruct Hin as (e & He & Hev).
  exists e. split; [exact He|]. unfold convertLineEvent in Hev.
  destruct (negb (truthy (LineExtraction.normalized_date e))
            && negb (nonEmpty (LineExtraction.date_text e)));
    [contradiction|].
  destruct (isDeferredRange e) eqn:Hrange.
  - destruct Hev as [<-|[]]. cbn. auto.
  - destruct Hev as [<-|[]]. cbn in Hflag. discriminate.
Qed.

End Staged.

(** C4, as amended. An event that the materialiser flags
    [is_range_with_day = true] carries a start date, an end date and a day
    list that are all set and not the empty string; the day list need not
    name a weekday.  The import of its staged row never sends the insert
    of the single, unexpanded event: whatever the faults of the database,
    the log gains no such statement. *)
Theorem range_events_are_expanded
    (lineEvents : list EdgeFunction.LineExtraction.t)
    (ev : EdgeFunction.ExtractedEvent.t)
    (h : Host) (eventId : jsstring) (row : ExtractedEvent.t) (db db1 : Db) :
  In ev (EdgeFunction.convertLineEventsToExtractedEvents lineEvents) ->
  EdgeFunction.Metadata.is_range_with_day (EdgeFunction.ExtractedEvent.metadata ev)
    = Some true ->
  ExtractedEvent.metadata row
    = Some (Staging.storedMetadata (EdgeFunction.ExtractedEvent.metadata ev)) ->
  selectSingle eventId db = (Returned (Some row), db1) ->
  truthy (EdgeFunction.Metadata.normalized_date
            (EdgeFunction.ExtractedEvent.metadata ev)) = true
  /\ truthy (EdgeFunction.Metadata.normalized_end_date
               (EdgeFunction.ExtractedEvent.metadata ev)) = true
  /\ truthy (EdgeFunction.Metadata.day_of_week
               (EdgeFunction.ExtractedEvent.metadata ev)) = true
  /\ singleInserts (log (snd (importEventToCalendar h eventId db)))
     = singleInserts (log db).
Proof.
  intros Hin Hflag Hmeta Hsel.
  destruct (materialised_range _ _ Hin Hflag) as (e & _ & Hrange & E1 & E2 & E3).
  destruct (deferred_has_start _ Hrange) as (T1 & T2 & T3 & _).
  rewrite E1, E2, E3. repeat split; auto.
  assert (Hneeds : needsExpansion
            (Staging.storedMetadata (EdgeFunction.ExtractedEvent.metadata ev))
          = true).
  { unfold needsExpansion, Staging.storedMetadata. cbn.
    now rewrite Hflag, E1, E2, E3, T1, T2, T3. }
  rewrite (import_range h eventId _ _ _ _ Hsel Hmeta Hneeds).
  rewrite (selectSingle_world _ _ _ _ Hsel). cbn [faults log].
  destruct (tl (faults db)) as [|[m1|] [|[m2|] fl]]; cbn [snd log];
    rewrite !singleInserts_app; cbn; lia.
Qed.

Lemma range_events_are_expanded_witness :
  let ev := EdgeFunction.ExtractedEvent.mk
              (units "Team Meeting") (units "Team Meeting") (units "2025-11-03")
              (units "other") (units "medium") 85
              (EdgeFunction.Metadata.mk
                 (units "Nov 3 to Nov 17")
                 (Some (units "2025-11-03")) (Some (units "2025-11-17"))
                 3 (Some (units "Monday")) (Some (units "weekly"))
                 (Some true) false None None) in
  let db := mkDb [stagedMondays; stagedExam] [] [None; Some (units "timeout")] [] in
  truthy (EdgeFunction.Metadata.normalized_date
            (EdgeFunction.ExtractedEvent.metadata ev)) = true
  /\ truthy (EdgeFunction.Metadata.normalized_end_date
               (EdgeFunction.ExtractedEvent.metadata ev)) = true
  /\ truthy (EdgeFunction.Metadata.day_of_week
               (EdgeFunction.ExtractedEvent.metadata ev)) = true
  /\ singleInserts (log (snd (importEventToCalendar UTC (units "evt-1") db)))
     = singleInserts (log db).
Proof.
  intros ev db.
  apply (range_events_are_expanded [mondays] ev UTC (units "evt-1")
           stagedMondays db
           (mkDb [stagedMondays; stagedExam] [] [Some (units "timeout")]
                 [Selected (units "evt-1")])).
  - left. reflexivity.
  - reflexivity.
  - reflexivity.
  - reflexivity.
Defined.

(** C4, the claim as it is stated fails: the materialiser flags the result
    whose day list is ['Funday'] as a range, although the list names no
    weekday; the import of the staged row then takes the expanding branch,
    inserts no calendar row and marks the event imported. *)
Lemma range_flag_with_no_weekday :
  map (fun ev =>
         (EdgeFunction.Metadata.is_range_with_day
            (EdgeFunction.ExtractedEvent.metadata ev),
          Weekdays.parseDaysOfWeek
            (stringOf (EdgeFunction.Metadata.day_of_week
                         (EdgeFunction.ExtractedEvent.metadata ev)))))
      (EdgeFunction.convertLineEventsToExtractedEvents [funday])
  = [(Some true, [])]
  /\ map (fun ev =>
            let run :=
              importEventToCalendar UTC (units "evt-3")
                (mkDb [Staging.storedRow (units "evt-3")
                         (EdgeFunction.mkRow ev (units "doc-1") (units "user-1"))]
                      [] [] []) in
            (fst run, calendar_events (snd run),
             map ExtractedEvent.is_imported (extracted_events (snd run))))
         (EdgeFunction.convertLineEventsToExtractedEvents [funday])
     = [(Returned (Many []), [], [true])].
Proof. vm_compute. split; reflexivity. Qed.

(** C10. When the insert into [calendar_events] fails, in the branch of the
    single event as in the branch of the expansion, the import throws the
    error of the insert before [markEventAsImported] runs: the staged rows,
    their [is_imported] flags included, and the calendar are as they were,
    and the log holds no new statement that marks an event. *)
Theorem failed_insert_leaves_staging
    (h : Host) (eventId : jsstring) (row : ExtractedEvent.t)
    (db db1 : Db) (message : jsstring) (rest : list (option jsstring)) :
  selectSingle eventId db = (Returned (Some row), db1) ->
  faults db1 = Some message :: rest ->
  exists e db',
    importEventToCalendar h eventId db = (Thrown e, db')
    /\ (e = FailedToImport message \/ e = FailedToImportExpanded message)
    /\ extracted_events db' = extracted_events db
    /\ calendar_events db' = calendar_events db
    /\ marks (log db') = marks (log db).
Proof.
  intros Hsel Hfault.
  pose proof (selectSingle_world _ _ _ _ Hsel) as Hdb1.
  destruct (needsExpansion (match ExtractedEvent.metadata row with
                            | Some m => m
                            | None => StoredMetadata.empty
                            end)) eqn:Hneeds.
  - destruct (ExtractedEvent.metadata row) as [metadata|] eqn:Hmeta;
      [|discriminate].
    rewrite (import_range h eventId _ _ _ _ Hsel Hmeta Hneeds), Hfault.
    eexists _, _. split; [reflexivity|]. split; [now right|].
    subst db1. cbn. repeat split. rewrite !marks_app. cbn. lia.
  - rewrite (import_single h eventId _ _ _ Hsel Hneeds), Hfault.
    eexists _, _. split; [reflexivity|]. split; [now left|].
    subst db1. cbn. repeat split. rewrite !marks_app. cbn. lia.
Qed.

Lemma failed_insert_leaves_staging_witness :
  let db := mkDb [stagedMondays; stagedExam] [] [None; Some (units "timeout")] [] in
  exists e db',
    importEventToCalendar westHost (units "evt-2") db = (Thrown e, db')
    /\ (e = FailedToImport (units "timeout")
        \/ e = FailedToImportExpanded (units "timeout"))
    /\ extracted_events db' = extracted_events db
    /\ calendar_events db' = calendar_events db
    /\ marks (log db') = marks (log db).
Proof.
  intros db.
  apply (failed_insert_leaves_staging westHost (units "evt-2") stagedExam db
           (mkDb [stagedMondays; stagedExam] [] [Some (units "timeout")]
                 [Selected (units "evt-2")])
           (units "timeout") []).
  - reflexivity.
  - reflexivity.
Defined.

Example failed_expanded_insert :
  let db := mkDb [stagedMondays] [] [None; Some (units "timeout")] [] in
  importEventToCalendar UTC (units "evt-1") db
  = (Thrown (FailedToImportExpanded (units "timeout")),
     mkDb [stagedMondays] [] []
          [Selected (units "evt-1");
           InsertedMany (expanding UTC (units "evt-1") stagedMondays
                           (Staging.storedMetadata
                              (EdgeFunction.Metadata.mk
                                 (units "Nov 3 to Nov 17")
                                 (Some (units "2025-11-03"))
                                 (Some (units "2025-11-17"))
                                 3 (Some (units "Monday")) (Some (units "weekly"))
                                 (Some true) false None None)))]).
Proof. vm_compute. reflexivity. Qed.

(** A mark that fails after the insert leaves the calendar rows in place
    and the staged event unmarked. *)
Example failed_mark_after_insert :
  let db := mkDb [stagedExam] [] [None; None; Some (units "timeout")] [] in
  let '(res, db') := importEventToCalendar UTC (units "evt-2") db in
  res = Thrown (FailedToMark (units "timeout"))
  /\ List.length (calendar_events db') = 1
  /\ extracted_events db' = [stagedExam].
Proof. vm_compute. repeat split. Qed.

(* ================================================================== *)
(** * Promotion of a recurring candidate *)
(* ================================================================== *)

Import RecurringStore Detected.

Section Promotion.

Variable candidateId : jsstring.

Lemma find_after_accept cs c :
  find (fun x => eqUnits (RecurringCandidate.id x) candidateId) cs = Some c ->
  find (fun x => eqUnits (RecurringCandidate.id x) candidateId)
       (map (fun x => if eqUnits (RecurringCandidate.id x) candidateId
                      then withStatus accepted x else x) cs)
  = Some (withStatus accepted c).
Proof.
  induction cs as [|x cs IH]; simpl; [discriminate|].
  destruct (eqUnits (RecurringCandidate.id x) candidateId) eqn:E.
  - intros [= ->]. simpl. now rewrite E.
  - intros H. simpl. rewrite E. now apply IH.
Qed.

End Promotion.



(** A candidate without a suggested rule or without an occurrence date is
    not promoted: no series is created and it stays pending. *)
Lemma promote_refused (candidateId : jsstring) (st : Store)
    (c : RecurringCandidate.t) :
  findCandidate candidateId st = Some c ->
  RecurringCandidate.suggested_rrule c = None
  \/ RecurringCandidate.occurrence_dates c = [] ->
  promote candidateId st = st.
Proof.
  intros Hfind Hnone. unfold promote. rewrite Hfind.
  assert (seriesOf c = None) as ->.
  { unfold seriesOf. destruct Hnone as [-> | ->]; [reflexivity|].
    now destruct (RecurringCandidate.suggested_rrule c). }
  now destruct (RecurringCandidate.status c).
Qed.

(* ================================================================== *)
(** * Further properties: the extraction client *)
(* ================================================================== *)

Import EdgeFunction Observe Attempts Frame.

Section RetryLoop.

Variable lines : list LineContext.
Variable retries : nat.

(** One iteration of the loop, whatever the outcome of its request. *)
Lemma attempt_step attempt w :
  tryCatch (attemptBody lines retries attempt) (attemptCatch retries attempt) w
  = (if succeeds (hd_error (network w))
     then match hd_error (network w) with
          | Some (Responds r) => Returned (Done r)
          | _ => Returned Next
          end
     else if attempt =? retries - 1
          then Thrown (failure (hd_error (network w)))
          else Returned Next,
     mkWorld (tl (network w)) (inserts w) (extracted_events w)
             (trace w ++ [Fetched lines])).
Proof.
  unfold tryCatch, attemptBody, attemptCatch, bind, fetch, ret, throw, record.
  destruct w as [net ins rows tr]. cbn [network inserts extracted_events trace].
  destruct net as [|[reason|r] net]; cbn [hd_error tl succeeds failure].
  - now destruct (attempt =? retries - 1).
  - now destruct (attempt =? retries - 1).
  - destruct (ok r); [reflexivity|].
    destruct ((400 <=? status r)%Z && (status r <? 500)%Z);
      now destruct (attempt =? retries - 1).
Qed.

Lemma attemptLoop_first_success k r :
  ok r = true ->
  forall remaining attempt w,
    attempt + remaining = retries ->
    k < remaining ->
    (forall i, i < k -> succeeds (nth_error (network w) i) = false) ->
    nth_error (network w) k = Some (Responds r) ->
    attemptLoop lines retries remaining attempt w
    = (Returned r,
       mkWorld (skipn (S k) (network w)) (inserts w) (extracted_events w)
               (trace w ++ retryTrace lines (S k) attempt)).
Proof.
  intros Hok. induction k as [|k IH]; intros remaining attempt w Hsum Hk Hfail Hnth.
  - destruct remaining as [|remaining]; [lia|]. cbn [attemptLoop].
    unfold bind at 1. rewrite attempt_step.
    destruct (network w) as [|o net] eqn:En; [discriminate|].
    cbn in Hnth. injection Hnth as ->. cbn [hd_error succeeds tl].
    rewrite Hok. reflexivity.
  - destruct remaining as [|remaining]; [lia|]. cbn [attemptLoop].
    unfold bind at 1. rewrite attempt_step.
    destruct (network w) as [|o net] eqn:En; [discriminate|].
    pose proof (Hfail 0 ltac:(lia)) as H0. cbn [nth_error] in H0.
    cbn [hd_error tl]. rewrite H0.
    assert (Hnot : (attempt =? retries - 1) = false) by (apply Nat.eqb_neq; lia).
    assert (Hlt : (attempt <? retries - 1) = true) by (apply Nat.ltb_lt; lia).
    rewrite Hnot, Hlt. unfold bind at 1, sleep at 1.
    rewrite (IH remaining (S attempt)); cbn [network]; try lia.
    + cbn [record inserts extracted_events trace network].
      rewrite <- !app_assoc. reflexivity.
    + intros i Hi. exact (Hfail (S i) ltac:(lia)).
    + exact Hnth.
Qed.

Lemma attemptLoop_exhausted :
  forall remaining attempt w,
    attempt + remaining = retries ->
    1 <= remaining ->
    (forall i, i < remaining -> succeeds (nth_error (network w) i) = false) ->
    attemptLoop lines retries remaining attempt w
    = (Thrown (failure (nth_error (network w) (remaining - 1))),
       mkWorld (skipn remaining (network w)) (inserts w) (extracted_events w)
               (trace w ++ retryTrace lines remaining attempt)).
Proof.
  induction remaining as [|remaining IH]; intros attempt w Hsum Hpos Hfail;
    [lia|].
  cbn [attemptLoop]. unfold bind at 1. rewrite attempt_step.
  pose proof (Hfail 0 ltac:(lia)) as H0.
  replace (nth_error (network w) 0) with (hd_error (network w)) in H0
    by now destruct (network w).
  rewrite H0. destruct remaining as [|remaining].
  - assert (Hlast : (attempt =? retries - 1) = true) by (apply Nat.eqb_eq; lia).
    rewrite Hlast. cbn. now destruct (network w).
  - assert (Hnot : (attempt =? retries - 1) = false) by (apply Nat.eqb_neq; lia).
    assert (Hlt : (attempt <? retries - 1) = true) by (apply Nat.ltb_lt; lia).
    rewrite Hnot, Hlt. unfold bind at 1, sleep at 1.
    rewrite (IH (S attempt)); cbn [network]; try lia.
    + cbn [record inserts extracted_events trace network].
      rewrite <- !app_assoc.
      replace (S remaining - 1) with remaining by lia.
      destruct (network w) as [|o net]; cbn [tl skipn].
      * destruct remaining; reflexivity.
      * cbn. replace (remaining - 0) with remaining by lia. reflexivity.
    + intros i Hi. specialize (Hfail (S i) ltac:(lia)).
      destruct (network w); [now destruct i|exact Hfail].
Qed.

End RetryLoop.

(** X1. [fetchWithRetry] returns the first response that is ok among the
    outcomes of its attempts: when the outcomes before the [k]-th do not
    succeed and the [k]-th, within the budget, is an ok response, the call
    returns that response after [k + 1] requests, having slept the delays
    of the table between them, and consumes nothing else. *)
Theorem fetchWithRetry_returns_first_success
    (lines : list LineContext) (retries k : nat) (w : World) (r : Response) :
  k < retries ->
  (forall i, i < k -> succeeds (nth_error (network w) i) = false) ->
  nth_error (network w) k = Some (Responds r) ->
  ok r = true ->
  fetchWithRetry lines retries w
  = (Returned r,
     mkWorld (skipn (S k) (network w)) (inserts w) (extracted_events w)
             (trace w ++ retryTrace lines (S k) 0)).
Proof.
  intros Hk Hfail Hnth Hok. unfold fetchWithRetry.
  apply attemptLoop_first_success; auto.
Qed.

Lemma fetchWithRetry_returns_first_success_witness :
  let lines := [mkLine 7 (units "Nov 14: Exam")] in
  let r := mkResponse 200 [] (Events (Some [])) in
  fetchWithRetry lines 3
    (fresh [respond 503 NoContent; Rejects (units "reset"); Responds r;
            respond 500 NoContent] [])
  = (Returned r,
     mkWorld [respond 500 NoContent] [] []
       [Fetched lines; Slept 500; Fetched lines; Slept 1000; Fetched lines]).
Proof.
  intros lines r.
  apply (fetchWithRetry_returns_first_success lines 3 2
           (fresh [respond 503 NoContent; Rejects (units "reset"); Responds r;
                   respond 500 NoContent] []) r).
  - lia.
  - intros [|[|i]] Hi; [reflexivity | reflexivity | lia].
  - reflexivity.
  - reflexivity.
Defined.

(** X2. When none of the outcomes of its [retries] attempts succeeds,
    [fetchWithRetry] sends [retries] requests, sleeps between them, and
    throws the error of the last attempt: the status and body of its
    response, or the network error. *)
Theorem fetchWithRetry_throws_last_failure
    (lines : list LineContext) (retries : nat) (w : World) :
  1 <= retries ->
  (forall i, i < retries -> succeeds (nth_error (network w) i) = false) ->
  fetchWithRetry lines retries w
  = (Thrown (failure (nth_error (network w) (retries - 1))),
     mkWorld (skipn retries (network w)) (inserts w) (extracted_events w)
             (trace w ++ retryTrace lines retries 0)).
Proof.
  intros Hpos Hfail. unfold fetchWithRetry.
  apply attemptLoop_exhausted; auto.
Qed.

Lemma fetchWithRetry_throws_last_failure_witness :
  let lines := [mkLine 7 (units "Nov 14: Exam")] in
  fetchWithRetry lines 3
    (fresh [respond 500 NoContent; Rejects (units "reset");
            Responds (mkResponse 429 (units "slow down") NoContent);
            respond 200 NoContent] [])
  = (Thrown (HttpError 429 (units "slow down")),
     mkWorld [respond 200 NoContent] [] []
       [Fetched lines; Slept 500; Fetched lines; Slept 1000; Fetched lines]).
Proof.
  intros lines.
  apply (fetchWithRetry_throws_last_failure lines 3
           (fresh [respond 500 NoContent; Rejects (units "reset");
                   Responds (mkResponse 429 (units "slow down") NoContent);
                   respond 200 NoContent] [])).
  - lia.
  - intros [|[|[|i]]] Hi; [reflexivity | reflexivity | reflexivity | lia].
Defined.

(** X3. A first content that is a string and does not parse, or parses
    to null, makes [callOpenAIForLineBatch] send the request once more,
    outside the retry loop and without a delay.  The call then returns the
    events of that second answer, or no event when the request fails or
    the answer is not ok, has a body that is no JSON or is null, has no
    content, or a content that does not parse; and it throws a
    [TypeError] when the content of the second answer parses to null. *)
Theorem malformed_content_is_requested_again
    (batch : list LineContext) (w w1 : World) (r : Response) :
  batch <> [] ->
  fetchWithRetry batch 3 w = (Returned r, w1) ->
  asksAgain (body r) = true ->
  callOpenAIForLineBatch batch w
  = (reparsed (hd_error (network w1)),
     mkWorld (tl (network w1)) (inserts w1) (extracted_events w1)
             (trace w1 ++ [Fetched batch])).
Proof.
  intros Hne Hfetch Hbody. unfold callOpenAIForLineBatch.
  destruct batch as [|l batch']; [contradiction|].
  unfold bind at 1, tryCatch at 1. rewrite Hfetch.
  assert (Hretry : retryParse (l :: batch') w1
                   = (reparsed (hd_error (network w1)),
                      mkWorld (tl (network w1)) (inserts w1)
                              (extracted_events w1)
                              (trace w1 ++ [Fetched (l :: batch')]))).
  { unfold retryParse, retryBody, tryCatch, bind, fetch, ret, throw, record.
    destruct w1 as [net ins rows tr].
    cbn [network inserts extracted_events trace].
    destruct net as [|[reason|r'] net]; cbn [hd_error tl reparsed];
      try reflexivity.
    destruct (ok r'); [|reflexivity].
    destruct (body r'); reflexivity. }
  destruct (body r) as [| | | | |[|]|events]; try discriminate Hbody;
    exact Hretry.
Qed.

Lemma malformed_content_is_requested_again_witness :
  let batch := [mkLine 7 (units "Nov 14: Exam")] in
  callOpenAIForLineBatch batch
    (fresh [respond 200 Malformed; respond 200 (ContentNull true)] [])
  = (Thrown TypeError,
     mkWorld [] [] [] [Fetched batch; Fetched batch]).
Proof.
  intros batch.
  apply (malformed_content_is_requested_again batch
           (fresh [respond 200 Malformed; respond 200 (ContentNull true)] [])
           (mkWorld [respond 200 (ContentNull true)] [] [] [Fetched batch])
           (mkResponse 200 [] Malformed)).
  - discriminate.
  - reflexivity.
  - reflexivity.
Defined.

Example second_answer_with_events :
  let batch := [mkLine 7 (units "Nov 14: Exam")] in
  let found := LineExtraction.mk 7 (units "Exam") (units "Nov 14")
                 None None None None None in
  callOpenAIForLineBatch batch
    (fresh [respond 200 (ContentNull true);
            respond 200 (Events (Some [found]))] [])
  = (Returned [found], mkWorld [] [] [] [Fetched batch; Fetched batch]).
Proof. reflexivity. Qed.

(** X4. A call of [callOpenAIForLineBatch] sends at most four requests,
    three of the retry loop and one for a content that does not parse,
    and none at all for an empty batch; it sleeps nothing but the delays 500
    and 1000 of the loop; it touches neither the table nor the outcomes of
    the inserts to come; and the only errors it throws are the failure of
    the retry loop, wrapped, a first body that is not JSON, and the
    [TypeError] of a body or parsed content that is null or of a content
    that is no string and does not parse. *)
Theorem callOpenAIForLineBatch_budget (batch : list LineContext) (w : World) :
  exists added,
    trace (snd (callOpenAIForLineBatch batch w)) = trace w ++ added
    /\ fetches added <= 4
    /\ (batch = [] -> added = [])
    /\ (sleeps added = [] \/ sleeps added = [500%Z]
        \/ sleeps added = [500%Z; 1000%Z])
    /\ extracted_events (snd (callOpenAIForLineBatch batch w)) = extracted_events w
    /\ inserts (snd (callOpenAIForLineBatch batch w)) = inserts w
    /\ match fst (callOpenAIForLineBatch batch w) with
       | Thrown e =>
           e = InvalidJson \/ e = TypeError
           \/ exists cause, e = OpenAIApiError cause
       | Returned _ => True
       end.
Proof.
  pose proof (callOpenAIForLineBatch_keeps_rows batch w) as Krows.
  pose proof (callOpenAIForLineBatch_keeps_inserts batch w) as Kins.
  destruct batch as [|l batch'].
  - exists []. cbn. rewrite app_nil_r. repeat split; auto; lia.
  - set (batch := l :: batch') in *.
    destruct (fetchWithRetry_budget batch w) as (res & w1 & added & E & T & H).
    assert (Hadded : fetches added <= 3
                     /\ (sleeps added = [] \/ sleeps added = [500%Z]
                         \/ sleeps added = [500%Z; 1000%Z]))
      by (destruct H as [ -> | [ -> | -> ] ]; cbn; split; auto; lia).
    destruct Hadded as [Hf Hs].
    assert (Hcall : callOpenAIForLineBatch batch w
                    = match res with
                      | Returned r =>
                          match body r with
                          | NotJson => (Thrown InvalidJson, w1)
                          | JsonNull => (Thrown TypeError, w1)
                          | NoContent => (Returned [], w1)
                          | Malformed => retryParse batch w1
                          | MalformedValue => (Thrown TypeError, w1)
                          | ContentNull true => retryParse batch w1
                          | ContentNull false => (Thrown TypeError, w1)
                          | Events events => (Returned (arrayOrEmpty events), w1)
                          end
                      | Thrown e => (Thrown (OpenAIApiError e), w1)
                      end).
    { unfold callOpenAIForLineBatch, batch, bind at 1, tryCatch at 1.
      fold batch. rewrite E. destruct res as [r|e]; [|reflexivity].
      destruct (body r) as [| | | | |[|]|events]; reflexivity. }
    rewrite Hcall in *. clear Hcall.
    assert (Hretry :
      exists added0,
        trace (snd (retryParse batch w1)) = trace w ++ added0
        /\ fetches added0 <= 4
        /\ (batch = [] -> added0 = [])
        /\ (sleeps added0 = [] \/ sleeps added0 = [500%Z]
            \/ sleeps added0 = [500%Z; 1000%Z])
        /\ match fst (retryParse batch w1) with
           | Thrown e =>
               e = InvalidJson \/ e = TypeError
               \/ exists cause, e = OpenAIApiError cause
           | Returned _ => True
           end).
    { exists (added ++ [Fetched batch]).
      rewrite retryParse_trace, T, <- app_assoc.
      assert (Hf' : fetches (added ++ [Fetched batch]) <= 4)
        by (destruct H as [ -> | [ -> | -> ] ]; cbn; lia).
      assert (Hs' : sleeps (added ++ [Fetched batch]) = sleeps added)
        by (destruct H as [ -> | [ -> | -> ] ]; reflexivity).
      rewrite Hs'. repeat split; auto; try discriminate.
      unfold retryParse, retryBody, tryCatch, bind, fetch, ret, throw.
      destruct w1 as [net ins rows tr].
      cbn [network record trace inserts extracted_events].
      destruct net as [|[reason|r'] net]; cbn; auto.
      destruct (ok r'); [destruct (body r')|]; cbn; auto. }
    destruct res as [r|e].
    + destruct (body r) as [| | | | |[|]|events] eqn:Eb;
        try (destruct Hretry as (added0 & R1 & R2 & R3 & R4 & R5);
             exists added0; repeat split; auto; fail);
        exists added; cbn [fst snd]; repeat split; auto; try lia;
        discriminate.
    + exists added. cbn [fst snd]. repeat split; auto; try lia; try discriminate.
      right. right. now exists e.
Qed.

(* ================================================================== *)
(** * Further properties: driver and materialiser *)
(* ================================================================== *)


(** X5. When the database accepts every insert, a run of
    [extractEventsFromLines] leaves in the table, after the rows it held,
    exactly the rows of the events it returns, converted and in order, each
    with the ids of the document and of the user: what the handler counts
    afterwards is what was stored. *)
Theorem persisted_rows_are_the_converted_events
    (lines : list LineContext) (documentId userId : jsstring) (w : World) :
  Forall (fun accepted => accepted = true) (inserts w) ->
  exists events w',
    extractEventsFromLines lines documentId userId w = (Returned events, w')
    /\ extracted_events w'
       = extracted_events w
         ++ map (fun event => mkRow event documentId userId)
              (convertLineEventsToExtractedEvents events).
Proof.
  intros Hall. rewrite extractEventsFromLines_sequentialRun.
  eexists _, _. split; [reflexivity|].
  now apply sequentialRun_all_accepted.
Qed.

Lemma persisted_rows_are_the_converted_events_witness :
  let line n := mkLine n (units "Nov 14, 2025: Exam") in
  let lines := map line (seq 1 12) in
  let found n := LineExtraction.mk n (units "Exam") (units "Nov 14, 2025")
                   (Some (units "2025-11-14")) None None None (Some false) in
  let w := fresh [respond 200 (Events (Some [found 1; found 4]));
                  respond 200 (Events (Some [found 11]))] [true; true] in
  exists events w',
    extractEventsFromLines lines (units "doc-1") (units "user-1") w
    = (Returned events, w')
    /\ extracted_events w'
       = extracted_events w
         ++ map (fun event => mkRow event (units "doc-1") (units "user-1"))
              (convertLineEventsToExtractedEvents events).
Proof.
  intros line lines found w.
  apply (persisted_rows_are_the_converted_events lines (units "doc-1")
           (units "user-1") w).
  repeat constructor.
Defined.

Section Kept.

Lemma convertLineEvent_kept e :
  hasDateInfo e = true ->
  exists ev,
    convertLineEvent e = [ev]
    /\ Metadata.line_number (ExtractedEvent.metadata ev)
       = LineExtraction.line_number e
    /\ Metadata.date_text (ExtractedEvent.metadata ev)
       = LineExtraction.date_text e
    /\ ExtractedEvent.title ev
       = orElse (LineExtraction.event e) (LineExtraction.date_text e)
    /\ ExtractedEvent.description ev = ExtractedEvent.title ev
    /\ ExtractedEvent.category ev = units "other"
    /\ ExtractedEvent.priority ev = units "medium"
    /\ (ExtractedEvent.confidence ev = 70%Z
        \/ ExtractedEvent.confidence ev = 85%Z
        \/ ExtractedEvent.confidence ev = 90%Z)
    /\ Metadata.is_expanded_from_range (ExtractedEvent.metadata ev) = false.
Proof.
  unfold hasDateInfo, convertLineEvent. intros H.
  replace (negb (truthy (LineExtraction.normalized_date e))
           && negb (nonEmpty (LineExtraction.date_text e)))
    with false
    by (rewrite <- negb_orb, H; reflexivity).
  destruct (isDeferredRange e).
  - eexists. split; [reflexivity|]. cbn. repeat split; auto.
  - eexists. split; [reflexivity|]. cbn. repeat split; auto.
    destruct (truthy (LineExtraction.normalized_date e)); auto.
Qed.

Lemma convertLineEvent_dropped e :
  hasDateInfo e = false -> convertLineEvent e = [].
Proof.
  unfold hasDateInfo, convertLineEvent. intros H.
  replace (negb (truthy (LineExtraction.normalized_date e))
           && negb (nonEmpty (LineExtraction.date_text e)))
    with true
    by (rewrite <- negb_orb, H; reflexivity).
  reflexivity.
Qed.

End Kept.

(** X6. The materialiser keeps exactly the results that carry a normalized
    date or raw date text, one event each and in their order: the line
    numbers of the events are those of the kept results.  Every event it
    emits has the category ['other'], the priority ['medium'], a confidence
    of 70, 85 or 90, a description equal to its title, and is not marked as
    expanded from a range. *)
Theorem materialiser_keeps_dated_results (lineEvents : list LineExtraction.t) :
  map (fun ev => Metadata.line_number (ExtractedEvent.metadata ev))
      (convertLineEventsToExtractedEvents lineEvents)
  = map LineExtraction.line_number (filter hasDateInfo lineEvents)
  /\ Forall (fun ev =>
               ExtractedEvent.category ev = units "other"
               /\ ExtractedEvent.priority ev = units "medium"
               /\ ExtractedEvent.description ev = ExtractedEvent.title ev
               /\ (ExtractedEvent.confidence ev = 70%Z
                   \/ ExtractedEvent.confidence ev = 85%Z
                   \/ ExtractedEvent.confidence ev = 90%Z)
               /\ Metadata.is_expanded_from_range (ExtractedEvent.metadata ev)
                  = false)
            (convertLineEventsToExtractedEvents lineEvents).
Proof.
  induction lineEvents as [|e rest [IHn IHf]].
  - split; [reflexivity | constructor].
  - rewrite convert_cons. cbn [filter].
    destruct (hasDateInfo e) eqn:He.
    + destruct (convertLineEvent_kept e He)
        as (ev & -> & Hn & _ & _ & Hd & Hc & Hp & Hconf & Hx).
      cbn [app map]. split.
      * now rewrite Hn, IHn.
      * constructor; [|exact IHf]. repeat split; auto.
    + rewrite (convertLineEvent_dropped e He). cbn [app].
      split; assumption.
Qed.

(* ================================================================== *)
(** * Further properties: normaliser and line splitter *)
(* ================================================================== *)

From Stdlib Require Import Sorted.
Import Shape Visible.

(** X7. Whatever the input, the text that [cleanOCRText] returns holds no
    control unit and no en or em dash; its only white space is the plain
    space, never twice in a row and neither first nor last, so it holds no
    line break; and no lower-case letter is followed by an upper-case one,
    no digit by a letter, no letter by a digit. *)
Theorem cleanOCRText_shape (x : jsstring) :
  let y := cleanOCRText x in
  Forall (fun c => isControl c = false /\ isDash c = false
                   /\ (isSpace c = true -> c = SPACE)) y
  /\ noAdjacent bothSpace y
  /\ noAdjacent lowerUpper y
  /\ noAdjacent digitLetter y
  /\ noAdjacent letterDigit y
  /\ startsWith isSpace y = false
  /\ trim y = y
  /\ ~ In LF y /\ ~ In CR y.
Proof.
  cbv zeta. pose proof (cleanOCRText_Normal x) as [H1 H2 H3 H4 H5 H6 H7].
  assert (Hplain : forall c, In c (cleanOCRText x) -> isSpace c = true -> c = SPACE)
    by (rewrite Forall_forall in H3; exact H3).
  repeat split; auto.
  - rewrite Forall_forall in *. intros c Hc. repeat split; auto.
  - rewrite cleanOCRText_trim. apply trim_head.
  - rewrite cleanOCRText_trim. apply trim_idempotent.
  - intros Hin. specialize (Hplain _ Hin eq_refl). discriminate.
  - intros Hin. specialize (Hplain _ Hin eq_refl). discriminate.
Qed.

Section VisibleUnits.

Lemma visible_cons c t :
  visible (c :: t) = if isSpace c then visible t else c :: visible t.
Proof. unfold visible. cbn [filter]. now destruct (isSpace c). Qed.

Lemma visible_space t : visible (SPACE :: t) = visible t.
Proof. now rewrite visible_cons. Qed.

Lemma visible_insertSpaceBetween p q s :
  visible (insertSpaceBetween p q s) = visible s.
Proof.
  induction s as [|a|a b t IHt IHbt] using scan_ind; try reflexivity.
  rewrite insertSpaceBetween_step. destruct (p a && q b).
  - rewrite (visible_cons a), visible_space, (visible_cons b), IHt.
    now rewrite (visible_cons a (b :: t)), (visible_cons b t).
  - now rewrite (visible_cons a), IHbt, (visible_cons a (b :: t)).
Qed.

Lemma visible_collapseFrom b s : visible (collapseFrom b s) = visible s.
Proof.
  revert b. induction s as [|c t IH]; intros b; [reflexivity|].
  cbn [collapseFrom]. rewrite (visible_cons c t).
  destruct (isSpace c) eqn:E.
  - destruct b; rewrite ?visible_space; apply IH.
  - now rewrite visible_cons, E, IH.
Qed.

Lemma visible_trimStart s : visible (trimStart s) = visible s.
Proof.
  induction s as [|c t IH]; [reflexivity|].
  cbn [trimStart]. destruct (isSpace c) eqn:E; [|reflexivity].
  now rewrite visible_cons, E.
Qed.

Lemma visible_trimEnd s : visible (trimEnd s) = visible s.
Proof.
  induction s as [|c t IH]; [reflexivity|].
  cbn [trimEnd]. rewrite (visible_cons c t), <- IH.
  destruct (trimEnd t) as [|x r].
  - destruct (isSpace c) eqn:E; [reflexivity|].
    now rewrite visible_cons, E.
  - now rewrite (visible_cons c (x :: r)).
Qed.

Lemma visible_replaceDash s :
  visible (replaceClass isDash 45 s) = replaceClass isDash 45 (visible s).
Proof.
  induction s as [|c t IH]; [reflexivity|].
  change (replaceClass isDash 45 (c :: t))
    with ((if isDash c then 45%N else c) :: replaceClass isDash 45 t).
  rewrite !visible_cons, IH. destruct (isDash c) eqn:Ed.
  - assert (Es : isSpace c = false) by (clear IH; classes).
    rewrite Es. change (isSpace 45) with false. cbn iota.
    unfold replaceClass. cbn [map]. now rewrite Ed.
  - destruct (isSpace c); [reflexivity|].
    unfold replaceClass. cbn [map]. now rewrite Ed.
Qed.

Lemma visible_removeClass p s :
  visible (removeClass p s) = removeClass p (visible s).
Proof.
  induction s as [|c t IH]; [reflexivity|].
  unfold removeClass in *. cbn [filter]. rewrite (visible_cons c t).
  destruct (p c) eqn:Ep; cbn [negb].
  - rewrite IH. destruct (isSpace c); [reflexivity|].
    cbn [filter]. now rewrite Ep.
  - rewrite visible_cons, IH. destruct (isSpace c); [reflexivity|].
    cbn [filter]. now rewrite Ep.
Qed.

Lemma replaceQuotes_fixed s :
  replaceClass isDoubleQuote 34 (replaceClass isApostrophe 39 s) = s.
Proof.
  rewrite (replaceClass_fixed isApostrophe 39 s).
  - apply replaceClass_fixed. apply Forall_forall. intros c _ Hc. classes.
  - apply Forall_forall. intros c _ Hc. classes.
Qed.

End VisibleUnits.

(** X8. [cleanOCRText] neither drops nor reorders what is visible: the
    units of its result that are not white space are those of the input
    that are neither white space nor control units, in the same order, with
    each en or em dash turned into a hyphen. *)
Theorem cleanOCRText_keeps_visible_units (x : jsstring) :
  visible (cleanOCRText x)
  = replaceClass isDash 45 (removeClass isControl (visible x)).
Proof.
  rewrite cleanOCRText_trim. unfold trim.
  rewrite visible_trimEnd, visible_trimStart. unfold replaceChain.
  rewrite !visible_insertSpaceBetween. unfold collapseSpaces.
  rewrite visible_collapseFrom, replaceQuotes_fixed.
  now rewrite visible_replaceDash, visible_removeClass.
Qed.

Section LineRecords.

Lemma numberFrom_In k pieces r :
  In r (numberFrom k pieces) <->
  exists i p, nth_error pieces i = Some p /\ r = mkLine (k + i + 1) (trim p).
Proof.
  revert k. induction pieces as [|q rest IH]; intros k; cbn [numberFrom In].
  - split; [tauto|]. intros (i & p & H & _). now destruct i.
  - rewrite IH. split.
    + intros [<-|(i & p & H & ->)].
      * exists 0, q. split; [reflexivity|]. f_equal. lia.
      * exists (S i), p. split; [exact H|]. f_equal. lia.
    + intros (i & p & H & ->). destruct i as [|i].
      * left. cbn in H. injection H as ->. f_equal. lia.
      * right. exists i, p. split; [exact H|]. f_equal. lia.
Qed.

Lemma numberFrom_sorted k pieces :
  StronglySorted lt (map line_number (numberFrom k pieces))
  /\ Forall (fun n => k < n) (map line_number (numberFrom k pieces)).
Proof.
  revert k. induction pieces as [|q rest IH]; intros k; cbn [numberFrom map].
  - split; constructor.
  - destruct (IH (S k)) as [Hs Hf]. cbn [line_number]. split.
    + constructor; [exact Hs|].
      eapply Forall_impl; [|exact Hf]. intros n Hn. cbn beta in Hn. lia.
    + constructor; [lia|].
      eapply Forall_impl; [|exact Hf]. intros n Hn. cbn beta in *. lia.
Qed.

Lemma filter_sorted (p : LineContext -> bool) l :
  StronglySorted lt (map line_number l) ->
  StronglySorted lt (map line_number (filter p l)).
Proof.
  induction l as [|x l IH]; cbn [map filter]; intros H; [constructor|].
  inversion H as [|? ? Hs Hf]; subst.
  destruct (p x); [|now apply IH].
  cbn [map]. constructor; [now apply IH|].
  rewrite Forall_forall in *. intros n Hn. apply Hf.
  apply in_map_iff in Hn. destruct Hn as (y & <- & Hy).
  apply filter_In in Hy. apply in_map. tauto.
Qed.

End LineRecords.

(** X9. The records of [splitDocumentIntoLines] are the lines of the text
    that are not blank once trimmed: each record holds a trimmed, non-empty
    line under its position in the text counted from 1, blank lines
    included in the count; every such line has its record; and the
    records come in the order of their line numbers. *)
Theorem splitDocumentIntoLines_records (doc : jsstring) :
  (forall r,
     In r (splitDocumentIntoLines doc) <->
     exists i p,
       nth_error (splitLines doc) i = Some p
       /\ trim p <> []
       /\ r = mkLine (S i) (trim p))
  /\ StronglySorted lt (map line_number (splitDocumentIntoLines doc)).
Proof.
  unfold splitDocumentIntoLines. split.
  - intros r. rewrite filter_In, numberFrom_In. split.
    + intros [(i & p & H & ->) Hne]. exists i, p. cbn [text] in Hne.
      repeat split; auto.
      * intros E. rewrite E in Hne. discriminate.
      * f_equal. lia.
    + intros (i & p & H & Hne & ->). split.
      * exists i, p. split; [exact H|]. f_equal. lia.
      * cbn [text]. now destruct (trim p).
  - apply filter_sorted, numberFrom_sorted.
Qed.

(* ================================================================== *)
(** * Further properties: import into the calendar *)
(* ================================================================== *)

Import DocumentProcessor Ledger Importing.

Section ImportRuns.

Variable h : Host.
Variable eventId : jsstring.

Lemma selectSingle_found db row :
  (forall m, hd_error (faults db) <> Some (Some m)) ->
  rowsOf eventId (extracted_events db) = [row] ->
  selectSingle eventId db
  = (Returned (Some row),
     mkDb (extracted_events db) (calendar_events db) (tl (faults db))
          (log db ++ [Selected eventId])).
Proof.
  intros Hfault Hrow. unfold selectSingle, send.
  destruct (faults db) as [|[m|] fl] eqn:Ef; cbn [hd_error tl] in *.
  - cbn [extracted_events]. unfold rowsOf in Hrow. now rewrite Hrow.
  - now elim (Hfault m).
  - cbn [extracted_events]. unfold rowsOf in Hrow. now rewrite Hrow.
Qed.

Lemma selectSingle_missing db :
  rowsOf eventId (extracted_events db) = []
  \/ (exists r1 r2 more, rowsOf eventId (extracted_events db) = r1 :: r2 :: more)
  \/ (exists m, hd_error (faults db) = Some (Some m)) ->
  selectSingle eventId db
  = (Returned None,
     mkDb (extracted_events db) (calendar_events db) (tl (faults db))
          (log db ++ [Selected eventId])).
Proof.
  intros H. unfold selectSingle, send.
  destruct (faults db) as [|[m|] fl] eqn:Ef; cbn [hd_error tl] in *;
    try reflexivity; cbn [extracted_events]; unfold rowsOf in H;
    destruct H as [H|[(r1 & r2 & more & H)|(m & H)]];
    try discriminate; now rewrite H.
Qed.

Lemma import_as_rows row db db1 :
  selectSingle eventId db = (Returned (Some row), db1) ->
  exists statement,
    (statement = InsertedMany (importedRows h eventId row)
     \/ exists c, statement = InsertedOne c /\ importedRows h eventId row = [c])
    /\ importEventToCalendar h eventId db
       = match faults db1 with
         | Some message :: rest =>
             (Thrown (if needsExpansion (metadataOf row)
                      then FailedToImportExpanded message
                      else FailedToImport message),
              mkDb (extracted_events db1) (calendar_events db1) rest
                   (log db1 ++ [statement]))
         | None :: Some message :: rest =>
             (Thrown (FailedToMark message),
              mkDb (extracted_events db1)
                   (calendar_events db1 ++ importedRows h eventId row) rest
                   ((log db1 ++ [statement]) ++ [MarkedImported eventId]))
         | rest =>
             (Returned (if needsExpansion (metadataOf row)
                        then Many (importedRows h eventId row)
                        else One (calendarRow row eventId
                                    (ExtractedEvent.event_date row))),
              mkDb (marked eventId (extracted_events db1))
                   (calendar_events db1 ++ importedRows h eventId row)
                   (tl (tl rest))
                   ((log db1 ++ [statement]) ++ [MarkedImported eventId]))
         end.
Proof.
  intros Hsel. unfold importedRows, metadataOf.
  destruct (needsExpansion
              match ExtractedEvent.metadata row with
              | Some m => m
              | None => StoredMetadata.empty
              end) eqn:Hneeds.
  - destruct (ExtractedEvent.metadata row) as [metadata|] eqn:Hmeta;
      [|discriminate].
    eexists. split; [left; reflexivity|].
    rewrite (import_range h eventId _ _ _ _ Hsel Hmeta Hneeds).
    destruct (faults db1) as [|[m1|] [|[m2|] fl]]; reflexivity.
  - eexists. split; [right; eexists; split; reflexivity|].
    rewrite (import_single h eventId _ _ _ Hsel Hneeds).
    destruct (faults db1) as [|[m1|] [|[m2|] fl]]; reflexivity.
Qed.

End ImportRuns.

(** X10. An import of an id that no staged row carries, or that several
    carry, or whose select fails, throws the fetch error and does nothing
    else: no insert and no mark is sent, and both tables are as they
    were. *)
Theorem import_of_unknown_event
    (h : Host) (eventId : jsstring) (db : Db) :
  rowsOf eventId (extracted_events db) = []
  \/ (exists r1 r2 more, rowsOf eventId (extracted_events db) = r1 :: r2 :: more)
  \/ (exists m, hd_error (faults db) = Some (Some m)) ->
  importEventToCalendar h eventId db
  = (Thrown FailedToFetch,
     mkDb (extracted_events db) (calendar_events db) (tl (faults db))
          (log db ++ [Selected eventId])).
Proof.
  intros H. unfold importEventToCalendar, bind.
  now rewrite (selectSingle_missing eventId db H).
Qed.

Lemma import_of_unknown_event_witness :
  let db := mkDb [stagedMondays; stagedExam] [] [] [] in
  importEventToCalendar UTC (units "evt-9") db
  = (Thrown FailedToFetch,
     mkDb [stagedMondays; stagedExam] [] [] [Selected (units "evt-9")]).
Proof.
  intros db.
  apply (import_of_unknown_event UTC (units "evt-9") db).
  left. reflexivity.
Defined.

Section CleanImport.

Variable h : Host.
Variable eventId : jsstring.

Lemma importedRows_fields row c :
  In c (importedRows h eventId row) ->
  CalendarEvent.user_id c = ExtractedEvent.user_id row
  /\ CalendarEvent.source c = EXTRACTED
  /\ CalendarEvent.source_id c = eventId
  /\ CalendarEvent.title c = ExtractedEvent.title row
  /\ CalendarEvent.description c = ExtractedEvent.description row
  /\ CalendarEvent.start_time c = ExtractedEvent.start_time row
  /\ CalendarEvent.end_time c = ExtractedEvent.end_time row
  /\ CalendarEvent.location c = ExtractedEvent.location row
  /\ CalendarEvent.category c = ExtractedEvent.category row
  /\ CalendarEvent.priority c = ExtractedEvent.priority row
  /\ CalendarEvent.is_completed c = false.
Proof.
  unfold importedRows, expanding.
  destruct (needsExpansion (metadataOf row)).
  - intros Hc. apply in_map_iff in Hc. destruct Hc as (d & <- & _).
    cbn. repeat split.
  - intros [<-|[]]. cbn. repeat split.
Qed.

Lemma importedRows_setImported row :
  importedRows h eventId (setImported row) = importedRows h eventId row.
Proof. reflexivity. Qed.

Lemma marked_twice rows :
  marked eventId (marked eventId rows) = marked eventId rows.
Proof.
  unfold marked. rewrite map_map. apply map_ext. intros r.
  destruct (eqUnits (ExtractedEvent.id r) eventId) eqn:E.
  - cbn [setImported ExtractedEvent.id]. now rewrite E.
  - now rewrite E.
Qed.

Lemma rowsOf_marked rows :
  rowsOf eventId (marked eventId rows)
  = map setImported (rowsOf eventId rows).
Proof.
  unfold rowsOf, marked. induction rows as [|r rows IH]; [reflexivity|].
  cbn [map filter]. destruct (eqUnits (ExtractedEvent.id r) eventId) eqn:E.
  - cbn [setImported ExtractedEvent.id]. rewrite E. cbn [map]. now rewrite IH.
  - now rewrite E, IH.
Qed.

Lemma import_clean_run row db :
  faults db = [] ->
  rowsOf eventId (extracted_events db) = [row] ->
  exists statement,
    importEventToCalendar h eventId db
    = (Returned (if needsExpansion (metadataOf row)
                 then Many (importedRows h eventId row)
                 else One (calendarRow row eventId (ExtractedEvent.event_date row))),
       mkDb (marked eventId (extracted_events db))
            (calendar_events db ++ importedRows h eventId row)
            []
            (log db ++ [Selected eventId; statement; MarkedImported eventId]))
    /\ marks [statement] = 0.
Proof.
  intros Hf Hrow.
  assert (Hsel := selectSingle_found eventId db row).
  rewrite Hf in Hsel. cbn [hd_error tl] in Hsel.
  specialize (Hsel ltac:(discriminate) Hrow).
  destruct (import_as_rows h eventId row db _ Hsel) as (statement & Hst & E).
  exists statement. rewrite E. cbn [faults tl extracted_events calendar_events log].
  split; [now rewrite <- !app_assoc|].
  destruct Hst as [->|(c & -> & _)]; reflexivity.
Qed.

End CleanImport.

(** X11. With a database that works and one staged row under the id, the
    import inserts the calendar rows of that row, one for a single event
    and one per date of the expansion for a range, after the rows the
    calendar held; every inserted row has the user, title, description,
    times, place, category and priority of the staged row, the source
    ['extracted'], the id of the staged row as [source_id], and is not
    completed; the rows of the staging table under the id are marked
    imported by one statement, and the table is otherwise as it was. *)
Theorem import_inserts_and_marks
    (h : Host) (eventId : jsstring) (row : ExtractedEvent.t) (db : Db) :
  faults db = [] ->
  rowsOf eventId (extracted_events db) = [row] ->
  exists result db',
    importEventToCalendar h eventId db = (Returned result, db')
    /\ calendar_events db' = calendar_events db ++ importedRows h eventId row
    /\ extracted_events db' = marked eventId (extracted_events db)
    /\ marks (log db') = S (marks (log db))
    /\ Forall (fun c =>
                 CalendarEvent.user_id c = ExtractedEvent.user_id row
                 /\ CalendarEvent.source c = EXTRACTED
                 /\ CalendarEvent.source_id c = eventId
                 /\ CalendarEvent.title c = ExtractedEvent.title row
                 /\ CalendarEvent.description c = ExtractedEvent.description row
                 /\ CalendarEvent.start_time c = ExtractedEvent.start_time row
                 /\ CalendarEvent.end_time c = ExtractedEvent.end_time row
                 /\ CalendarEvent.location c = ExtractedEvent.location row
                 /\ CalendarEvent.category c = ExtractedEvent.category row
                 /\ CalendarEvent.priority c = ExtractedEvent.priority row
                 /\ CalendarEvent.is_completed c = false)
              (importedRows h eventId row)
    /\ (needsExpansion (metadataOf row) = false ->
        importedRows h eventId row
        = [calendarRow row eventId (ExtractedEvent.event_date row)]).
Proof.
  intros Hf Hrow.
  destruct (import_clean_run h eventId row db Hf Hrow) as (statement & E & Hm).
  eexists _, _. split; [exact E|]. cbn [calendar_events extracted_events log].
  repeat split.
  - rewrite marks_app.
    change [Selected eventId; statement; MarkedImported eventId]
      with ([Selected eventId] ++ [statement] ++ [MarkedImported eventId]).
    rewrite !marks_app, Hm. cbn. lia.
  - apply Forall_forall. intros c Hc.
    exact (importedRows_fields h eventId row c Hc).
  - intros Hn. unfold importedRows. now rewrite Hn.
Qed.

Lemma import_inserts_and_marks_witness :
  let db := mkDb [stagedMondays; stagedExam] [] [] [] in
  exists result db',
    importEventToCalendar eastHost (units "evt-2") db = (Returned result, db')
    /\ calendar_events db'
       = calendar_events db ++ importedRows eastHost (units "evt-2") stagedExam
    /\ extracted_events db' = marked (units "evt-2") (extracted_events db)
    /\ marks (log db') = S (marks (log db))
    /\ Forall (fun c =>
                 CalendarEvent.user_id c = ExtractedEvent.user_id stagedExam
                 /\ CalendarEvent.source c = EXTRACTED
                 /\ CalendarEvent.source_id c = units "evt-2"
                 /\ CalendarEvent.title c = ExtractedEvent.title stagedExam
                 /\ CalendarEvent.description c
                    = ExtractedEvent.description stagedExam
                 /\ CalendarEvent.start_time c
                    = ExtractedEvent.start_time stagedExam
                 /\ CalendarEvent.end_time c = ExtractedEvent.end_time stagedExam
                 /\ CalendarEvent.location c = ExtractedEvent.location stagedExam
                 /\ CalendarEvent.category c = ExtractedEvent.category stagedExam
                 /\ CalendarEvent.priority c = ExtractedEvent.priority stagedExam
                 /\ CalendarEvent.is_completed c = false)
              (importedRows eastHost (units "evt-2") stagedExam)
    /\ (needsExpansion (metadataOf stagedExam) = false ->
        importedRows eastHost (units "evt-2") stagedExam
        = [calendarRow stagedExam (units "evt-2")
             (ExtractedEvent.event_date stagedExam)]).
Proof.
  intros db.
  apply (import_inserts_and_marks eastHost (units "evt-2") stagedExam db).
  - reflexivity.
  - reflexivity.
Defined.

(** X12. The import does not roll back: when the select and the insert go
    through and the update that marks the staged row fails, the import
    throws the error of the mark, the calendar keeps the rows just
    inserted, and the staged row is still not marked. *)
Theorem failed_mark_keeps_inserted_rows
    (h : Host) (eventId : jsstring) (row : ExtractedEvent.t) (db : Db)
    (message : jsstring) (rest : list (option jsstring)) :
  faults db = None :: None :: Some message :: rest ->
  rowsOf eventId (extracted_events db) = [row] ->
  exists db',
    importEventToCalendar h eventId db = (Thrown (FailedToMark message), db')
    /\ calendar_events db' = calendar_events db ++ importedRows h eventId row
    /\ extracted_events db' = extracted_events db
    /\ faults db' = rest.
Proof.
  intros Hf Hrow.
  assert (Hsel := selectSingle_found eventId db row).
  rewrite Hf in Hsel. cbn [hd_error tl] in Hsel.
  specialize (Hsel ltac:(discriminate) Hrow).
  destruct (import_as_rows h eventId row db _ Hsel) as (statement & _ & E).
  rewrite E. cbn [faults]. eexists. split; [reflexivity|].
  cbn. repeat split.
Qed.

Lemma failed_mark_keeps_inserted_rows_witness :
  let db := mkDb [stagedMondays; stagedExam] []
                 [None; None; Some (units "timeout")] [] in
  exists db',
    importEventToCalendar UTC (units "evt-1") db
    = (Thrown (FailedToMark (units "timeout")), db')
    /\ calendar_events db'
       = calendar_events db ++ importedRows UTC (units "evt-1") stagedMondays
    /\ extracted_events db' = extracted_events db
    /\ faults db' = [].
Proof.
  intros db.
  apply (failed_mark_keeps_inserted_rows UTC (units "evt-1") stagedMondays db
           (units "timeout") []).
  - reflexivity.
  - reflexivity.
Defined.

(** X13. The import does not look at [is_imported]: importing an event
    that was imported before inserts its calendar rows once more, after
    the first ones, and leaves the staging table as the first import left
    it. *)
Theorem second_import_inserts_again
    (h : Host) (eventId : jsstring) (row : ExtractedEvent.t) (db : Db) :
  faults db = [] ->
  rowsOf eventId (extracted_events db) = [row] ->
  exists result db1 db2,
    importEventToCalendar h eventId db = (Returned result, db1)
    /\ importEventToCalendar h eventId db1 = (Returned result, db2)
    /\ calendar_events db2
       = (calendar_events db ++ importedRows h eventId row)
           ++ importedRows h eventId row
    /\ extracted_events db2 = extracted_events db1.
Proof.
  intros Hf Hrow.
  destruct (import_clean_run h eventId row db Hf Hrow) as (s1 & E1 & _).
  set (db1 := mkDb (marked eventId (extracted_events db))
                   (calendar_events db ++ importedRows h eventId row) []
                   (log db ++ [Selected eventId; s1; MarkedImported eventId])) in *.
  assert (Hrow1 : rowsOf eventId (extracted_events db1) = [setImported row])
    by (subst db1; cbn [extracted_events]; now rewrite rowsOf_marked, Hrow).
  destruct (import_clean_run h eventId (setImported row) db1 eq_refl Hrow1)
    as (s2 & E2 & _).
  eexists _, db1, _. split; [exact E1|]. split; [exact E2|].
  cbn [calendar_events extracted_events]. split; [reflexivity|].
  subst db1. cbn [extracted_events]. apply marked_twice.
Qed.

Lemma second_import_inserts_again_witness :
  let db := mkDb [stagedMondays; stagedExam] [] [] [] in
  exists result db1 db2,
    importEventToCalendar UTC (units "evt-2") db = (Returned result, db1)
    /\ importEventToCalendar UTC (units "evt-2") db1 = (Returned result, db2)
    /\ calendar_events db2
       = (calendar_events db ++ importedRows UTC (units "evt-2") stagedExam)
           ++ importedRows UTC (units "evt-2") stagedExam
    /\ extracted_events db2 = extracted_events db1.
Proof.
  intros db.
  apply (second_import_inserts_again UTC (units "evt-2") stagedExam db).
  - reflexivity.
  - reflexivity.
Defined.

Section OtherEvents.

Lemma eqUnits_eq a b : eqUnits a b = true <-> a = b.
Proof.
  revert b. induction a as [|x a IH]; intros [|y b]; cbn [eqUnits];
    try (split; [discriminate | discriminate]); [tauto|].
  rewrite andb_true_iff, N.eqb_eq, IH. split.
  - now intros [-> ->].
  - now intros [= -> ->].
Qed.

Lemma rowsOf_marked_other eventId other rows :
  other <> eventId ->
  rowsOf other (marked eventId rows) = rowsOf other rows.
Proof.
  intros Hne. unfold rowsOf, marked.
  induction rows as [|r rows IH]; [reflexivity|]. cbn [map filter].
  destruct (eqUnits (ExtractedEvent.id r) eventId) eqn:E.
  - apply eqUnits_eq in E. cbn [setImported ExtractedEvent.id].
    destruct (eqUnits (ExtractedEvent.id r) other) eqn:E'.
    + apply eqUnits_eq in E'. congruence.
    + exact IH.
  - now rewrite IH.
Qed.

End OtherEvents.

(** X14. Whatever the staging table holds and whichever statements fail,
    an import changes no staged row of another id, adds no staged row and
    removes none. *)
Theorem import_leaves_other_events
    (h : Host) (eventId other : jsstring) (db : Db) :
  other <> eventId ->
  rowsOf other (extracted_events (snd (importEventToCalendar h eventId db)))
  = rowsOf other (extracted_events db)
  /\ List.length (extracted_events (snd (importEventToCalendar h eventId db)))
     = List.length (extracted_events db).
Proof.
  intros Hne.
  destruct (selectSingle eventId db) as [[[row|]|e] db1] eqn:Hsel.
  - pose proof (selectSingle_world _ _ _ _ Hsel) as Hdb1.
    destruct (import_as_rows h eventId row db db1 Hsel) as (statement & _ & E).
    rewrite E. subst db1. cbn [faults extracted_events].
    destruct (tl (faults db)) as [|[m1|] [|[m2|] fl]];
      cbn [snd extracted_events]; auto;
      (split; [now apply rowsOf_marked_other | apply length_map]).
  - pose proof (selectSingle_world _ _ _ _ Hsel) as Hdb1.
    unfold importEventToCalendar, bind. rewrite Hsel. subst db1. cbn. auto.
  - exfalso. unfold selectSingle, send in Hsel.
    destruct (match faults db with [] => None | f :: _ => f end);
      [discriminate|].
    cbn [extracted_events] in Hsel.
    destruct (filter _ (extracted_events db)) as [|r [|r' l]]; discriminate.
Qed.

Lemma import_leaves_other_events_witness :
  let db := mkDb [stagedMondays; stagedExam] [] [None; None; Some (units "x")] [] in
  rowsOf (units "evt-2")
    (extracted_events (snd (importEventToCalendar UTC (units "evt-1") db)))
  = rowsOf (units "evt-2") (extracted_events db)
  /\ List.length
       (extracted_events (snd (importEventToCalendar UTC (units "evt-1") db)))
     = List.length (extracted_events db).
Proof.
  intros db.
  apply (import_leaves_other_events UTC (units "evt-1") (units "evt-2") db).
  discriminate.
Defined.

(* ================================================================== *)
(** * Further properties of the expansion *)
(* ================================================================== *)

Section Days.

Local Open Scope Z_scope.

Lemma daysFrom_lt s n : Forall (fun t => s < t) (daysFrom (s + msPerDay) n).
Proof.
  rewrite Forall_forall. intros t Ht. apply daysFrom_In in Ht.
  destruct Ht as (k & Hk & ->). unfold msPerDay. lia.
Qed.

Lemma daysFrom_sorted s n : StronglySorted Z.lt (daysFrom s n).
Proof.
  revert s. induction n as [|n IH]; intros s; cbn [daysFrom]; constructor.
  - apply IH.
  - apply daysFrom_lt.
Qed.

Lemma filter_increasing (p : Z -> bool) l :
  StronglySorted Z.lt l -> StronglySorted Z.lt (filter p l).
Proof.
  induction l as [|x l IH]; cbn [filter]; intros H; [constructor|].
  inversion H as [|? ? Hs Hf]; subst.
  destruct (p x); [|now apply IH].
  constructor; [now apply IH|].
  rewrite Forall_forall in *. intros t Ht. apply Hf.
  apply filter_In in Ht. tauto.
Qed.

(** The days that the loop visits: the start and every whole day after it
    up to the end. *)
Lemma daysFrom_range s e t :
  In t (daysFrom s (daysBetween s e))
  <-> s <= t <= e /\ (t - s) mod msPerDay = 0.
Proof.
  rewrite daysFrom_In. unfold daysBetween.
  assert (Hd : 0 < msPerDay) by (unfold msPerDay; lia).
  split.
  - intros (k & Hk & ->).
    replace (s + k * msPerDay - s) with (k * msPerDay) by lia.
    rewrite Z.mod_mul by lia. split; [|reflexivity].
    assert (0 <= (e - s) / msPerDay + 1) by lia.
    rewrite Z2Nat.id in Hk by assumption.
    assert (k <= (e - s) / msPerDay) by lia.
    assert (msPerDay * ((e - s) / msPerDay) <= e - s)
      by (apply Z.mul_div_le; lia).
    nia.
  - intros [[Hs He] Hm]. exists ((t - s) / msPerDay).
    apply Z.div_exact in Hm; [|lia].
    assert (0 <= (t - s) / msPerDay) by (apply Z.div_pos; lia).
    assert ((t - s) / msPerDay <= (e - s) / msPerDay)
      by (apply Z.div_le_mono; lia).
    rewrite Z2Nat.id by lia. split; lia.
Qed.

Lemma includes_app l1 l2 d :
  includes (l1 ++ l2) d = includes l1 d || includes l2 d.
Proof. unfold includes. apply existsb_app. Qed.

End Days.

Section DayList.

Lemma split_app sep a b :
  split sep (a ++ sep :: b) = split sep a ++ split sep b.
Proof.
  induction a as [|c a IH]; cbn [app split].
  - now rewrite N.eqb_refl.
  - rewrite IH. destruct (c =? sep)%N; [reflexivity|].
    destruct (split sep a) as [|p r] eqn:E; [|reflexivity].
    destruct a; cbn [split] in E; [discriminate|].
    destruct (_ =? _)%N; [discriminate|].
    destruct (split sep a); discriminate.
Qed.

Lemma toLowerCase_app a b :
  toLowerCase (a ++ COMMA :: b) = toLowerCase a ++ COMMA :: toLowerCase b.
Proof. unfold toLowerCase. now rewrite map_app. Qed.

Lemma defined_app l1 l2 : defined (l1 ++ l2) = defined l1 ++ defined l2.
Proof.
  induction l1 as [|[v|] l1 IH]; cbn [app defined]; [reflexivity| |exact IH].
  now rewrite IH.
Qed.

(** The day list is read name by name. *)
Lemma parseDaysOfWeek_app a b :
  parseDaysOfWeek (a ++ COMMA :: b) = parseDaysOfWeek a ++ parseDaysOfWeek b.
Proof.
  unfold parseDaysOfWeek.
  now rewrite toLowerCase_app, split_app, !map_app, defined_app.
Qed.

(** The expansion reads the day list as a set. *)
Lemma expandDates_same_days h a b d1 d2 :
  (forall d, includes (parseDaysOfWeek d1) d = includes (parseDaysOfWeek d2) d) ->
  expandDates h a b d1 = expandDates h a b d2.
Proof.
  intros Hsame. unfold expandDates.
  destruct (newDate a) as [s|], (newDate b) as [e|];
    try (destruct (parseDaysOfWeek d1), (parseDaysOfWeek d2); reflexivity).
  assert (Hwalk : walkDays (daysBetween s e) h (parseDaysOfWeek d1) s e
                  = walkDays (daysBetween s e) h (parseDaysOfWeek d2) s e).
  { rewrite !walkDays_filter by lia. apply filter_ext. intros t. apply Hsame. }
  destruct (parseDaysOfWeek d1) as [|x l1] eqn:E1,
           (parseDaysOfWeek d2) as [|y l2] eqn:E2; try reflexivity.
  - rewrite <- Hwalk, walkDays_filter by lia.
    replace (filter _ _) with (@nil Z); [reflexivity|].
    symmetry. induction (daysFrom s (daysBetween s e)); [reflexivity|].
    assumption.
  - rewrite Hwalk, walkDays_filter by lia.
    replace (filter _ _) with (@nil Z); [reflexivity|].
    symmetry. induction (daysFrom s (daysBetween s e)); [reflexivity|].
    assumption.
  - now rewrite Hwalk.
Qed.

End DayList.

(** X15. A range that the materialiser stores for a later expansion is
    expanded by the import into the events that the expansion of the edge
    function would have made of the same result on the same host: the same
    titles and the same dates, in the same order. *)
Theorem import_expands_as_the_edge_function_would
    (h : Host) (e : EdgeFunction.LineExtraction.t)
    (rowId documentId userId eventId : jsstring) :
  EdgeFunction.isDeferredRange e = true ->
  exists ev,
    EdgeFunction.convertLineEventsToExtractedEvents [e] = [ev]
    /\ map (fun c => (CalendarEvent.title c, CalendarEvent.event_date c))
           (importedRows h eventId
              (Staging.storedRow rowId (EdgeFunction.mkRow ev documentId userId)))
       = map (fun x => (EdgeFunction.ExtractedEvent.title x,
                        EdgeFunction.ExtractedEvent.event_date x))
             (EdgeFunction.expandDateRangeWithDays h e).
Proof.
  intros Hrange.
  destruct (deferred_has_start e Hrange) as (T1 & T2 & T3 & Hflag).
  rewrite convert_single. unfold EdgeFunction.convertLineEvent.
  rewrite T1, Hrange. cbn [negb andb]. eexists. split; [reflexivity|].
  unfold EdgeFunction.expandDateRangeWithDays. rewrite Hrange. cbn [negb].
  unfold importedRows, metadataOf, Staging.storedRow, Staging.storedMetadata,
    needsExpansion, expanding.
  cbn [ExtractedEvent.metadata StoredMetadata.is_range_with_day
       StoredMetadata.normalized_date StoredMetadata.normalized_end_date
       StoredMetadata.day_of_week EdgeFunction.row_event
       EdgeFunction.ExtractedEvent.metadata
       EdgeFunction.Metadata.is_range_with_day
       EdgeFunction.Metadata.normalized_date
       EdgeFunction.Metadata.normalized_end_date
       EdgeFunction.Metadata.day_of_week EdgeFunction.flag flag].
  rewrite T1, T2, T3. cbn [andb].
  rewrite !map_map. apply map_ext. intros d. reflexivity.
Qed.

Lemma import_expands_as_the_edge_function_would_witness :
  exists ev,
    EdgeFunction.convertLineEventsToExtractedEvents [mondays] = [ev]
    /\ map (fun c => (CalendarEvent.title c, CalendarEvent.event_date c))
           (importedRows westHost (units "evt-1")
              (Staging.storedRow (units "evt-1")
                 (EdgeFunction.mkRow ev (units "doc-1") (units "user-1"))))
       = map (fun x => (EdgeFunction.ExtractedEvent.title x,
                        EdgeFunction.ExtractedEvent.event_date x))
             (EdgeFunction.expandDateRangeWithDays westHost mondays).
Proof.
  apply (import_expands_as_the_edge_function_would westHost mondays
           (units "evt-1") (units "doc-1") (units "user-1") (units "evt-1")).
  reflexivity.
Defined.

(** X16. On a host whose zone is at UTC or east of it, by a fixed offset
    of less than a day, the expansion of a range of two date-only strings
    prints exactly the days from the start to the end, both included,
    whose weekday is listed, each once and in ascending order. *)
Theorem expansion_east_of_utc_is_exact
    (h : Host) (startDateStr endDateStr dayOfWeekStr : jsstring) (s e : Z) :
  (0 <= utcOffsetMinutes h < 1440)%Z ->
  newDate startDateStr = Some s ->
  newDate endDateStr = Some e ->
  exists days,
    expandDates h startDateStr endDateStr dayOfWeekStr = map toISODate days
    /\ StronglySorted Z.lt days
    /\ forall t,
         In t days
         <-> (s <= t <= e)%Z /\ ((t - s) mod msPerDay = 0)%Z
             /\ includes (parseDaysOfWeek dayOfWeekStr) (WeekDay t) = true.
Proof.
  intros Hoff Hs He. eexists. split; [|split].
  - exact (expandDates_east h _ _ dayOfWeekStr s e Hs He Hoff).
  - apply filter_increasing, daysFrom_sorted.
  - intros t. rewrite filter_In, daysFrom_range. tauto.
Qed.

Lemma expansion_east_of_utc_is_exact_witness :
  exists days,
    expandDates eastHost (units "2025-11-03") (units "2025-11-17")
      (units "Monday") = map toISODate days
    /\ StronglySorted Z.lt days
    /\ forall t,
         In t days
         <-> (1762128000000 <= t <= 1763337600000)%Z
             /\ ((t - 1762128000000) mod msPerDay = 0)%Z
             /\ includes (parseDaysOfWeek (units "Monday")) (WeekDay t) = true.
Proof.
  apply (expansion_east_of_utc_is_exact eastHost
           (units "2025-11-03") (units "2025-11-17") (units "Monday")
           1762128000000 1763337600000).
  - cbn. lia.
  - reflexivity.
  - reflexivity.
Defined.

(** X17. On a host whose zone is west of UTC, by a fixed offset of at most
    a day, the expansion prints the days of the range whose day before has
    a listed weekday: every date comes out one day late. *)
Theorem expansion_west_of_utc_is_a_day_late
    (h : Host) (startDateStr endDateStr dayOfWeekStr : jsstring) (s e : Z) :
  (-1440 <= utcOffsetMinutes h < 0)%Z ->
  newDate startDateStr = Some s ->
  newDate endDateStr = Some e ->
  exists days,
    expandDates h startDateStr endDateStr dayOfWeekStr = map toISODate days
    /\ StronglySorted Z.lt days
    /\ forall t,
         In t days
         <-> (s <= t <= e)%Z /\ ((t - s) mod msPerDay = 0)%Z
             /\ includes (parseDaysOfWeek dayOfWeekStr)
                         (WeekDay (t - msPerDay)) = true.
Proof.
  intros Hoff Hs He. eexists. split; [|split].
  - exact (expandDates_west h _ _ dayOfWeekStr s e Hs He Hoff).
  - apply filter_increasing, daysFrom_sorted.
  - intros t. rewrite filter_In, daysFrom_range. tauto.
Qed.

Lemma expansion_west_of_utc_is_a_day_late_witness :
  exists days,
    expandDates westHost (units "2025-11-03") (units "2025-11-17")
      (units "Monday") = map toISODate days
    /\ StronglySorted Z.lt days
    /\ forall t,
         In t days
         <-> (1762128000000 <= t <= 1763337600000)%Z
             /\ ((t - 1762128000000) mod msPerDay = 0)%Z
             /\ includes (parseDaysOfWeek (units "Monday"))
                         (WeekDay (t - msPerDay)) = true.
Proof.
  apply (expansion_west_of_utc_is_a_day_late westHost
           (units "2025-11-03") (units "2025-11-17") (units "Monday")
           1762128000000 1763337600000).
  - cbn. lia.
  - reflexivity.
  - reflexivity.
Defined.

(** X18. The day list is read as a set of names separated by commas: the
    order in which two lists of names are given does not change the
    expansion, on any host, and naming a list twice gives the dates
    once. *)
Theorem expansion_reads_the_days_as_a_set
    (h : Host) (startDateStr endDateStr a b : jsstring) :
  expandDates h startDateStr endDateStr (a ++ COMMA :: b)
  = expandDates h startDateStr endDateStr (b ++ COMMA :: a)
  /\ expandDates h startDateStr endDateStr (a ++ COMMA :: a)
     = expandDates h startDateStr endDateStr a.
Proof.
  split; apply expandDates_same_days; intros d;
    rewrite !parseDaysOfWeek_app, !includes_app.
  - apply orb_comm.
  - apply orb_diag.
Qed.

(** X19. A range whose end lies before its start gives no date, on any
    host and for any day list. *)
Theorem expansion_of_a_reversed_range
    (h : Host) (startDateStr endDateStr dayOfWeekStr : jsstring) (s e : Z) :
  newDate startDateStr = Some s ->
  newDate endDateStr = Some e ->
  (e < s)%Z ->
  expandDates h startDateStr endDateStr dayOfWeekStr = [].
Proof.
  intros Hs He Hlt.
  rewrite (expandDates_local h _ _ dayOfWeekStr s e Hs He).
  now rewrite (daysBetween_after s e Hlt).
Qed.

Lemma expansion_of_a_reversed_range_witness :
  expandDates westHost (units "2025-11-17") (units "2025-11-03")
    (units "Monday") = [].
Proof.
  apply (expansion_of_a_reversed_range westHost
           (units "2025-11-17") (units "2025-11-03") (units "Monday")
           1763337600000 1762128000000).
  - reflexivity.
  - reflexivity.
  - lia.
Defined.

(* ================================================================== *)
(** * The dates that the expansion parses and prints *)
(* ================================================================== *)

Section CivilDates.

Local Open Scope Z_scope.

Lemma yoe_recovered yoe doy :
  0 <= yoe < 400 -> 0 <= doy <= 365 ->
  (doy = 365 -> (yoe + 1) mod 4 = 0 /\ ((yoe + 1) mod 100 <> 0 \/ yoe = 399)) ->
  let doe := yoe * 365 + yoe / 4 - yoe / 100 + doy in
  (doe - doe / 1460 + doe / 36524 - doe / 146096) / 365 = yoe
  /\ 0 <= doe < 146097.
Proof.
  intros Hy Hd Hleap doe. subst doe.
  Z.div_mod_to_equations. lia.
Qed.

Lemma civil_of_era era yoe doy :
  0 <= yoe < 400 -> 0 <= doy <= 365 ->
  (doy = 365 -> (yoe + 1) mod 4 = 0 /\ ((yoe + 1) mod 100 <> 0 \/ yoe = 399)) ->
  civilFromDays (era * 146097 + (yoe * 365 + yoe / 4 - yoe / 100 + doy) - 719468)
  = let mp := (5 * doy + 2) / 153 in
    let d := doy - (153 * mp + 2) / 5 + 1 in
    let m := if mp <? 10 then mp + 3 else mp - 9 in
    let y := yoe + era * 400 in
    (if m <=? 2 then y + 1 else y, m, d).
Proof.
  intros Hy Hd Hleap.
  destruct (yoe_recovered yoe doy Hy Hd Hleap) as [Hyoe Hdoe].
  cbv zeta in Hyoe, Hdoe. unfold civilFromDays.
  set (doe := yoe * 365 + yoe / 4 - yoe / 100 + doy) in *.
  replace (era * 146097 + doe - 719468 + 719468) with (era * 146097 + doe) by lia.
  assert (E : (era * 146097 + doe) / 146097 = era).
  { rewrite Z.div_add_l by lia. rewrite Z.div_small by lia. lia. }
  cbv zeta. rewrite E.
  replace (era * 146097 + doe - era * 146097) with doe by lia.
  rewrite Hyoe.
  replace (doe - (365 * yoe + yoe / 4 - yoe / 100)) with doy by (subst doe; lia).
  reflexivity.
Qed.

(** The day number of a date of the calendar gives the date back. *)
Lemma civil_round_trip y m d :
  1 <= m <= 12 -> 1 <= d <= daysInMonth y m ->
  civilFromDays (daysFromCivil y m d) = (y, m, d).
Proof.
  intros Hm Hd. unfold daysFromCivil. cbv zeta.
  set (y' := if m <=? 2 then y - 1 else y).
  set (mp := if 2 <? m then m - 3 else m + 9).
  assert (Hyoe : 0 <= y' - y' / 400 * 400 < 400)
    by (Z.div_mod_to_equations; lia).
  set (era := y' / 400) in *. set (yoe := y' - era * 400) in *.
  assert (Hdoy : 0 <= (153 * mp + 2) / 5 + d - 1 <= 365
                 /\ ((153 * mp + 2) / 5 + d - 1 = 365 ->
                     (yoe + 1) mod 4 = 0 /\ ((yoe + 1) mod 100 <> 0 \/ yoe = 399))
                 /\ (5 * ((153 * mp + 2) / 5 + d - 1) + 2) / 153 = mp
                 /\ 0 <= mp <= 11).
  { unfold daysInMonth, isLeapYear in Hd. subst mp yoe era y'.
    assert (Hc : m = 1 \/ m = 2 \/ m = 3 \/ m = 4 \/ m = 5 \/ m = 6 \/ m = 7
                 \/ m = 8 \/ m = 9 \/ m = 10 \/ m = 11 \/ m = 12) by lia.
    repeat (destruct Hc as [-> | Hc]); [.. | subst m];
      repeat match goal with
             | H : context [if ?b then _ else _] |- _ => destruct b eqn:?
             | |- context [if ?b then _ else _] => destruct b eqn:?
             end;
      rewrite ?andb_true_iff, ?andb_false_iff, ?orb_true_iff, ?orb_false_iff,
        ?negb_true_iff, ?negb_false_iff, ?Z.eqb_eq, ?Z.eqb_neq,
        ?Z.leb_le, ?Z.leb_gt, ?Z.ltb_lt, ?Z.ltb_ge in *;
      try lia; Z.div_mod_to_equations; lia. }
  destruct Hdoy as (H1 & H2 & H3 & H4).
  rewrite (civil_of_era era yoe _ Hyoe H1 H2). cbv zeta. rewrite H3.
  subst mp yoe y'.
  destruct (Z.ltb_spec 2 m), (Z.leb_spec m 2); try lia.
  - destruct (Z.ltb_spec (m - 3) 10).
    + destruct (Z.leb_spec (m - 3 + 3) 2); try lia. f_equal; [f_equal|]; lia.
    + lia.
  - destruct (Z.ltb_spec (m + 9) 10); try lia.
    destruct (Z.leb_spec (m + 9 - 9) 2); try lia. f_equal; [f_equal|]; lia.
Qed.

Lemma digitValue_unit c v :
  digitValue c = Some v -> 0 <= v <= 9 /\ Z.to_N (48 + v) = c.
Proof.
  unfold digitValue. destruct (isDigit c) eqn:E; [|discriminate].
  intros [= <-]. unfold isDigit in E. apply inRange_spec in E. lia.
Qed.

Lemma digits_two a b v :
  digitsValue 0 [a; b] = Some v -> pad2 v = [a; b] /\ 0 <= v <= 99.
Proof.
  cbn [digitsValue].
  destruct (digitValue a) as [x|] eqn:Ea; [|discriminate].
  destruct (digitValue b) as [y|] eqn:Eb; [|discriminate].
  intros [= <-].
  apply digitValue_unit in Ea, Eb. destruct Ea as [Hx <-], Eb as [Hy <-].
  unfold pad2, digitUnit. split; [|lia].
  f_equal; [|f_equal]; f_equal; f_equal; Z.div_mod_to_equations; lia.
Qed.

Lemma digits_four a b c d v :
  digitsValue 0 [a; b; c; d] = Some v ->
  pad4 v = [a; b; c; d] /\ 0 <= v <= 9999.
Proof.
  cbn [digitsValue].
  destruct (digitValue a) as [x|] eqn:Ea; [|discriminate].
  destruct (digitValue b) as [y|] eqn:Eb; [|discriminate].
  destruct (digitValue c) as [z|] eqn:Ec; [|discriminate].
  destruct (digitValue d) as [u|] eqn:Ed; [|discriminate].
  intros [= <-].
  apply digitValue_unit in Ea, Eb, Ec, Ed.
  destruct Ea as [Hx <-], Eb as [Hy <-], Ec as [Hz <-], Ed as [Hu <-].
  unfold pad4, digitUnit. split; [|lia].
  set (v := ((x * 10 + y) * 10 + z) * 10 + u).
  assert (E1 : (v / 1000) mod 10 = x)
    by (subst v; Z.div_mod_to_equations; lia).
  assert (E2 : (v / 100) mod 10 = y)
    by (subst v; Z.div_mod_to_equations; lia).
  assert (E3 : (v / 10) mod 10 = z)
    by (subst v; Z.div_mod_to_equations; lia).
  assert (E4 : v mod 10 = u)
    by (subst v; Z.div_mod_to_equations; lia).
  now rewrite E1, E2, E3, E4.
Qed.

(** [new Date(s).toISOString().split('T')[0]] is [s] for a date-only
    string [s] that names a day of the calendar. *)
Lemma toISODate_newDate s t :
  newDate s = Some t -> isCalendarDate s = true -> toISODate t = s.
Proof.
  unfold newDate, isCalendarDate. intros H V.
  destruct s as [|y1 [|y2 [|y3 [|y4 [|c1 [|m1 [|m2 [|c2 [|d1 [|d2 [|]]]]]]]]]]];
    cbv beta iota in H; try discriminate H;
    (destruct c1 as [|p]; cbv beta iota in H; [discriminate H|];
     do 6 (try (destruct p as [p|p|]; cbv beta iota in H; try discriminate H)));
    (destruct c2 as [|p]; cbv beta iota in H; [discriminate H|];
     do 6 (try (destruct p as [p|p|]; cbv beta iota in H; try discriminate H))).
  cbv beta iota in V.
  destruct (digitsValue 0 [y1; y2; y3; y4]) as [y|] eqn:Ey; [|discriminate].
  destruct (digitsValue 0 [m1; m2]) as [m|] eqn:Em; [|discriminate].
  destruct (digitsValue 0 [d1; d2]) as [d|] eqn:Ed; [|discriminate].
  destruct ((1 <=? m) && (m <=? 12) && (1 <=? d) && (d <=? 31));
    [|discriminate].
  injection H as <-.
  rewrite !andb_true_iff, !Z.leb_le in V.
  apply digits_four in Ey. apply digits_two in Em, Ed.
  destruct Ey as [Py Hy], Em as [Pm _], Ed as [Pd _].
  unfold toISODate, Day.
  rewrite Z.div_mul by (unfold msPerDay; lia).
  rewrite civil_round_trip by lia.
  destruct (Z.leb_spec 0 y), (Z.leb_spec y 9999); try lia.
  cbn [andb]. now rewrite Py, Pm, Pd.
Qed.

End CivilDates.

Example day_that_the_month_does_not_have :
  isCalendarDate (units "2025-02-29") = false
  /\ expandDates UTC (units "2025-02-29") (units "2025-02-29")
       (units "Saturday")
     = [units "2025-03-01"].
Proof. vm_compute. split; reflexivity. Qed.

(** X20. A range of one day, given as a date-only string that parses,
    expands to the one date that the parsed day prints as when the weekday
    that the host reads for it is listed, and to nothing otherwise.  The
    printed date is the given string whenever the string names a day that
    its month has; a day that the month does not have runs over, and the
    date of the next month is printed.  A host at UTC or east of it reads
    the weekday of the parsed day, a host west of it the weekday of the
    day before. *)
Theorem expansion_of_a_single_day
    (h : Host) (dateStr dayOfWeekStr : jsstring) (t : Z) :
  newDate dateStr = Some t ->
  expandDates h dateStr dateStr dayOfWeekStr
  = (if includes (parseDaysOfWeek dayOfWeekStr) (getDay h t)
     then [toISODate t] else [])
  /\ (isCalendarDate dateStr = true -> toISODate t = dateStr)
  /\ ((0 <= utcOffsetMinutes h < 1440)%Z -> getDay h t = WeekDay t)
  /\ ((-1440 <= utcOffsetMinutes h < 0)%Z ->
      getDay h t = WeekDay (t - msPerDay)).
Proof.
  intros Ht. pose proof (newDate_midnight _ _ Ht) as Hmid.
  split; [|split; [|split]].
  - rewrite (expandDates_local h _ _ dayOfWeekStr t t Ht Ht).
    unfold daysBetween. rewrite Z.sub_diag.
    change (Z.to_nat (0 / msPerDay + 1)) with 1%nat. cbn [daysFrom filter].
    now destruct (includes _ _).
  - now apply toISODate_newDate.
  - intros Hoff. now apply getDay_east.
  - intros Hoff. now apply getDay_west.
Qed.

Lemma expansion_of_a_single_day_witness :
  expandDates westHost (units "2025-02-29") (units "2025-02-29")
    (units "fri, sat")
  = (if includes (parseDaysOfWeek (units "fri, sat"))
                 (getDay westHost 1740787200000)
     then [toISODate 1740787200000] else [])
  /\ (isCalendarDate (units "2025-02-29") = true ->
      toISODate 1740787200000 = units "2025-02-29")
  /\ ((0 <= utcOffsetMinutes westHost < 1440)%Z ->
      getDay westHost 1740787200000 = WeekDay 1740787200000)
  /\ ((-1440 <= utcOffsetMinutes westHost < 0)%Z ->
      getDay westHost 1740787200000 = WeekDay (1740787200000 - msPerDay)).
Proof.
  apply (expansion_of_a_single_day westHost (units "2025-02-29")
           (units "fri, sat") 1740787200000).
  reflexivity.
Defined.

(* ================================================================== *)
(** * The filter of candidate lines *)
(* ================================================================== *)

Import CandidateFilter Candidates.

Example candidate_lines :
  map (fun s => test dateRegex (units s))
    ["Nov 3, 2025"; "NOVEMBER 12 party"; "3 Nov"; "2025-11-03"; "3/4 cup";
     "Market 5"; "Jan 1,2025"]%string
  = [true; true; true; true; true; true; true]
  /\ map (fun s => test dateRegex (units s))
       ["x2025-11-03"; "2025-11-033"; "dismay 5"; "Nov3"; "May 2025";
        "3 jan_"; "Mar 5th"; ""]%string
     = [false; false; false; false; false; false; false; false].
Proof. vm_compute. split; reflexivity. Qed.

Section Matching.

Variable Q : N -> Prop.

Lemma counts_rest k : forall rest least most before p,
  Forall Q rest -> In p (counts k least most before rest) -> Forall Q (snd p).
Proof.
  induction rest as [|c t IH]; intros least most before p Hrest Hin;
    cbn [counts] in Hin; apply in_app_or in Hin; destruct Hin as [Hin|Hin].
  - destruct least; [|contradiction]. destruct Hin as [<-|[]]. exact Hrest.
  - contradiction.
  - destruct least; [|contradiction]. destruct Hin as [<-|[]]. exact Hrest.
  - destruct (holds k c && allows most); [|contradiction].
    inversion Hrest; subst. eapply IH; eauto.
Qed.

Lemma matchFrom_rest r : forall p q,
  Forall Q (snd p) -> In q (matchFrom r p) -> Forall Q (snd q).
Proof.
  induction r as [|k least most|a IHa b IHb|a IHa b IHb|a IHa];
    intros p q Hp Hin; cbn [matchFrom] in Hin.
  - destruct (atBoundary p); [|contradiction].
    destruct Hin as [<-|[]]. exact Hp.
  - eapply counts_rest; eauto.
  - apply in_flat_map in Hin. destruct Hin as (m & Hm & Hq).
    eapply IHb; [|exact Hq]. eapply IHa; eauto.
  - apply in_app_or in Hin. destruct Hin; [eapply IHa | eapply IHb]; eauto.
  - apply in_app_or in Hin. destruct Hin as [Hin|[<-|[]]]; [|exact Hp].
    eapply IHa; eauto.
Qed.

End Matching.

Section Digits.

Lemma flat_map_nothing {A B} (f : A -> list B) l :
  (forall x, In x l -> f x = []) -> flat_map f l = [].
Proof.
  induction l as [|x l IH]; intros H; [reflexivity|]. cbn [flat_map].
  rewrite (H x) by now left. apply IH. intros y Hy. apply H. now right.
Qed.

Lemma matchFrom_needs_digit r : forall p,
  needsDigit r = true ->
  Forall (fun c => isDigit c = false) (snd p) ->
  matchFrom r p = [].
Proof.
  induction r as [|k least most|a IHa b IHb|a IHa b IHb|a IHa];
    intros [before s] Hneeds Hp; cbn [needsDigit matchFrom fst snd] in *;
    try discriminate.
  - destruct k; try discriminate. destruct least as [|n]; [discriminate|].
    destruct s as [|c t]; [reflexivity|]. cbn [counts app holds].
    inversion Hp as [|? ? Hc _]; subst. now rewrite Hc.
  - apply orb_true_iff in Hneeds. destruct Hneeds as [Ha|Hb].
    + now rewrite IHa.
    + apply flat_map_nothing. intros q Hq. apply IHb; [exact Hb|].
      exact (matchFrom_rest _ a (before, s) q Hp Hq).
  - apply andb_true_iff in Hneeds. destruct Hneeds as [Ha Hb].
    now rewrite IHa, IHb.
Qed.

Lemma search_needs_digit r s : forall before,
  needsDigit r = true ->
  Forall (fun c => isDigit c = false) s ->
  search r before s = false.
Proof.
  induction s as [|c t IH]; intros before Hneeds Hs; cbn [search];
    unfold matches; rewrite matchFrom_needs_digit by assumption.
  - reflexivity.
  - inversion Hs; subst. now apply IH.
Qed.

End Digits.

(** X21. No line without a digit passes the filter: every candidate line
    holds at least one digit. *)
Theorem candidate_lines_hold_a_digit (lines : list LineContext) :
  Forall (fun l => exists c, In c (text l) /\ isDigit c = true)
         (candidateLines lines).
Proof.
  unfold candidateLines. rewrite Forall_forall. intros l Hl.
  apply filter_In in Hl. destruct Hl as [_ Htest].
  destruct (existsb isDigit (text l)) eqn:E.
  - apply existsb_exists in E. exact E.
  - exfalso. unfold test in Htest.
    rewrite search_needs_digit in Htest; [discriminate|reflexivity|].
    rewrite Forall_forall. intros c Hc.
    destruct (isDigit c) eqn:D; [|reflexivity].
    assert (existsb isDigit (text l) = true)
      by (apply existsb_exists; eauto).
    congruence.
Qed.

Section Case.

Lemma toLowerCase_map s : toLowerCase s = map lowerUnit s.
Proof. reflexivity. Qed.

Lemma holds_lowerUnit k c :
  caseless k = true -> holds k (lowerUnit c) = holds k c.
Proof.
  unfold lowerUnit. destruct (isUpper c) eqn:U; [|reflexivity].
  intros Hk. unfold isUpper in U. apply inRange_spec in U.
  destruct k as [| | |l|u]; cbn [holds caseless] in *.
  - transitivity false; [|symmetry];
      (destruct (isDigit _) eqn:E; [exfalso; classes | reflexivity]).
  - transitivity false; [|symmetry];
      (destruct (isSpace _) eqn:E; [exfalso; classes | reflexivity]).
  - transitivity true; [|symmetry];
      (destruct (isLetter _) eqn:E; [reflexivity | exfalso; classes]).
  - unfold isLower in Hk. apply inRange_spec in Hk.
    destruct (N.eqb_spec (c + 32) l), (N.eqb_spec (c + 32) (l - 32)),
      (N.eqb_spec c l), (N.eqb_spec c (l - 32)); cbn [orb];
      try reflexivity; exfalso; lia.
  - apply negb_true_iff in Hk.
    destruct (N.eqb_spec (c + 32) u), (N.eqb_spec c u);
      try reflexivity; exfalso; subst u; classes.
Qed.

Lemma isWord_lowerUnit c : isWord (lowerUnit c) = isWord c.
Proof.
  unfold isWord. rewrite (holds_lowerUnit Letter c eq_refl : isLetter _ = _).
  rewrite (holds_lowerUnit Digit c eq_refl : isDigit _ = _).
  rewrite (holds_lowerUnit (Unit 95) c eq_refl : (_ =? 95)%N = _).
  reflexivity.
Qed.

Lemma atBoundary_lower p : atBoundary (lowerPosition p) = atBoundary p.
Proof.
  destruct p as [[b|] [|c t]]; unfold atBoundary; cbn;
    now rewrite ?isWord_lowerUnit.
Qed.

Lemma counts_lower k : caseless k = true -> forall rest least most before,
  counts k least most (option_map lowerUnit before) (map lowerUnit rest)
  = map lowerPosition (counts k least most before rest).
Proof.
  intros Hk. induction rest as [|c t IH]; intros least most before;
    cbn [counts map]; rewrite map_app.
  - destruct least; reflexivity.
  - rewrite (holds_lowerUnit k c Hk).
    destruct (holds k c && allows most).
    + pose proof (IH (pred least) (option_map pred most) (Some c)) as Ht.
      cbn [option_map] in Ht. rewrite Ht. destruct least; reflexivity.
    + destruct least; reflexivity.
Qed.

Lemma matchFrom_lower r : ignoresCase r = true -> forall p,
  matchFrom r (lowerPosition p) = map lowerPosition (matchFrom r p).
Proof.
  induction r as [|k least most|a IHa b IHb|a IHa b IHb|a IHa];
    cbn [ignoresCase matchFrom]; intros Hr p.
  - rewrite atBoundary_lower. now destruct (atBoundary p).
  - destruct p as [b s]. now apply counts_lower.
  - apply andb_true_iff in Hr. destruct Hr as [Ha Hb].
    rewrite (IHa Ha). rewrite flat_map_concat_map, map_map.
    rewrite (map_ext _ _ (IHb Hb)).
    rewrite flat_map_concat_map, concat_map, map_map. reflexivity.
  - apply andb_true_iff in Hr. destruct Hr as [Ha Hb].
    now rewrite map_app, IHa, IHb.
  - now rewrite map_app, IHa.
Qed.

Lemma matches_lower r p :
  ignoresCase r = true -> matches r (lowerPosition p) = matches r p.
Proof.
  intros Hr. unfold matches. rewrite (matchFrom_lower r Hr).
  now destruct (matchFrom r p).
Qed.

Lemma search_lower r : ignoresCase r = true -> forall s before,
  search r (option_map lowerUnit before) (map lowerUnit s) = search r before s.
Proof.
  intros Hr. induction s as [|c t IH]; intros before; cbn [search map];
    apply (f_equal2 orb).
  - exact (matches_lower r (before, []) Hr).
  - reflexivity.
  - exact (matches_lower r (before, c :: t) Hr).
  - exact (IH (Some c)).
Qed.

End Case.

(** X22. The filter does not tell the two cases of an ASCII letter apart:
    a text and the same text with its ASCII letters in lower case are
    candidates together or not at all. *)
Theorem candidates_ignore_the_case (s : jsstring) :
  test dateRegex (toLowerCase s) = test dateRegex s.
Proof.
  unfold test. rewrite toLowerCase_map.
  exact (search_lower dateRegex eq_refl s None).
Qed.

Section Found.

Lemma unitBefore_cons before c pre :
  unitBefore before (c :: pre) = unitBefore (Some c) pre.
Proof.
  unfold unitBefore. cbn [rev]. destruct (rev pre); reflexivity.
Qed.

Lemma unitBefore_app before pre c :
  unitBefore before (pre ++ [c]) = Some c.
Proof. unfold unitBefore. now rewrite rev_app_distr. Qed.

Lemma search_here r s before :
  matches r (before, s) = true -> search r before s = true.
Proof. intros H. destruct s; cbn [search]; now rewrite H. Qed.

Lemma search_later r pre : forall before s,
  matches r (unitBefore before pre, s) = true ->
  search r before (pre ++ s) = true.
Proof.
  induction pre as [|c t IH]; intros before s H.
  - now apply search_here.
  - cbn [app search]. rewrite unitBefore_cons in H.
    rewrite (IH (Some c) s H). apply orb_true_r.
Qed.

Lemma matches_In r p q : In q (matchFrom r p) -> matches r p = true.
Proof. unfold matches. now destruct (matchFrom r p). Qed.

Lemma Seq_In a b p m q :
  In m (matchFrom a p) -> In q (matchFrom b m) -> In q (matchFrom (Seq a b) p).
Proof. intros Hm Hq. cbn [matchFrom]. apply in_flat_map. eauto. Qed.

(** A run of exactly the units [run] of the class. *)
Lemma counts_exactly k run : forall before rest,
  Forall (fun c => holds k c = true) run ->
  In (unitBefore before run, rest)
     (counts k (List.length run) (Some (List.length run)) before (run ++ rest)).
Proof.
  induction run as [|c t IH]; intros before rest Hrun.
  - destruct rest; cbn; now left.
  - inversion Hrun as [|? ? Hc Ht]; subst.
    cbn [List.length app counts]. rewrite Hc. cbn [andb allows app pred option_map].
    rewrite unitBefore_cons. apply IH, Ht.
Qed.

End Found.

(** X23. A text that holds a date of the form [YYYY-MM-DD], with no word
    unit right before it and none right after it, is a candidate. *)
Theorem iso_dates_are_candidates
    (pre post : jsstring) (y1 y2 y3 y4 m1 m2 d1 d2 : N) :
  Forall (fun c => isDigit c = true) [y1; y2; y3; y4; m1; m2; d1; d2] ->
  wordAt (unitBefore None pre) = false ->
  wordAt (hd_error post) = false ->
  test dateRegex
    (pre ++ [y1; y2; y3; y4; HYPHEN; m1; m2; HYPHEN; d1; d2] ++ post)
  = true.
Proof.
  intros Hdigits Hpre Hpost.
  rewrite !Forall_cons_iff in Hdigits.
  destruct Hdigits as (Hy1 & Hy2 & Hy3 & Hy4 & Hm1 & Hm2 & Hd1 & Hd2 & _).
  unfold test. apply search_later.
  set (b := unitBefore None pre) in *.
  assert (Hword : forall c, isDigit c = true -> isWord c = true)
    by (intros c Hc; unfold isWord; rewrite Hc, orb_true_r; reflexivity).
  apply (matches_In _ _ (Some d2, post)).
  unfold dateRegex. cbn [matchFrom]. apply in_or_app. right.
  apply in_or_app. right. apply in_or_app. left.
  unfold isoDate, digitsBetween, one.
  apply (Seq_In _ _ _ (b, [y1; y2; y3; y4; HYPHEN; m1; m2; HYPHEN; d1; d2] ++ post)).
  { cbn [matchFrom app]. unfold atBoundary. cbn [fst snd hd_error wordAt].
    rewrite Hpre, (Hword y1) by assumption. now left. }
  apply (Seq_In _ _ _ (Some y4, [HYPHEN; m1; m2; HYPHEN; d1; d2] ++ post)).
  { exact (counts_exactly Digit [y1; y2; y3; y4] b _
             ltac:(repeat constructor; assumption)). }
  apply (Seq_In _ _ _ (Some HYPHEN, [m1; m2; HYPHEN; d1; d2] ++ post)).
  { exact (counts_exactly (Unit HYPHEN) [HYPHEN] (Some y4) _
             ltac:(repeat constructor)). }
  apply (Seq_In _ _ _ (Some m2, [HYPHEN; d1; d2] ++ post)).
  { exact (counts_exactly Digit [m1; m2] (Some HYPHEN) _
             ltac:(repeat constructor; assumption)). }
  apply (Seq_In _ _ _ (Some HYPHEN, [d1; d2] ++ post)).
  { exact (counts_exactly (Unit HYPHEN) [HYPHEN] (Some m2) _
             ltac:(repeat constructor)). }
  apply (Seq_In _ _ _ (Some d2, post)).
  { exact (counts_exactly Digit [d1; d2] (Some HYPHEN) _
             ltac:(repeat constructor; assumption)). }
  cbn [matchFrom]. unfold atBoundary. cbn [fst snd wordAt].
  rewrite Hpost, (Hword d2) by assumption. now left.
Qed.

Lemma iso_dates_are_candidates_witness :
  test dateRegex
    (units "Due: "
     ++ [50; 48; 50; 53; HYPHEN; 49; 49; HYPHEN; 48; 51]%N
     ++ units ", noon")
  = true.
Proof.
  apply (iso_dates_are_candidates (units "Due: ") (units ", noon")
           50 48 50 53 49 49 48 51).
  - repeat constructor.
  - reflexivity.
  - reflexivity.
Defined.

(* ================================================================== *)
(** * Documents and their files *)
(* ================================================================== *)

Import DocumentFiles OneByOne.

Example decimal_of_a_clock_reading :
  decimal 1762128000123 = units "1762128000123"
  /\ decimal 0 = units "0" /\ decimal 1000 = units "1000".
Proof. vm_compute. repeat split. Qed.

Example path_of_an_upload :
  storagePath 1762128000123
    (File.mk (units "syllabus.v2.pdf") (units "application/pdf") 1024)
    (units "user-1")
  = units "user-1/1762128000123.pdf".
Proof. vm_compute. reflexivity. Qed.

Section Pieces.

Variable sep : N.

Lemma split_not_empty s : split sep s <> [].
Proof.
  destruct s as [|c t]; cbn [split]; [discriminate|].
  destruct (c =? sep)%N; [discriminate|].
  destruct (split sep t); discriminate.
Qed.

Lemma split_clear s : Forall (fun piece => ~ In sep piece) (split sep s).
Proof.
  induction s as [|c t IH]; cbn [split].
  - constructor; [tauto | constructor].
  - destruct (N.eqb_spec c sep) as [->|Hne].
    + constructor; [tauto | exact IH].
    + destruct (split sep t) as [|p r].
      * constructor; [|constructor]. cbn [In]. intros [E|[]]. congruence.
      * inversion IH as [|? ? Hp Hr]; subst. constructor; [|exact Hr].
        cbn [In]. intros [E|E]; [congruence | tauto].
Qed.

Lemma join_split s : join sep (split sep s) = s.
Proof.
  induction s as [|c t IH]; [reflexivity|]. cbn [split].
  destruct (N.eqb_spec c sep) as [->|Hne].
  - pose proof (split_not_empty t) as Hne.
    destruct (split sep t) as [|p r]; [congruence|].
    cbn [join app] in *. now rewrite IH.
  - pose proof (split_not_empty t) as Hne'.
    destruct (split sep t) as [|p r]; [congruence|].
    destruct r; cbn [join app] in *; now rewrite <- IH.
Qed.

Lemma join_last pieces p :
  pieces <> [] ->
  exists stem, join sep (pieces ++ [p]) = stem ++ sep :: p.
Proof.
  induction pieces as [|q r IH]; [congruence|]. intros _.
  destruct r as [|q' r].
  - exists q. reflexivity.
  - destruct IH as (stem & E); [discriminate|].
    exists (q ++ sep :: stem). cbn [app join] in *.
    rewrite E. now rewrite <- app_assoc.
Qed.

End Pieces.

Section Paths.

Lemma member_false_filter path l :
  member path l = false ->
  filter (fun p => negb (member p [path])) (l ++ [path]) = l.
Proof.
  unfold member. intros H. rewrite filter_app. cbn [filter existsb].
  replace (eqUnits path path) with true
    by (symmetry; now apply eqUnits_eq).
  cbn [orb negb]. rewrite app_nil_r.
  induction l as [|p l IH]; [reflexivity|]. cbn [existsb filter] in *.
  apply orb_false_iff in H. destruct H as [H1 H2].
  destruct (eqUnits p path) eqn:E.
  - apply eqUnits_eq in E. subst p.
    assert (eqUnits path path = true) by now apply eqUnits_eq. congruence.
  - cbn [orb negb]. now rewrite IH.
Qed.

Lemma filter_none {A} (p : A -> bool) l :
  (forall x, In x l -> p x = false) -> filter (fun x => negb (p x)) l = l.
Proof.
  induction l as [|x l IH]; intros H; [reflexivity|]. cbn [filter].
  rewrite (H x) by now left. cbn [negb]. rewrite IH; [reflexivity|].
  intros y Hy. apply H. now right.
Qed.

Lemma filter_nothing {A} (p : A -> bool) l :
  (forall x, In x l -> p x = false) -> filter p l = [].
Proof.
  induction l as [|x l IH]; intros H; [reflexivity|]. cbn [filter].
  rewrite (H x) by now left. apply IH. intros y Hy. apply H. now right.
Qed.

Lemma member_filter x (q : jsstring -> bool) l :
  member x (filter q l) = q x && member x l.
Proof.
  unfold member. induction l as [|p l IH].
  - cbn. now rewrite andb_false_r.
  - cbn [filter existsb]. destruct (eqUnits x p) eqn:E.
    + apply eqUnits_eq in E. subst p. destruct (q x) eqn:Q.
      * cbn [existsb]. replace (eqUnits x x) with true
          by (symmetry; now apply eqUnits_eq). reflexivity.
      * rewrite IH. reflexivity.
    + destruct (q p); cbn [existsb orb]; rewrite ?E; exact IH.
Qed.

End Paths.

(** X24. The extension that the upload gives the stored file is the part
    of the file name after its last dot, and the whole name when the name
    has no dot; it never holds a dot. *)
Theorem fileExtension_after_the_last_dot (file : File.t) :
  ~ In DOT (fileExtension file)
  /\ ((~ In DOT (File.name file) /\ fileExtension file = File.name file)
      \/ exists stem, File.name file = stem ++ DOT :: fileExtension file).
Proof.
  unfold fileExtension, pop.
  pose proof (split_clear DOT (File.name file)) as Hclear.
  pose proof (join_split DOT (File.name file)) as Hjoin.
  destruct (exists_last (split_not_empty DOT (File.name file)))
    as (pieces & ext & E).
  rewrite E in *. rewrite last_last.
  apply Forall_app in Hclear. destruct Hclear as [_ Hext].
  inversion Hext as [|? ? Hno _]; subst. split; [exact Hno|].
  destruct pieces as [|q r].
  - left. cbn [app join] in Hjoin. rewrite <- Hjoin. split; [exact Hno|reflexivity].
  - right. destruct (join_last DOT (q :: r) ext) as (stem & Es); [discriminate|].
    exists stem. now rewrite <- Hjoin.
Qed.

(** X25. When the file is stored and the record of the document is
    refused, the upload asks the storage to remove the file again and
    throws the error of the record, whatever the removal answers: the
    table is unchanged, and the bucket is as before when the removal goes
    through and keeps the file when it does not. *)
Theorem failed_record_removes_the_upload
    (now : N) (generated : jsstring) (file : File.t) (userId : jsstring)
    (st : Store) (message : jsstring) (rest : list (option jsstring)) :
  faults st = None :: Some message :: rest ->
  member (storagePath now file userId) (objects st) = false ->
  exists st',
    uploadDocument now generated file userId st
    = (Thrown (FailedToCreateRecord message), st')
    /\ documents st' = documents st
    /\ objects st'
       = match faultAfter 0 rest with
         | None => objects st
         | Some _ => objects st ++ [storagePath now file userId]
         end
    /\ log st'
       = log st
           ++ [Uploaded (storagePath now file userId);
               InsertedDocument
                 (Document.mk generated userId (File.name file)
                    (File.type file) (File.size file)
                    (storagePath now file userId) PENDING 0);
               Removed [storagePath now file userId]].
Proof.
  intros Hf Hfree.
  unfold uploadDocument, bind, storageUpload, send. rewrite Hf.
  cbn [tl objects documents extracted_events faults log]. rewrite Hfree.
  unfold insertDocument, send.
  cbn [tl objects documents extracted_events faults log].
  unfold storageRemove, send, throw, faultAfter.
  cbn [tl objects documents extracted_events faults log nth_error].
  destruct rest as [|[m|] rest']; cbn [tl objects documents log];
    eexists; (split; [reflexivity|]);
    cbn [objects documents log]; rewrite <- !app_assoc; cbn [app];
    repeat split.
  - now apply member_false_filter.
  - now apply member_false_filter.
Qed.

Lemma failed_record_removes_the_upload_witness :
  let file := File.mk (units "plan.pdf") (units "application/pdf") 1024 in
  let st := mkStore [units "user-1/1.pdf"] [] []
                    [None; Some (units "violates check"); Some (units "timeout")]
                    [] in
  exists st',
    uploadDocument 1762128000123 (units "doc-9") file (units "user-1") st
    = (Thrown (FailedToCreateRecord (units "violates check")), st')
    /\ documents st' = documents st
    /\ objects st'
       = match faultAfter 0 [Some (units "timeout")] with
         | None => objects st
         | Some _ =>
             objects st ++ [storagePath 1762128000123 file (units "user-1")]
         end
    /\ log st'
       = log st
           ++ [Uploaded (storagePath 1762128000123 file (units "user-1"));
               InsertedDocument
                 (Document.mk (units "doc-9") (units "user-1") (File.name file)
                    (File.type file) (File.size file)
                    (storagePath 1762128000123 file (units "user-1"))
                    PENDING 0);
               Removed [storagePath 1762128000123 file (units "user-1")]].
Proof.
  intros file st.
  apply (failed_record_removes_the_upload 1762128000123 (units "doc-9") file
           (units "user-1") st (units "violates check")
           [Some (units "timeout")]).
  - reflexivity.
  - reflexivity.
Defined.

(** X26. An upload followed by the deletion of the document it returns
    leaves the bucket, the table of documents and the staged events as
    they were, when no request is refused, the path is free and the
    generated id is new. *)
Theorem upload_then_delete_restores_the_store
    (now : N) (generated : jsstring) (file : File.t) (userId : jsstring)
    (st : Store) :
  faults st = [] ->
  member (storagePath now file userId) (objects st) = false ->
  (forall d, In d (documents st) ->
             eqUnits (Document.id d) generated = false) ->
  (forall r, In r (extracted_events st) ->
             eqUnits (DocumentProcessor.ExtractedEvent.document_id r) generated
             = false) ->
  exists document st1 st2,
    uploadDocument now generated file userId st = (Returned document, st1)
    /\ objects st1 = objects st ++ [Document.storage_path document]
    /\ documents st1 = documents st ++ [document]
    /\ deleteDocument (Document.id document) st1 = (Returned tt, st2)
    /\ objects st2 = objects st
    /\ documents st2 = documents st
    /\ extracted_events st2 = extracted_events st.
Proof.
  intros Hf Hfree Hnew Hevents.
  unfold uploadDocument, bind, storageUpload, send. rewrite Hf.
  cbn [tl objects documents extracted_events faults log]. rewrite Hfree.
  unfold insertDocument, send, ret.
  cbn [tl objects documents extracted_events faults log].
  eexists _, _, _. split; [reflexivity|].
  cbn [objects documents Document.storage_path Document.id].
  split; [reflexivity|]. split; [reflexivity|].
  unfold deleteDocument, bind, selectStoragePath, send.
  cbn [tl objects documents extracted_events faults log].
  rewrite filter_app. cbn [filter Document.id].
  rewrite (filter_nothing _ _ Hnew).
  replace (eqUnits generated generated) with true
    by (symmetry; now apply eqUnits_eq).
  cbn [app Document.storage_path].
  unfold storageRemove, send, ret, deleteDocumentRow.
  cbn [tl objects documents extracted_events faults log].
  split; [reflexivity|].
  cbn [objects documents extracted_events]. repeat split.
  - now apply member_false_filter.
  - rewrite filter_app. cbn [filter Document.id].
    replace (eqUnits generated generated) with true
      by (symmetry; now apply eqUnits_eq).
    cbn [negb]. rewrite app_nil_r.
    apply (filter_none (fun d => eqUnits (Document.id d) generated)), Hnew.
  - apply (filter_none
             (fun r => eqUnits (DocumentProcessor.ExtractedEvent.document_id r)
                               generated)), Hevents.
Qed.

Lemma upload_then_delete_restores_the_store_witness :
  let file := File.mk (units "plan.pdf") (units "application/pdf") 1024 in
  let st := mkStore [units "user-1/1.pdf"]
                    [Document.mk (units "doc-1") (units "user-1")
                       (units "old.pdf") (units "application/pdf") 10
                       (units "user-1/1.pdf") (units "completed") 100]
                    [stagedMondays; stagedExam] [] [] in
  exists document st1 st2,
    uploadDocument 1762128000123 (units "doc-9") file (units "user-1") st
    = (Returned document, st1)
    /\ objects st1 = objects st ++ [Document.storage_path document]
    /\ documents st1 = documents st ++ [document]
    /\ deleteDocument (Document.id document) st1 = (Returned tt, st2)
    /\ objects st2 = objects st
    /\ documents st2 = documents st
    /\ extracted_events st2 = extracted_events st.
Proof.
  intros file st.
  apply (upload_then_delete_restores_the_store 1762128000123 (units "doc-9")
           file (units "user-1") st).
  - reflexivity.
  - reflexivity.
  - intros d [<-|[]]. reflexivity.
  - intros r [<-|[<-|[]]]; reflexivity.
Defined.

(** X27. A refusal of the storage does not stop the deletion of a
    document: the error is written to the console, the record and the
    staged events of the document are deleted, the call returns, and the
    file stays in the bucket. *)
Theorem storage_failure_does_not_stop_the_deletion
    (documentId : jsstring) (document : Document.t) (st : Store)
    (message : jsstring) (rest : list (option jsstring)) :
  faults st = None :: Some message :: rest ->
  faultAfter 0 rest = None ->
  filter (fun d => eqUnits (Document.id d) documentId) (documents st)
  = [document] ->
  exists st',
    deleteDocument documentId st = (Returned tt, st')
    /\ objects st' = objects st
    /\ documents st'
       = filter (fun d => negb (eqUnits (Document.id d) documentId))
                (documents st)
    /\ extracted_events st'
       = filter (fun r => negb (eqUnits
                                  (DocumentProcessor.ExtractedEvent.document_id r)
                                  documentId))
                (extracted_events st)
    /\ log st'
       = log st ++ [SelectedPath documentId;
                    Removed [Document.storage_path document];
                    ConsoleError message;
                    DeletedDocument documentId].
Proof.
  intros Hf Hnext Hrow.
  unfold deleteDocument, bind, selectStoragePath, send. rewrite Hf.
  cbn [tl objects documents extracted_events faults log]. rewrite Hrow.
  unfold storageRemove, send, consoleError, deleteDocumentRow.
  cbn [tl objects documents extracted_events faults log].
  unfold faultAfter in Hnext.
  destruct rest as [|[m|] rest']; cbn [nth_error] in Hnext;
    try discriminate; cbn [tl objects documents extracted_events faults log];
    eexists; (split; [reflexivity|]);
    cbn [objects documents extracted_events log];
    rewrite <- !app_assoc; repeat split.
Qed.

Lemma storage_failure_does_not_stop_the_deletion_witness :
  let document := Document.mk (units "doc-1") (units "user-1")
                    (units "old.pdf") (units "application/pdf") 10
                    (units "user-1/1.pdf") (units "completed") 100 in
  let st := mkStore [units "user-1/1.pdf"] [document]
                    [stagedMondays; stagedExam]
                    [None; Some (units "storage is down")] [] in
  exists st',
    deleteDocument (units "doc-1") st = (Returned tt, st')
    /\ objects st' = objects st
    /\ documents st'
       = filter (fun d => negb (eqUnits (Document.id d) (units "doc-1")))
                (documents st)
    /\ extracted_events st'
       = filter (fun r => negb (eqUnits
                                  (DocumentProcessor.ExtractedEvent.document_id r)
                                  (units "doc-1")))
                (extracted_events st)
    /\ log st'
       = log st ++ [SelectedPath (units "doc-1");
                    Removed [Document.storage_path document];
                    ConsoleError (units "storage is down");
                    DeletedDocument (units "doc-1")].
Proof.
  intros document st.
  apply (storage_failure_does_not_stop_the_deletion (units "doc-1") document st
           (units "storage is down") []).
  - reflexivity.
  - reflexivity.
  - reflexivity.
Defined.

(** X28. The deletion of a document removes the file before it deletes
    the record and does not put it back: when the record cannot be
    deleted, the call throws the error of that request, the record and the
    staged events stay, and the file is gone. *)
Theorem failed_deletion_has_removed_the_file
    (documentId : jsstring) (document : Document.t) (st : Store)
    (message : jsstring) (rest : list (option jsstring)) :
  faults st = None :: None :: Some message :: rest ->
  filter (fun d => eqUnits (Document.id d) documentId) (documents st)
  = [document] ->
  exists st',
    deleteDocument documentId st
    = (Thrown (FailedToDeleteDocument message), st')
    /\ documents st' = documents st
    /\ extracted_events st' = extracted_events st
    /\ member (Document.storage_path document) (objects st') = false
    /\ forall path,
         eqUnits path (Document.storage_path document) = false ->
         member path (objects st') = member path (objects st).
Proof.
  intros Hf Hrow.
  unfold deleteDocument, bind, selectStoragePath, send. rewrite Hf.
  cbn [tl objects documents extracted_events faults log]. rewrite Hrow.
  unfold storageRemove, send, ret, deleteDocumentRow, throw.
  cbn [tl objects documents extracted_events faults log].
  eexists. split; [reflexivity|].
  cbn [objects documents extracted_events]. repeat split.
  - rewrite member_filter. unfold member at 1. cbn [existsb].
    replace (eqUnits (Document.storage_path document)
                     (Document.storage_path document)) with true
      by (symmetry; now apply eqUnits_eq).
    reflexivity.
  - intros path Hpath. rewrite member_filter. unfold member at 1.
    cbn [existsb]. now rewrite Hpath.
Qed.

Lemma failed_deletion_has_removed_the_file_witness :
  let document := Document.mk (units "doc-1") (units "user-1")
                    (units "old.pdf") (units "application/pdf") 10
                    (units "user-1/1.pdf") (units "completed") 100 in
  let st := mkStore [units "user-1/1.pdf"; units "user-1/2.pdf"] [document]
                    [stagedMondays; stagedExam]
                    [None; None; Some (units "timeout")] [] in
  exists st',
    deleteDocument (units "doc-1") st
    = (Thrown (FailedToDeleteDocument (units "timeout")), st')
    /\ documents st' = documents st
    /\ extracted_events st' = extracted_events st
    /\ member (Document.storage_path document) (objects st') = false
    /\ forall path,
         eqUnits path (Document.storage_path document) = false ->
         member path (objects st') = member path (objects st).
Proof.
  intros document st.
  apply (failed_deletion_has_removed_the_file (units "doc-1") document st
           (units "timeout") []).
  - reflexivity.
  - reflexivity.
Defined.

Section Deleting.

Lemma deleteExtractedEvent_clean eventId st :
  faults st = [] ->
  deleteExtractedEvent eventId st
  = (Returned tt,
     mkStore (objects st) (documents st)
       (filter (fun r => negb (eqUnits (DocumentProcessor.ExtractedEvent.id r)
                                       eventId))
               (extracted_events st))
       [] (log st ++ [DeletedEvent eventId])).
Proof.
  intros Hf. unfold deleteExtractedEvent, bind, deleteEventRows, send.
  rewrite Hf. reflexivity.
Qed.

Lemma forEach_delete eventIds : forall st,
  faults st = [] ->
  fst (forEach deleteExtractedEvent eventIds st) = Returned tt
  /\ extracted_events (snd (forEach deleteExtractedEvent eventIds st))
     = filter (fun r => negb (member (DocumentProcessor.ExtractedEvent.id r)
                                     eventIds))
              (extracted_events st)
  /\ objects (snd (forEach deleteExtractedEvent eventIds st)) = objects st
  /\ documents (snd (forEach deleteExtractedEvent eventIds st)) = documents st.
Proof.
  induction eventIds as [|eventId rest IH]; intros st Hf.
  - cbn [forEach ret fst snd]. repeat split. symmetry.
    apply (filter_none
             (fun r => member (DocumentProcessor.ExtractedEvent.id r) [])).
    reflexivity.
  - cbn [forEach]. unfold bind at 1 2 3 4.
    rewrite (deleteExtractedEvent_clean eventId st Hf).
    destruct (IH (mkStore (objects st) (documents st)
                    (filter (fun r => negb (eqUnits
                               (DocumentProcessor.ExtractedEvent.id r) eventId))
                            (extracted_events st))
                    [] (log st ++ [DeletedEvent eventId])) eq_refl)
      as (R & E & O & D).
    repeat split; [exact R | | exact O | exact D].
    rewrite E. cbn [extracted_events].
    clear. induction (extracted_events st) as [|r l IHl]; [reflexivity|].
    cbn [filter member existsb]. unfold member in *.
    destruct (eqUnits (DocumentProcessor.ExtractedEvent.id r) eventId);
      cbn [negb orb filter]; [exact IHl|].
    destruct (existsb _ rest); cbn [negb]; now rewrite IHl.
Qed.

End Deleting.

(** X29. When no request is refused, deleting a list of staged events in
    one call leaves the tables and the bucket as deleting them one after
    the other does; both return. *)
Theorem deleting_events_at_once_or_one_by_one
    (eventIds : list jsstring) (st : Store) :
  faults st = [] ->
  fst (deleteExtractedEvents eventIds st) = Returned tt
  /\ fst (forEach deleteExtractedEvent eventIds st) = Returned tt
  /\ extracted_events (snd (deleteExtractedEvents eventIds st))
     = extracted_events (snd (forEach deleteExtractedEvent eventIds st))
  /\ documents (snd (deleteExtractedEvents eventIds st))
     = documents (snd (forEach deleteExtractedEvent eventIds st))
  /\ objects (snd (deleteExtractedEvents eventIds st))
     = objects (snd (forEach deleteExtractedEvent eventIds st)).
Proof.
  intros Hf.
  destruct (forEach_delete eventIds st Hf) as (R & E & O & D).
  rewrite R, E, O, D.
  unfold deleteExtractedEvents, bind, deleteEventRows, send. rewrite Hf.
  cbn. repeat split.
Qed.

Lemma deleting_events_at_once_or_one_by_one_witness :
  let st := mkStore [] [] [stagedMondays; stagedExam] [] [] in
  let eventIds := [units "evt-2"; units "evt-7"; units "evt-1"] in
  fst (deleteExtractedEvents eventIds st) = Returned tt
  /\ fst (forEach deleteExtractedEvent eventIds st) = Returned tt
  /\ extracted_events (snd (deleteExtractedEvents eventIds st))
     = extracted_events (snd (forEach deleteExtractedEvent eventIds st))
  /\ documents (snd (deleteExtractedEvents eventIds st))
     = documents (snd (forEach deleteExtractedEvent eventIds st))
  /\ objects (snd (deleteExtractedEvents eventIds st))
     = objects (snd (forEach deleteExtractedEvent eventIds st)).
Proof.
  intros st eventIds.
  apply (deleting_events_at_once_or_one_by_one eventIds st).
  reflexivity.
Defined.
